(** * petitservice: the service loader (lib/serviceLoader.js)

    A shallow embedding of the loader's closure variables, of every function
    and callback of [serviceLoader], and of the part of the Node event loop
    they rely on (pending timers, promises awaiting an external outcome,
    process exit), followed by the properties of startup, health monitoring
    and graceful shutdown.

    Conventions.  Numbers that the loader counts with or passes to timers are
    integers ([Z], milliseconds for delays).  Values handed in by the user
    are [jsval]s, tested with JavaScript truthiness.  External collaborators
    (database client, broker, cache, HTTP server, TCP connect, logger) are
    not executed: calling one appends an [effect] to the [trace] and, when it
    returns a promise, leaves a [pending_op] that the environment settles
    later through an [event]. *)

From Stdlib Require Import ZArith String Ascii List Bool Lia.
From stdpp Require Import base strings list gmap pretty.


(** ** JavaScript values supplied by the caller *)

Local Set Warnings "-register-all".

Inductive jsval :=
| JUndefined
| JNull
| JBool (b : bool)
| JNum (n : Z)
| JStr (s : string)
| JArr (items : list jsval)
| JObj (fields : list (string * jsval))
| JFun (src : string).

Definition truthy (v : jsval) : bool :=
  match v with
  | JUndefined | JNull => false
  | JBool b => b
  | JNum n => negb (n =? 0)%Z
  | JStr s => negb (String.eqb s "")
  | JArr _ | JObj _ | JFun _ => true
  end.

Definition isArray (v : jsval) : bool :=
  match v with JArr _ => true | _ => false end.

Definition array_items (v : jsval) : list jsval :=
  match v with JArr items => items | _ => [] end.

Definition is_function (v : jsval) : bool :=
  match v with JFun _ => true | _ => false end.

(** Conversion to string, as done by a template literal. *)
Fixpoint js_to_string (v : jsval) : string :=
  match v with
  | JUndefined => "undefined"
  | JNull => "null"
  | JBool b => if b then "true" else "false"
  | JNum n => pretty n
  | JStr s => s
  | JArr items =>
      String.concat ","
        (List.map (fun x => match x with
                            | JUndefined | JNull => ""
                            | _ => js_to_string x
                            end) items)
  | JObj _ => "[object Object]"
  | JFun src => src
  end.

(** The [options] object of [chain.db] and [chain.ping]; a numeric field is
    [None] when absent. *)
Record options := Options {
  pgUrl : jsval;
  pgDatabase : jsval;
  failureMax : option Z;
  frequency : option Z }.

(** [options && options.f] for a numeric field: the value when truthy. *)
Definition truthy_num (o : option options) (f : options -> option Z) : option Z :=
  match o with
  | Some opts =>
      match f opts with
      | Some n => if (n =? 0)%Z then None else Some n
      | None => None
      end
  | None => None
  end.

(** [(options && options.f) ? options.f : dflt] for a field holding a value. *)
Definition field_or (o : option options) (f : options -> jsval) (dflt : jsval) : jsval :=
  match o with
  | Some opts => if truthy (f opts) then f opts else dflt
  | None => dflt
  end.

(** ** What the loader does not define itself *)

(** What [url.parse(u).host] comes to: the call throws (as it does for an
    argument that is not a string), or the host is a string, or null when
    the text has no host. *)
Inductive parsed_host :=
| HostThrows (message : string)
| HostIs (host : option string).

Record env := Env {
  url_host : jsval -> parsed_host;        (* url.parse(u).host *)
  dbConfig_pgUrl : jsval;                 (* require('./db/config').pgUrl *)
  dbConfig_pgDatabase : jsval;            (* require('./db/config').pgDatabase *)
  getKnexObject : jsval;                  (* what dbLoader.getKnexObject() returns *)
  listen : jsval -> jsval -> option string
    (* expressApp().listen(port, ..): None when it returns a server handle,
       Some e when the call throws e *) }.

(** The object returned by require('./amq'). *)
Definition amq : jsval := JObj [].

(** Modelled from the spec: utils.uniqueValues is not among the sources; the
    spec calls its result "a set of deduplicated host:port targets".  The
    first occurrence of each value is kept. *)
Definition uniqueValues {A} `{EqDecision A} (l : list A) : list A :=
  foldl (fun acc x => if bool_decide (x ∈ acc) then acc else acc ++ [x]) [] l.

(** ** Events of the loader's life *)

Inductive level := Debug | Info | Warn | Error.

Inductive message :=
| MKilled (signal : string)
| MShutdown (signal : string)
| MTimeoutsCleared
| MDbClosed
| MAmqClosed
| MHttpClosed
| MAllClosed
| MForce
| MCheckDb
| MRecoveredDb
| MDbRetry (count secs : Z)
| MDbError (err : string)
| MPing (hostList : list string)
| MRecoveredPing (host : string)
| MPingRetry (host : string) (count secs : Z)
| MPingError (host : string)
| MCacheStarted
| MAmqStarted
| MHttpStarted (port : jsval)
| MLoadDb
| MStarting
| MRunning (promiseName : string)
| MReady
| MErr (e : string).

(** The text handed to the logger. *)
Definition render (m : message) : string :=
  match m with
  | MKilled signal => "Process killed from signal: " +:+ signal
  | MShutdown signal => "Gracefully shutting down from " +:+ signal +:+ "..."
  | MTimeoutsCleared => "> All timeouts cleared"
  | MDbClosed => "> Database Closed"
  | MAmqClosed => "> AMQ Closed"
  | MHttpClosed => "> HTTP Server Closed"
  | MAllClosed => "> Everything is closed"
  | MForce => "Exit timeout: Forcing it!"
  | MCheckDb => "Check database"
  | MRecoveredDb => "Recovered db!"
  | MDbRetry count secs =>
      "Error connecting to database - " +:+ pretty count +:+
      " attempts - retying in " +:+ pretty secs +:+ "s..."
  | MDbError err => "Error connecting to database: " +:+ err
  | MPing hostList => "Ping hosts: " +:+ String.concat ", " hostList
  | MRecoveredPing host => "Recovered ping " +:+ host +:+ "!"
  | MPingRetry host count secs =>
      "Unable to ping " +:+ host +:+ " - " +:+ pretty count +:+
      " attempts - retying in " +:+ pretty secs +:+ "s..."
  | MPingError host => "Error connecting to " +:+ host
  | MCacheStarted => "> Cache Started"
  | MAmqStarted => "> AMQ Started"
  | MHttpStarted port => "> HTTP server Started: " +:+ js_to_string port
  | MLoadDb => "load db"
  | MStarting => "Starting services..."
  | MRunning promiseName => "running " +:+ promiseName
  | MReady => "Ready to rock! 🚀"
  | MErr e => e
  end.

(** A registered startup action: the closure stored in [promises]. *)
Inductive action :=
| ACache (redisUrl : jsval)
| AAmq (opts : jsval)
| AExpress (expressApp port : jsval)
| ACustom (prm : jsval).

(** A teardown closure pushed on [actions] by [closeGracefully]. *)
Inductive closer :=
| CDb
| CAmq
| CHttp
| CHook (hook : jsval).

(** What a timer runs when it fires. *)
Inductive callback :=
| CbCheckDb                              (* setTimeout(checkDb, ..) *)
| CbRetryCheckDb                         (* Promise.delay(..).then(() => checkDb()) *)
| CbPingHosts (hostList : list string)   (* () => pingHosts(hostList) *)
| CbInitialPingHosts (hostList : list (option string))
                                         (* () => pingHosts(utils.uniqueValues(hostList)) *)
| CbForceExit.                           (* the exit timeout of closeGracefully *)

(** A promise whose outcome the environment still owes. *)
Inductive pending_op :=
| PProbe                                  (* knexObject.raw('SELECT 1') *)
| PPing (hostList : list string)          (* Promise.all(hostList.map(testHost)) *)
| PClose (td : nat) (c : closer)          (* one entry of [actions] *)
| PAction (a : action) (rest : list string) (cb : jsval)
                                          (* seqPromise waiting for one action *)
| PReady.                                 (* the promise returned by cb() *)

Inductive outcome :=
| Resolved
| Rejected (message : string).

Inductive effect :=
| Log (l : level) (m : message)
| DbInit (url database : jsval)           (* dbLoader.init(pgUrl, pgDatabase) *)
| Query                                   (* knexObject.raw('SELECT 1') *)
| Connect (port host : string)            (* net.createConnection(Number(port), host) *)
| Start (a : action)                      (* the collaborator call of a startup action *)
| Call (c : closer)                       (* destroy(), close(), onExitPromise() *)
| CallReady (cb : jsval).                 (* cb() *)

(** Bookkeeping of one [Promise.all(actions)]. *)
Record teardown := Teardown {
  td_signal : string;
  td_remaining : nat;
  td_settled : bool }.

(** ** State *)

Record state := State {
  (* module level *)
  timeouts : list (string * nat);
  (* closure variables of serviceLoader *)
  promiseOrder : list string;
  promises : gmap string action;
  countCustom : nat;
  waitingForExit : bool;
  dbFailureCount : Z;
  dbFailureMax : Z;
  dbFrequency : Z;
  dbFailing : bool;
  pingFailureCount : Z;
  pingFailureMax : Z;
  pingFrequency : Z;
  pingFailing : option string;
  knexObject : bool;
  httpServer : bool;
  onExitPromise : jsval;
  (* event loop *)
  timers : list (nat * callback * Z);
  nextTimer : nat;
  pending : list pending_op;
  teardowns : list teardown;
  exited : option Z;
  trace : list effect (* newest first *) }.

Definition dbReadiness : Z := 10000.
Definition pingReadiness : Z := 10000.

(** The state right after [serviceLoader()] returned. *)
Definition serviceLoader : state :=
  {| timeouts := []; promiseOrder := []; promises := ∅; countCustom := 1;
     waitingForExit := false;
     dbFailureCount := 0; dbFailureMax := 8; dbFrequency := 20000; dbFailing := false;
     pingFailureCount := 0; pingFailureMax := 8; pingFrequency := 30000;
     pingFailing := None;
     knexObject := false; httpServer := false; onExitPromise := JUndefined;
     timers := []; nextTimer := 0; pending := []; teardowns := []; exited := None;
     trace := [] |}.

(** ** Assignments: one update per variable *)

Definition set_timeouts v (st : state) : state :=
  {| timeouts := v; promiseOrder := promiseOrder st; promises := promises st;
     countCustom := countCustom st; waitingForExit := waitingForExit st;
     dbFailureCount := dbFailureCount st; dbFailureMax := dbFailureMax st;
     dbFrequency := dbFrequency st; dbFailing := dbFailing st;
     pingFailureCount := pingFailureCount st; pingFailureMax := pingFailureMax st;
     pingFrequency := pingFrequency st; pingFailing := pingFailing st;
     knexObject := knexObject st; httpServer := httpServer st;
     onExitPromise := onExitPromise st; timers := timers st; nextTimer := nextTimer st;
     pending := pending st; teardowns := teardowns st; exited := exited st;
     trace := trace st |}.
Definition set_promiseOrder v (st : state) : state :=
  {| timeouts := timeouts st; promiseOrder := v; promises := promises st;
     countCustom := countCustom st; waitingForExit := waitingForExit st;
     dbFailureCount := dbFailureCount st; dbFailureMax := dbFailureMax st;
     dbFrequency := dbFrequency st; dbFailing := dbFailing st;
     pingFailureCount := pingFailureCount st; pingFailureMax := pingFailureMax st;
     pingFrequency := pingFrequency st; pingFailing := pingFailing st;
     knexObject := knexObject st; httpServer := httpServer st;
     onExitPromise := onExitPromise st; timers := timers st; nextTimer := nextTimer st;
     pending := pending st; teardowns := teardowns st; exited := exited st;
     trace := trace st |}.
Definition set_promises v (st : state) : state :=
  {| timeouts := timeouts st; promiseOrder := promiseOrder st; promises := v;
     countCustom := countCustom st; waitingForExit := waitingForExit st;
     dbFailureCount := dbFailureCount st; dbFailureMax := dbFailureMax st;
     dbFrequency := dbFrequency st; dbFailing := dbFailing st;
     pingFailureCount := pingFailureCount st; pingFailureMax := pingFailureMax st;
     pingFrequency := pingFrequency st; pingFailing := pingFailing st;
     knexObject := knexObject st; httpServer := httpServer st;
     onExitPromise := onExitPromise st; timers := timers st; nextTimer := nextTimer st;
     pending := pending st; teardowns := teardowns st; exited := exited st;
     trace := trace st |}.
Definition set_countCustom v (st : state) : state :=
  {| timeouts := timeouts st; promiseOrder := promiseOrder st; promises := promises st;
     countCustom := v; waitingForExit := waitingForExit st;
     dbFailureCount := dbFailureCount st; dbFailureMax := dbFailureMax st;
     dbFrequency := dbFrequency st; dbFailing := dbFailing st;
     pingFailureCount := pingFailureCount st; pingFailureMax := pingFailureMax st;
     pingFrequency := pingFrequency st; pingFailing := pingFailing st;
     knexObject := knexObject st; httpServer := httpServer st;
     onExitPromise := onExitPromise st; timers := timers st; nextTimer := nextTimer st;
     pending := pending st; teardowns := teardowns st; exited := exited st;
     trace := trace st |}.
Definition set_waitingForExit v (st : state) : state :=
  {| timeouts := timeouts st; promiseOrder := promiseOrder st; promises := promises st;
     countCustom := countCustom st; waitingForExit := v;
     dbFailureCount := dbFailureCount st; dbFailureMax := dbFailureMax st;
     dbFrequency := dbFrequency st; dbFailing := dbFailing st;
     pingFailureCount := pingFailureCount st; pingFailureMax := pingFailureMax st;
     pingFrequency := pingFrequency st; pingFailing := pingFailing st;
     knexObject := knexObject st; httpServer := httpServer st;
     onExitPromise := onExitPromise st; timers := timers st; nextTimer := nextTimer st;
     pending := pending st; teardowns := teardowns st; exited := exited st;
     trace := trace st |}.
Definition set_dbFailureCount v (st : state) : state :=
  {| timeouts := timeouts st; promiseOrder := promiseOrder st; promises := promises st;
     countCustom := countCustom st; waitingForExit := waitingForExit st;
     dbFailureCount := v; dbFailureMax := dbFailureMax st; dbFrequency := dbFrequency st;
     dbFailing := dbFailing st; pingFailureCount := pingFailureCount st;
     pingFailureMax := pingFailureMax st; pingFrequency := pingFrequency st;
     pingFailing := pingFailing st; knexObject := knexObject st;
     httpServer := httpServer st; onExitPromise := onExitPromise st; timers := timers st;
     nextTimer := nextTimer st; pending := pending st; teardowns := teardowns st;
     exited := exited st; trace := trace st |}.
Definition set_dbFailureMax v (st : state) : state :=
  {| timeouts := timeouts st; promiseOrder := promiseOrder st; promises := promises st;
     countCustom := countCustom st; waitingForExit := waitingForExit st;
     dbFailureCount := dbFailureCount st; dbFailureMax := v; dbFrequency := dbFrequency st;
     dbFailing := dbFailing st; pingFailureCount := pingFailureCount st;
     pingFailureMax := pingFailureMax st; pingFrequency := pingFrequency st;
     pingFailing := pingFailing st; knexObject := knexObject st;
     httpServer := httpServer st; onExitPromise := onExitPromise st; timers := timers st;
     nextTimer := nextTimer st; pending := pending st; teardowns := teardowns st;
     exited := exited st; trace := trace st |}.
Definition set_dbFrequency v (st : state) : state :=
  {| timeouts := timeouts st; promiseOrder := promiseOrder st; promises := promises st;
     countCustom := countCustom st; waitingForExit := waitingForExit st;
     dbFailureCount := dbFailureCount st; dbFailureMax := dbFailureMax st;
     dbFrequency := v; dbFailing := dbFailing st; pingFailureCount := pingFailureCount st;
     pingFailureMax := pingFailureMax st; pingFrequency := pingFrequency st;
     pingFailing := pingFailing st; knexObject := knexObject st;
     httpServer := httpServer st; onExitPromise := onExitPromise st; timers := timers st;
     nextTimer := nextTimer st; pending := pending st; teardowns := teardowns st;
     exited := exited st; trace := trace st |}.
Definition set_dbFailing v (st : state) : state :=
  {| timeouts := timeouts st; promiseOrder := promiseOrder st; promises := promises st;
     countCustom := countCustom st; waitingForExit := waitingForExit st;
     dbFailureCount := dbFailureCount st; dbFailureMax := dbFailureMax st;
     dbFrequency := dbFrequency st; dbFailing := v;
     pingFailureCount := pingFailureCount st; pingFailureMax := pingFailureMax st;
     pingFrequency := pingFrequency st; pingFailing := pingFailing st;
     knexObject := knexObject st; httpServer := httpServer st;
     onExitPromise := onExitPromise st; timers := timers st; nextTimer := nextTimer st;
     pending := pending st; teardowns := teardowns st; exited := exited st;
     trace := trace st |}.
Definition set_pingFailureCount v (st : state) : state :=
  {| timeouts := timeouts st; promiseOrder := promiseOrder st; promises := promises st;
     countCustom := countCustom st; waitingForExit := waitingForExit st;
     dbFailureCount := dbFailureCount st; dbFailureMax := dbFailureMax st;
     dbFrequency := dbFrequency st; dbFailing := dbFailing st; pingFailureCount := v;
     pingFailureMax := pingFailureMax st; pingFrequency := pingFrequency st;
     pingFailing := pingFailing st; knexObject := knexObject st;
     httpServer := httpServer st; onExitPromise := onExitPromise st; timers := timers st;
     nextTimer := nextTimer st; pending := pending st; teardowns := teardowns st;
     exited := exited st; trace := trace st |}.
Definition set_pingFailureMax v (st : state) : state :=
  {| timeouts := timeouts st; promiseOrder := promiseOrder st; promises := promises st;
     countCustom := countCustom st; waitingForExit := waitingForExit st;
     dbFailureCount := dbFailureCount st; dbFailureMax := dbFailureMax st;
     dbFrequency := dbFrequency st; dbFailing := dbFailing st;
     pingFailureCount := pingFailureCount st; pingFailureMax := v;
     pingFrequency := pingFrequency st; pingFailing := pingFailing st;
     knexObject := knexObject st; httpServer := httpServer st;
     onExitPromise := onExitPromise st; timers := timers st; nextTimer := nextTimer st;
     pending := pending st; teardowns := teardowns st; exited := exited st;
     trace := trace st |}.
Definition set_pingFrequency v (st : state) : state :=
  {| timeouts := timeouts st; promiseOrder := promiseOrder st; promises := promises st;
     countCustom := countCustom st; waitingForExit := waitingForExit st;
     dbFailureCount := dbFailureCount st; dbFailureMax := dbFailureMax st;
     dbFrequency := dbFrequency st; dbFailing := dbFailing st;
     pingFailureCount := pingFailureCount st; pingFailureMax := pingFailureMax st;
     pingFrequency := v; pingFailing := pingFailing st; knexObject := knexObject st;
     httpServer := httpServer st; onExitPromise := onExitPromise st; timers := timers st;
     nextTimer := nextTimer st; pending := pending st; teardowns := teardowns st;
     exited := exited st; trace := trace st |}.
Definition set_pingFailing v (st : state) : state :=
  {| timeouts := timeouts st; promiseOrder := promiseOrder st; promises := promises st;
     countCustom := countCustom st; waitingForExit := waitingForExit st;
     dbFailureCount := dbFailureCount st; dbFailureMax := dbFailureMax st;
     dbFrequency := dbFrequency st; dbFailing := dbFailing st;
     pingFailureCount := pingFailureCount st; pingFailureMax := pingFailureMax st;
     pingFrequency := pingFrequency st; pingFailing := v; knexObject := knexObject st;
     httpServer := httpServer st; onExitPromise := onExitPromise st; timers := timers st;
     nextTimer := nextTimer st; pending := pending st; teardowns := teardowns st;
     exited := exited st; trace := trace st |}.
Definition set_knexObject v (st : state) : state :=
  {| timeouts := timeouts st; promiseOrder := promiseOrder st; promises := promises st;
     countCustom := countCustom st; waitingForExit := waitingForExit st;
     dbFailureCount := dbFailureCount st; dbFailureMax := dbFailureMax st;
     dbFrequency := dbFrequency st; dbFailing := dbFailing st;
     pingFailureCount := pingFailureCount st; pingFailureMax := pingFailureMax st;
     pingFrequency := pingFrequency st; pingFailing := pingFailing st; knexObject := v;
     httpServer := httpServer st; onExitPromise := onExitPromise st; timers := timers st;
     nextTimer := nextTimer st; pending := pending st; teardowns := teardowns st;
     exited := exited st; trace := trace st |}.
Definition set_httpServer v (st : state) : state :=
  {| timeouts := timeouts st; promiseOrder := promiseOrder st; promises := promises st;
     countCustom := countCustom st; waitingForExit := waitingForExit st;
     dbFailureCount := dbFailureCount st; dbFailureMax := dbFailureMax st;
     dbFrequency := dbFrequency st; dbFailing := dbFailing st;
     pingFailureCount := pingFailureCount st; pingFailureMax := pingFailureMax st;
     pingFrequency := pingFrequency st; pingFailing := pingFailing st;
     knexObject := knexObject st; httpServer := v; onExitPromise := onExitPromise st;
     timers := timers st; nextTimer := nextTimer st; pending := pending st;
     teardowns := teardowns st; exited := exited st; trace := trace st |}.
Definition set_onExitPromise v (st : state) : state :=
  {| timeouts := timeouts st; promiseOrder := promiseOrder st; promises := promises st;
     countCustom := countCustom st; waitingForExit := waitingForExit st;
     dbFailureCount := dbFailureCount st; dbFailureMax := dbFailureMax st;
     dbFrequency := dbFrequency st; dbFailing := dbFailing st;
     pingFailureCount := pingFailureCount st; pingFailureMax := pingFailureMax st;
     pingFrequency := pingFrequency st; pingFailing := pingFailing st;
     knexObject := knexObject st; httpServer := httpServer st; onExitPromise := v;
     timers := timers st; nextTimer := nextTimer st; pending := pending st;
     teardowns := teardowns st; exited := exited st; trace := trace st |}.
Definition set_timers v (st : state) : state :=
  {| timeouts := timeouts st; promiseOrder := promiseOrder st; promises := promises st;
     countCustom := countCustom st; waitingForExit := waitingForExit st;
     dbFailureCount := dbFailureCount st; dbFailureMax := dbFailureMax st;
     dbFrequency := dbFrequency st; dbFailing := dbFailing st;
     pingFailureCount := pingFailureCount st; pingFailureMax := pingFailureMax st;
     pingFrequency := pingFrequency st; pingFailing := pingFailing st;
     knexObject := knexObject st; httpServer := httpServer st;
     onExitPromise := onExitPromise st; timers := v; nextTimer := nextTimer st;
     pending := pending st; teardowns := teardowns st; exited := exited st;
     trace := trace st |}.
Definition set_nextTimer v (st : state) : state :=
  {| timeouts := timeouts st; promiseOrder := promiseOrder st; promises := promises st;
     countCustom := countCustom st; waitingForExit := waitingForExit st;
     dbFailureCount := dbFailureCount st; dbFailureMax := dbFailureMax st;
     dbFrequency := dbFrequency st; dbFailing := dbFailing st;
     pingFailureCount := pingFailureCount st; pingFailureMax := pingFailureMax st;
     pingFrequency := pingFrequency st; pingFailing := pingFailing st;
     knexObject := knexObject st; httpServer := httpServer st;
     onExitPromise := onExitPromise st; timers := timers st; nextTimer := v;
     pending := pending st; teardowns := teardowns st; exited := exited st;
     trace := trace st |}.
Definition set_pending v (st : state) : state :=
  {| timeouts := timeouts st; promiseOrder := promiseOrder st; promises := promises st;
     countCustom := countCustom st; waitingForExit := waitingForExit st;
     dbFailureCount := dbFailureCount st; dbFailureMax := dbFailureMax st;
     dbFrequency := dbFrequency st; dbFailing := dbFailing st;
     pingFailureCount := pingFailureCount st; pingFailureMax := pingFailureMax st;
     pingFrequency := pingFrequency st; pingFailing := pingFailing st;
     knexObject := knexObject st; httpServer := httpServer st;
     onExitPromise := onExitPromise st; timers := timers st; nextTimer := nextTimer st;
     pending := v; teardowns := teardowns st; exited := exited st; trace := trace st |}.
Definition set_teardowns v (st : state) : state :=
  {| timeouts := timeouts st; promiseOrder := promiseOrder st; promises := promises st;
     countCustom := countCustom st; waitingForExit := waitingForExit st;
     dbFailureCount := dbFailureCount st; dbFailureMax := dbFailureMax st;
     dbFrequency := dbFrequency st; dbFailing := dbFailing st;
     pingFailureCount := pingFailureCount st; pingFailureMax := pingFailureMax st;
     pingFrequency := pingFrequency st; pingFailing := pingFailing st;
     knexObject := knexObject st; httpServer := httpServer st;
     onExitPromise := onExitPromise st; timers := timers st; nextTimer := nextTimer st;
     pending := pending st; teardowns := v; exited := exited st; trace := trace st |}.
Definition set_exited v (st : state) : state :=
  {| timeouts := timeouts st; promiseOrder := promiseOrder st; promises := promises st;
     countCustom := countCustom st; waitingForExit := waitingForExit st;
     dbFailureCount := dbFailureCount st; dbFailureMax := dbFailureMax st;
     dbFrequency := dbFrequency st; dbFailing := dbFailing st;
     pingFailureCount := pingFailureCount st; pingFailureMax := pingFailureMax st;
     pingFrequency := pingFrequency st; pingFailing := pingFailing st;
     knexObject := knexObject st; httpServer := httpServer st;
     onExitPromise := onExitPromise st; timers := timers st; nextTimer := nextTimer st;
     pending := pending st; teardowns := teardowns st; exited := v; trace := trace st |}.
Definition set_trace v (st : state) : state :=
  {| timeouts := timeouts st; promiseOrder := promiseOrder st; promises := promises st;
     countCustom := countCustom st; waitingForExit := waitingForExit st;
     dbFailureCount := dbFailureCount st; dbFailureMax := dbFailureMax st;
     dbFrequency := dbFrequency st; dbFailing := dbFailing st;
     pingFailureCount := pingFailureCount st; pingFailureMax := pingFailureMax st;
     pingFrequency := pingFrequency st; pingFailing := pingFailing st;
     knexObject := knexObject st; httpServer := httpServer st;
     onExitPromise := onExitPromise st; timers := timers st; nextTimer := nextTimer st;
     pending := pending st; teardowns := teardowns st; exited := exited st; trace := v |}.

(** ** Primitives of the runtime *)

Definition emit (x : effect) (st : state) : state :=
  set_trace (x :: trace st) st.

Definition log (l : level) (m : message) (st : state) : state :=
  emit (Log l m) st.

Definition add_pending (p : pending_op) (st : state) : state :=
  set_pending (pending st ++ [p]) st.

(** [setTimeout(cb, ms)]: the handle and the new state. *)
Definition setTimeout (cb : callback) (ms : Z) (st : state) : nat * state :=
  let id := nextTimer st in
  (id, set_nextTimer (S id) (set_timers (timers st ++ [(id, cb, ms)]) st)).

Definition clearTimeout (id : nat) (st : state) : state :=
  set_timers (filter (fun t => t.1.1 ≠ id) (timers st)) st.

(** [o[k] = v] on an object with string keys: an existing key keeps its
    place, a new one goes last (the order [Object.keys] returns). *)
Fixpoint obj_set {A} (k : string) (v : A) (o : list (string * A)) : list (string * A) :=
  match o with
  | [] => [(k, v)]
  | (k', v') :: o' =>
      if String.eqb k' k then (k', v) :: o' else (k', v') :: obj_set k v o'
  end.

(** [timeouts.k = setTimeout(cb, ms)] *)
Definition setTimeout_as (k : string) (cb : callback) (ms : Z) (st : state) : state :=
  let '(id, st') := setTimeout cb ms st in
  set_timeouts (obj_set k id (timeouts st')) st'.

(** [Promise.delay(ms).then(cb)]: a timer that [timeouts] does not know. *)
Definition delay_then (cb : callback) (ms : Z) (st : state) : state :=
  (setTimeout cb ms st).2.

(** [process.nextTick(() => process.exit(exitCode))]: the process is gone
    before the next event; the first exit requested in a turn wins. *)
Definition process_exit (exitCode : Z) (st : state) : state :=
  match exited st with
  | Some _ => st
  | None => set_exited (Some exitCode) st
  end.

(** ** exitProcess *)

Definition exit_code (signal : string) : Z :=
  if String.prefix "SIG" signal then 0%Z else 1%Z.

Definition exitProcess (signal : string) (st : state) : state :=
  let st := log Info (MKilled signal) st in
  let exitCode := exit_code signal in
  process_exit exitCode st.

(** ** testHost *)

Fixpoint split_on (c : ascii) (s : string) : list string :=
  match s with
  | EmptyString => [EmptyString]
  | String a s' =>
      if Ascii.eqb a c then EmptyString :: split_on c s'
      else match split_on c s' with
           | h :: t => String a h :: t
           | [] => [String a EmptyString]
           end
  end.

(** The connection [testHost(addr)] opens; its promise is part of the
    [PPing] the cycle waits for. *)
Definition testHost (addr : string) : effect :=
  let splitHost := split_on ":"%char addr in
  let host := default "" (splitHost !! 0) in
  let port := match splitHost !! 1 with
              | Some p => if String.eqb p "" then "80" else p
              | None => "80"
              end in
  Connect port host.

(** ** closeGracefully *)

(** The list [actions]: one closure per branch taken.  The exit hook is read
    and called in a microtask queued here, before any other event. *)
Definition teardown_actions (st : state) : list closer :=
  (if knexObject st then [CDb] else []) ++
  (if truthy amq then [CAmq] else []) ++
  (if httpServer st then [CHttp] else []) ++
  (if truthy (onExitPromise st) then [CHook (onExitPromise st)] else []).

Definition call_closer (td : nat) (st : state) (c : closer) : state :=
  add_pending (PClose td c) (emit (Call c) st).

(** The [.then] of [Promise.all(actions)]. *)
Definition all_closed (signal : string) (st : state) : state :=
  let st := log Info MAllClosed st in
  let st := exitProcess signal st in
  set_waitingForExit true st.

(** The callback of the exit timeout. *)
Definition force_exit (st : state) : state :=
  let st := log Info MForce st in
  let st := exitProcess "FORCE" st in
  set_waitingForExit true st.

Definition closeGracefully (signal : string) (st : state) : state :=
  if waitingForExit st then st else
  let st := log Info (MShutdown signal) st in
  let st := if bool_decide (timeouts st ≠ []) then log Info MTimeoutsCleared st else st in
  let st := foldl (fun s kv => clearTimeout kv.2 s) st (timeouts st) in
  let actions := teardown_actions st in
  let td := length (teardowns st) in
  let st := foldl (call_closer td) st actions in
  let st := set_teardowns (teardowns st ++ [Teardown signal (length actions) false]) st in
  let st := (setTimeout CbForceExit 10000 st).2 in
  match actions with
  | [] => all_closed signal (set_teardowns (<[td := Teardown signal 0 true]> (teardowns st)) st)
  | _ => st
  end.

(** The text each closure logs once its resource is closed. *)
Definition closed_log (c : closer) : option message :=
  match c with
  | CDb => Some MDbClosed
  | CAmq => Some MAmqClosed
  | CHttp => Some MHttpClosed
  | CHook _ => None
  end.

(** One entry of [actions] settles: its own [.then], then what
    [Promise.all(actions).then(..).catch(..)] makes of it. *)
Definition close_settled (td : nat) (c : closer) (r : outcome) (st : state) : state :=
  match r with
  | Resolved =>
      let st := match closed_log c with Some m => log Info m st | None => st end in
      match teardowns st !! td with
      | Some t =>
          if td_settled t then st else
          let n := pred (td_remaining t) in
          if (n =? 0)%nat
          then all_closed (td_signal t)
                 (set_teardowns (<[td := Teardown (td_signal t) 0 true]> (teardowns st)) st)
          else set_teardowns (<[td := Teardown (td_signal t) n false]> (teardowns st)) st
      | None => st
      end
  | Rejected e =>
      match teardowns st !! td with
      | Some t =>
          if td_settled t then st else
          log Error (MErr e)
            (set_teardowns
               (<[td := Teardown (td_signal t) (td_remaining t) true]> (teardowns st)) st)
      | None => st
      end
  end.

(** ** The handler installed for SIGINT, SIGTERM, SIGQUIT, uncaughtException
    and unhandledRejection; [err] is the text of a truthy first argument. *)

Definition handled_events : list string :=
  ["SIGINT"; "SIGTERM"; "SIGQUIT"; "uncaughtException"; "unhandledRejection"].

Definition on_process_event (signal : string) (err : option string) (st : state) : state :=
  let st := match err with Some e => log Error (MErr e) st | None => st end in
  let st := closeGracefully signal st in
  set_waitingForExit true st.

(** ** checkDb *)

(** A call returns or throws; either way [st] is the state it leaves. *)
Inductive result :=
| Ok (st : state)
| Throws (message : string) (st : state).

Definition checkDb (st : state) : result :=
  if negb (knexObject st) then Throws "knexObject not defined" st
  else
    let st := log Debug MCheckDb st in
    Ok (add_pending PProbe (emit Query st)).

Definition checkDb_then (st : state) : state :=
  let st := set_dbFailureCount 0 st in
  let st := if dbFailing st then set_dbFailing false (log Info MRecoveredDb st) else st in
  setTimeout_as "checkDb" CbCheckDb (dbFrequency st) st.

Definition checkDb_catch (err : string) (st : state) : state :=
  if (dbFailureCount st <? dbFailureMax st)%Z then
    let st := set_dbFailureCount (dbFailureCount st + 1) st in
    let st := set_dbFailing true st in
    let waitCount := (2000 * dbFailureCount st)%Z in
    let st := log Warn (MDbRetry (dbFailureCount st) (waitCount / 1000)) st in
    delay_then CbRetryCheckDb waitCount st
  else
    let st := log Error (MDbError err) st in
    let st := closeGracefully "NODB" st in
    set_waitingForExit true st.

(** ** pingHosts *)

Definition pingHosts (hostList : list string) (st : state) : state :=
  let st := log Debug (MPing hostList) st in
  let st := foldl (fun s addr => emit (testHost addr) s) st hostList in
  add_pending (PPing hostList) st.

Definition pingHosts_then (hostList : list string) (st : state) : state :=
  let st := set_pingFailureCount 0 st in
  let st := match pingFailing st with
            | Some host =>
                if String.eqb host "" then st
                else set_pingFailing None (log Info (MRecoveredPing host) st)
            | None => st
            end in
  setTimeout_as "pingHosts" (CbPingHosts hostList) (pingFrequency st) st.

Definition pingHosts_catch (hostList : list string) (err : string) (st : state) : state :=
  if (pingFailureCount st <? pingFailureMax st)%Z then
    let st := set_pingFailureCount (pingFailureCount st + 1) st in
    let st := set_pingFailing (Some err) st in
    let waitCount := (2000 * pingFailureCount st)%Z in
    let st := log Warn (MPingRetry err (pingFailureCount st) (waitCount / 1000)) st in
    delay_then (CbPingHosts hostList) waitCount st
  else
    let st := log Error (MPingError err) st in
    let st := closeGracefully "NOHOST" st in
    set_waitingForExit true st.

(** [pingHosts] called with hosts as [url.parse] gave them.  For a null host
    [testHost] throws at [addr.split], outside any promise: by then the
    cycle is logged (join prints null as the empty text) and the targets
    before the first null have their connection; the call throws and no
    promise is awaited. *)
Fixpoint all_hosts (l : list (option string)) : option (list string) :=
  match l with
  | [] => Some []
  | Some h :: l' =>
      match all_hosts l' with
      | Some hl => Some (h :: hl)
      | None => None
      end
  | None :: _ => None
  end.

Fixpoint hosts_before_null (l : list (option string)) : list string :=
  match l with
  | Some h :: l' => h :: hosts_before_null l'
  | _ => []
  end.

(** The message of that TypeError, as the engine words it. *)
Definition split_of_null : string := "Cannot read property 'split' of null".

Definition pingHosts_call (hostList : list (option string)) (st : state) : result :=
  match all_hosts hostList with
  | Some hl => Ok (pingHosts hl st)
  | None =>
      let st := log Debug (MPing (List.map (default "") hostList)) st in
      let st := foldl (fun s addr => emit (testHost addr) s) st
                  (hosts_before_null hostList) in
      Throws split_of_null st
  end.

(** The outcome of [Promise.all(hostList.map(testHost))] from the connection
    results in the order they arrive: the first failure rejects with that
    target's address. *)
Definition ping_outcome (settled : list (string * bool)) : outcome :=
  match list_find (fun x => x.2 = false) settled with
  | Some (_, (addr, _)) => Rejected addr
  | None => Resolved
  end.

(** ** The chainable configuration methods *)

(** [urls.map(u => url.parse(u).host)]: the hosts, or the first throw. *)
Fixpoint parse_hosts (e : env) (urls : list jsval) : string + list (option string) :=
  match urls with
  | [] => inr []
  | u :: urls' =>
      match url_host e u with
      | HostThrows m => inl m
      | HostIs h =>
          match parse_hosts e urls' with
          | inl m => inl m
          | inr hosts => inr (h :: hosts)
          end
      end
  end.

(** A throw of [url.parse] comes after the options were assigned. *)
Definition chain_ping (e : env) (urlList : jsval) (opts : option options) (st : state)
  : result :=
  if negb (truthy urlList) || negb (isArray urlList)
  then Throws "Missing urlList for ping" st
  else
    let st := match truthy_num opts failureMax with
              | Some n => set_pingFailureMax n st
              | None => st
              end in
    let st := match truthy_num opts frequency with
              | Some n => set_pingFrequency n st
              | None => st
              end in
    match parse_hosts e (List.filter truthy (array_items urlList)) with
    | inl m => Throws m st
    | inr hosts =>
        let hostList := uniqueValues hosts in
        Ok (setTimeout_as "initialPingHosts" (CbInitialPingHosts hostList)
              pingReadiness st)
    end.

Definition register (name : string) (a : action) (st : state) : state :=
  let st := set_promises (<[name := a]> (promises st)) st in
  set_promiseOrder (promiseOrder st ++ [name]) st.

Definition chain_cache (redisUrl : jsval) (st : state) : result :=
  if negb (truthy redisUrl) then Throws "Missing redisUrl for cache" st
  else Ok (register "cache" (ACache redisUrl) st).

Definition chain_amq (opts : jsval) (st : state) : result :=
  Ok (register "amq" (AAmq opts) st).

Definition chain_express (expressApp portRaw : jsval) (st : state) : result :=
  if negb (truthy expressApp) then Throws "Missing expressApp for express" st
  else
    let port := if truthy portRaw then portRaw else JNum 80 in
    Ok (register "express" (AExpress expressApp port) st).

(** The handle is whatever [dbLoader.getKnexObject()] returns, taken to be
    the same at every call; the loader only ever tests it for truthiness. *)
Definition chain_db (e : env) (opts : option options) (st : state) : result :=
  let pgUrl' := field_or opts pgUrl (dbConfig_pgUrl e) in
  let pgDatabase' := field_or opts pgDatabase (dbConfig_pgDatabase e) in
  let st := match truthy_num opts failureMax with
            | Some n => set_dbFailureMax n st
            | None => st
            end in
  let st := match truthy_num opts frequency with
            | Some n => set_dbFrequency n st
            | None => st
            end in
  let st := log Debug MLoadDb st in
  let st := emit (DbInit pgUrl' pgDatabase') st in
  let st := set_knexObject (truthy (getKnexObject e)) st in
  Ok (setTimeout_as "initialCheckDb" CbCheckDb dbReadiness st).

Definition chain_then (prm : jsval) (st : state) : result :=
  let promiseName := "custom" +:+ pretty (countCustom st) in
  let st := register promiseName (ACustom prm) st in
  Ok (set_countCustom (countCustom st + 1) st).

Definition chain_onExit (prm : jsval) (st : state) : result :=
  Ok (set_onExitPromise prm st).

(** ** chain.done *)

(** The [.catch] of [done]. *)
Definition done_catch (err : string) (st : state) : state :=
  let st := log Error (MErr err) st in
  let st := exitProcess "START" st in
  set_waitingForExit true st.

(** The [.then] of [done]. *)
Definition done_then (cb : jsval) (st : state) : state :=
  let st := log Info MReady st in
  if truthy cb then add_pending PReady (emit (CallReady cb) st) else st.

(** Calling the closure stored under a name.  The server handle is assigned
    as soon as [listen] has returned it. *)
Definition start_action (e : env) (a : action) (rest : list string) (cb : jsval)
    (st : state) : state :=
  let st := emit (Start a) st in
  match a with
  | AExpress expressApp port =>
      match (if is_function expressApp then listen e expressApp port
             else Some "expressApp is not a function") with
      | None => add_pending (PAction a rest cb) (set_httpServer true st)
      | Some err => done_catch err st
      end
  | _ => add_pending (PAction a rest cb) st
  end.

(** Modelled from the spec: utils.seqPromise is not among the sources.  Per
    the spec it "executes registered actions strictly in registration order,
    awaiting each to completion before starting the next" and "aborts
    immediately" at a failure.  Here it takes the names still to run: it logs
    and starts the next action and stops until the environment settles it
    (see [settle]); a name without a closure resolves at once. *)
Fixpoint seqPromise (e : env) (names : list string) (cb : jsval) (st : state) : state :=
  match names with
  | [] => done_then cb st
  | promiseName :: rest =>
      let st := log Debug (MRunning promiseName) st in
      match promises st !! promiseName with
      | Some a => start_action e a rest cb st
      | None => seqPromise e rest cb st
      end
  end.

Definition chain_done (e : env) (cb : jsval) (st : state) : state :=
  let st := log Info MStarting st in
  seqPromise e (promiseOrder st) cb st.

(** The line each built-in action logs once started. *)
Definition started_log (a : action) : option message :=
  match a with
  | ACache _ => Some MCacheStarted
  | AAmq _ => Some MAmqStarted
  | AExpress _ port => Some (MHttpStarted port)
  | ACustom _ => None
  end.

(** ** The event loop *)

Inductive event :=
| EvSignal (signal : string) (err : option string)  (* a process-level event *)
| EvTimer (i : nat)                                 (* the i-th pending timer fires *)
| EvSettle (i : nat) (r : outcome).                 (* the i-th pending promise settles *)

(** A throw out of a timer callback surfaces as uncaughtException, one out
    of a promise chain as unhandledRejection. *)
Definition fire (cb : callback) (st : state) : state :=
  match cb with
  | CbCheckDb =>
      match checkDb st with
      | Ok st' => st'
      | Throws m st' => on_process_event "uncaughtException" (Some m) st'
      end
  | CbRetryCheckDb =>
      match checkDb st with
      | Ok st' => st'
      | Throws m st' => on_process_event "unhandledRejection" (Some m) st'
      end
  | CbPingHosts hostList => pingHosts hostList st
  | CbInitialPingHosts hostList =>
      match pingHosts_call (uniqueValues hostList) st with
      | Ok st' => st'
      | Throws m st' => on_process_event "uncaughtException" (Some m) st'
      end
  | CbForceExit => force_exit st
  end.

Definition settle (e : env) (p : pending_op) (r : outcome) (st : state) : state :=
  match p, r with
  | PProbe, Resolved => checkDb_then st
  | PProbe, Rejected err => checkDb_catch err st
  | PPing hostList, Resolved => pingHosts_then hostList st
  | PPing hostList, Rejected err => pingHosts_catch hostList err st
  | PClose td c, _ => close_settled td c r st
  | PAction a rest cb, Resolved =>
      let st := match started_log a with Some m => log Info m st | None => st end in
      seqPromise e rest cb st
  | PAction _ _ _, Rejected err => done_catch err st
  | PReady, Resolved => st
  | PReady, Rejected err => done_catch err st
  end.

Definition step (e : env) (ev : event) (st : state) : state :=
  match exited st with
  | Some _ => st
  | None =>
      match ev with
      | EvSignal signal err =>
          if bool_decide (signal ∈ handled_events)
          then on_process_event signal err st
          else st
      | EvTimer i =>
          match timers st !! i with
          | Some (_, cb, _) => fire cb (set_timers (delete i (timers st)) st)
          | None => st
          end
      | EvSettle i r =>
          match pending st !! i with
          | Some p => settle e p r (set_pending (delete i (pending st)) st)
          | None => st
          end
      end
  end.

(** Calls made on the chain by the program that uses the loader. *)
Inductive call :=
| Ping (urlList : jsval) (opts : option options)
| Cache (redisUrl : jsval)
| Amq (opts : jsval)
| Express (expressApp portRaw : jsval)
| Db (opts : option options)
| Then (prm : jsval)
| OnExit (prm : jsval)
| Done (cb : jsval).

Definition apply_call (e : env) (c : call) (st : state) : result :=
  match c with
  | Ping urlList opts => chain_ping e urlList opts st
  | Cache redisUrl => chain_cache redisUrl st
  | Amq opts => chain_amq opts st
  | Express expressApp portRaw => chain_express expressApp portRaw st
  | Db opts => chain_db e opts st
  | Then prm => chain_then prm st
  | OnExit prm => chain_onExit prm st
  | Done cb => Ok (chain_done e cb st)
  end.

Inductive input :=
| Invoke (c : call)
| Happen (ev : event).

(** One input; a configuration call that throws leaves the loader as the
    throw found it (the caller is taken to catch the error). *)
Definition react (e : env) (st : state) (i : input) : state :=
  match i with
  | Invoke c =>
      match exited st with
      | Some _ => st
      | None => match apply_call e c st with Ok st' => st' | Throws _ st' => st' end
      end
  | Happen ev => step e ev st
  end.

Definition run (e : env) (ins : list input) (st : state) : state :=
  foldl (react e) st ins.

(** The log and the collaborator calls in the order they happened. *)
Definition history (st : state) : list effect := rev (trace st).

(** ** Observations on a state *)

Definition is_shutdown (x : effect) : bool :=
  match x with Log Info (MShutdown _) => true | _ => false end.

Definition is_query (x : effect) : bool :=
  match x with Query => true | _ => false end.

Definition is_dbinit (x : effect) : bool :=
  match x with DbInit _ _ => true | _ => false end.

(** A listener startup action that obtained its server handle. *)
Definition is_listening (e : env) (x : effect) : bool :=
  match x with
  | Start (AExpress expressApp port) =>
      is_function expressApp && bool_decide (listen e expressApp port = None)
  | _ => false
  end.

(** How many times [closeGracefully] went past its guard. *)
Definition teardown_runs (st : state) : nat :=
  length (List.filter is_shutdown (trace st)).

(** How many liveness probes were sent. *)
Definition queries (st : state) : nat :=
  length (List.filter is_query (trace st)).

(** The teardown closures called so far, oldest first. *)
Definition closer_calls (st : state) : list closer :=
  omap (fun x => match x with Call c => Some c | _ => None end) (history st).

(** The startup actions started so far, oldest first. *)
Definition started (st : state) : list action :=
  omap (fun x => match x with Start a => Some a | _ => None end) (history st).

(** The names [done] has announced so far, oldest first. *)
Definition announced (st : state) : list string :=
  omap (fun x => match x with Log Debug (MRunning n) => Some n | _ => None end)
       (history st).

(** [part] occurs in [s]. *)
Definition mentions (s part : string) : Prop :=
  exists pre post, s = pre +:+ part +:+ post.

(** A timer that will force the exit is pending. *)
Definition deadline_armed (st : state) : Prop :=
  exists id, (id, CbForceExit, 10000%Z) ∈ timers st.

Definition is_probe (p : pending_op) : bool :=
  match p with PProbe => true | _ => false end.

Definition is_db_callback (t : nat * callback * Z) : bool :=
  match t.1.2 with CbCheckDb | CbRetryCheckDb => true | _ => false end.

(** ** Drivers: the environment playing one particular scenario *)

(** Settle the oldest pending promise that satisfies [sel]. *)
Definition settle_first (e : env) (sel : pending_op -> bool) (r : outcome) (st : state)
  : state :=
  match list_find (fun p => sel p = true) (pending st) with
  | Some (i, _) => step e (EvSettle i r) st
  | None => st
  end.

(** Fire the oldest pending timer that satisfies [sel]. *)
Definition fire_first (e : env) (sel : nat * callback * Z -> bool) (st : state) : state :=
  match list_find (fun t => sel t = true) (timers st) with
  | Some (i, _) => step e (EvTimer i) st
  | None => st
  end.

(** One failed database probe followed, when a retry was scheduled, by the
    retry timer firing (which sends the next probe). *)
Definition db_failure (e : env) (err : string) (st : state) : state :=
  fire_first e is_db_callback (settle_first e is_probe (Rejected err) st).

Definition is_startup_op (p : pending_op) : bool :=
  match p with PAction _ _ _ => true | _ => false end.

(** The startup actions settle one after the other with the given outcomes. *)
Definition settle_actions (e : env) (outs : list outcome) (st : state) : state :=
  foldl (fun s r => settle_first e is_startup_op r s) st outs.

Definition is_close_op (p : pending_op) : bool :=
  match p with PClose _ _ => true | _ => false end.

(** Pending promises settle in the order and with the outcomes given, each
    addressed by its position at that moment. *)
Definition settle_seq (e : env) (evs : list (nat * outcome)) (st : state) : state :=
  foldl (fun s ir => step e (EvSettle ir.1 ir.2) s) st evs.

(** Every settlement of [evs] reaches a teardown closure. *)
Fixpoint hits_closers (e : env) (evs : list (nat * outcome)) (st : state) : bool :=
  match evs with
  | [] => true
  | (i, r) :: evs' =>
      match pending st !! i with
      | Some (PClose _ _) => hits_closers e evs' (step e (EvSettle i r) st)
      | _ => false
      end
  end.

Definition is_rejected (r : outcome) : bool :=
  match r with Rejected _ => true | Resolved => false end.

Definition is_deadline (t : nat * callback * Z) : bool :=
  match t.1.2 with CbForceExit => true | _ => false end.

(** ** Auxiliary notions for the proofs *)

(** The timers left once every handle kept in [timeouts] is cleared. *)
Definition cleared (tos : list (string * nat)) (ts : list (nat * callback * Z))
  : list (nat * callback * Z) :=
  foldl (fun ts kv => filter (fun t => t.1.1 ≠ kv.2) ts) ts tos.

Definition throws (r : result) : bool :=
  match r with Throws _ _ => true | Ok _ => false end.

(** The state in which [pingHosts] throws on a host list with a null. *)
Definition null_cycle (hostList : list (option string)) (st : state) : state :=
  set_trace (rev (List.map testHost (hosts_before_null hostList)) ++
             Log Debug (MPing (List.map (default "") hostList)) :: trace st) st.

(** What a configuration call that throws may have assigned before. *)
Definition options_assigned (st st' : state) : Prop :=
  st' = st \/
  (exists n, st' = set_pingFailureMax n st) \/
  (exists n, st' = set_pingFrequency n st) \/
  (exists n k, st' = set_pingFrequency k (set_pingFailureMax n st)).

(** The exit hooks called so far, oldest first. *)
Definition hook_calls (st : state) : list jsval :=
  omap (fun c => match c with CHook h => Some h | _ => None end) (closer_calls st).

(** The delay of the timer scheduled last. *)
Definition last_delay (st : state) : option Z :=
  (fun t => t.2) <$> last (timers st).

(** ** Concrete scenarios *)

(** The text up to the first slash, question mark or hash. *)
Fixpoint host_part (s : string) : string :=
  match s with
  | EmptyString => EmptyString
  | String a s' =>
      if Ascii.eqb a "/" || Ascii.eqb a "?" || Ascii.eqb a "#" then EmptyString
      else String a (host_part s')
  end.

(** [url.parse(u).host] for the examples.  On http://host:port/path with a
    lower-case host and no credentials it is the host with its port; on a
    text with no scheme, such as a bare word, it is null; an argument that
    is not a string makes [url.parse] throw a TypeError (its text depends on
    the version of Node, this is one).  The examples use only such
    arguments; any other text is answered null here. *)
Definition http_host (u : jsval) : parsed_host :=
  match u with
  | JStr s =>
      match s with
      | String "h" (String "t" (String "t" (String "p" (String ":" (String "/"
          (String "/" rest)))))) =>
          HostIs (if String.eqb (host_part rest) "" then None else Some (host_part rest))
      | _ => HostIs None
      end
  | _ => HostThrows "The url argument must be of type string"
  end.

(** An environment for the examples: the database defaults are absent,
    [getKnexObject] returns a pool, [listen] always returns a server. *)
Definition sample_env : env :=
  Env http_host JUndefined JUndefined (JObj []) (fun _ _ => None).

(** The same, except that [getKnexObject] returns undefined. *)
Definition no_pool_env : env :=
  Env http_host JUndefined JUndefined JUndefined (fun _ _ => None).

(** Two URLs, whose hosts are a:1 and b:2, and a ceiling of 2 failures; a:1
    refuses every connection. *)
Definition ping_scenario : list input :=
  [ Invoke (Ping (JArr [JStr "http://a:1/"; JStr "http://b:2/"])
              (Some (Options JUndefined JUndefined (Some 2%Z) (Some 1000%Z))));
    Happen (EvTimer 0);
    Happen (EvSettle 0 (ping_outcome [("b:2", true); ("a:1", false)]));
    Happen (EvTimer 0);
    Happen (EvSettle 0 (ping_outcome [("a:1", false); ("b:2", true)]));
    Happen (EvTimer 0);
    Happen (EvSettle 0 (ping_outcome [("b:2", true); ("a:1", false)])) ].

(** ** Frames and invariants *)

(** Whether calling a stored closure gets as far as returning its promise
    (only the listener's can throw before that). *)
Definition starts_ok (e : env) (a : action) : bool :=
  match a with
  | AExpress expressApp port =>
      is_function expressApp && bool_decide (listen e expressApp port = None)
  | _ => true
  end.

(** Every name has a closure, and every closure gets to return its promise. *)
Definition startable (e : env) (registry : gmap string action) (names : list string)
  : bool :=
  forallb (fun n => match registry !! n with
                    | Some a => starts_ok e a
                    | None => false
                    end) names.

(** No startup sequence is waiting for an action. *)
Definition no_startup_pending (st : state) : Prop :=
  Forall (fun p => is_startup_op p = false) (pending st).

(** [st1] differs from [st] by nothing that the startup properties observe. *)
Definition same_obs (st st1 : state) : Prop :=
  exited st1 = exited st /\
  pending st1 = pending st /\
  promises st1 = promises st /\
  timers st1 = timers st /\
  waitingForExit st1 = waitingForExit st /\
  teardown_runs st1 = teardown_runs st /\
  closer_calls st1 = closer_calls st /\
  announced st1 = announced st.

(** What a startup sequence may have done between [st] and [st']: it called
    no teardown closure, ran no shutdown, touched no timer, and either left
    the process alive or ended it with status 1. *)
Definition startup_only (st st' : state) : Prop :=
  teardown_runs st' = teardown_runs st /\
  closer_calls st' = closer_calls st /\
  timers st' = timers st /\
  (exited st' = None \/ exited st' = Some 1%Z).

(** Everything a startup sequence leaves alone between [st] and [st']. *)
Definition startup_frame (e : env) (st st' : state) : Prop :=
  timers st' = timers st /\
  timeouts st' = timeouts st /\
  teardowns st' = teardowns st /\
  knexObject st' = knexObject st /\
  onExitPromise st' = onExitPromise st /\
  (waitingForExit st = true -> waitingForExit st' = true) /\
  teardown_runs st' = teardown_runs st /\
  closer_calls st' = closer_calls st /\
  queries st' = queries st /\
  List.filter is_probe (pending st') = List.filter is_probe (pending st) /\
  (exited st' = exited st \/ exited st' = Some 1%Z) /\
  existsb is_dbinit (trace st') = existsb is_dbinit (trace st) /\
  (httpServer st = existsb (is_listening e) (trace st) ->
   httpServer st' = existsb (is_listening e) (trace st')).

(** What holds of [st'] when the latch was already set in [st]. *)
Definition after_latch (st st' : state) : Prop :=
  waitingForExit st' = true /\
  teardown_runs st' = teardown_runs st /\
  closer_calls st' = closer_calls st.


(** The two resource handles agree with what the trace shows: the pool
    handle is set exactly when [dbLoader.init] was called and
    [getKnexObject] returned a pool, the server handle exactly when a
    listener action obtained one. *)
Definition resources_match (e : env) (st : state) : Prop :=
  knexObject st = existsb is_dbinit (trace st) && truthy (getKnexObject e) /\
  httpServer st = existsb (is_listening e) (trace st).

(** No teardown closure is waiting to settle. *)
Definition no_close_pending (st : state) : Prop :=
  Forall (fun p => is_close_op p = false) (pending st).

(** Teardown number [td], started for [reason], is undecided and waits for
    [k] closures, the only teardown closures pending. *)
Definition closing (td : nat) (reason : string) (k : nat) (st : state) : Prop :=
  exited st = None /\
  teardowns st !! td = Some (Teardown reason k false) /\
  length (List.filter is_close_op (pending st)) = k /\
  Forall (fun p => match p with PClose td' _ => td' = td | _ => True end) (pending st).

(** Teardown number [td] has already been decided by a rejection; whatever
    closures are still pending belong to it. *)
Definition torn (td : nat) (st : state) : Prop :=
  exited st = None /\
  (exists t, teardowns st !! td = Some t /\ td_settled t = true) /\
  Forall (fun p => match p with PClose td' _ => td' = td | _ => True end) (pending st).

(** Either the process is gone, or the latch is set and the exit timeout is
    still pending. *)
Definition armed_or_exited (st : state) : Prop :=
  exited st <> None \/ (waitingForExit st = true /\ deadline_armed st).

(** No database check loop is alive: no probe in flight, no timer that would
    call [checkDb]. *)
Definition db_idle (st : state) : Prop :=
  Forall (fun p => is_probe p = false) (pending st) /\
  Forall (fun t => is_db_callback t = false) (timers st).

(** Exactly one database check loop is alive, and it is waiting for the
    answer to its probe. *)
Definition probing (st : state) : Prop :=
  exited st = None /\
  knexObject st = true /\
  (exists l1 l2, pending st = l1 ++ PProbe :: l2 /\
                 Forall (fun p => is_probe p = false) l1 /\
                 Forall (fun p => is_probe p = false) l2) /\
  Forall (fun t => is_db_callback t = false) (timers st).

(** How many times the database monitor gave up. *)
Definition escalations (st : state) : nat :=
  length (List.filter (fun x => match x with Log Error (MDbError _) => true | _ => false end)
            (trace st)).

(** The database is configured with a ceiling of 2 failures and the first
    check has just sent its probe. *)
Definition db_scenario : state :=
  run sample_env
    [ Invoke (Db (Some (Options JUndefined JUndefined (Some 2%Z) None)));
      Happen (EvTimer 0) ]
    serviceLoader.

(** ** Further notions: addresses, configuration, timer handles, the ping loop *)

(** [c] occurs in [s]. *)
Fixpoint has_char (c : ascii) (s : string) : bool :=
  match s with
  | EmptyString => false
  | String a s' => Ascii.eqb a c || has_char c s'
  end.

(** Everything the chain methods configure is the same in [st'] as in [st]. *)
Definition configuration_kept (st st' : state) : Prop :=
  promiseOrder st' = promiseOrder st /\
  promises st' = promises st /\
  countCustom st' = countCustom st /\
  knexObject st' = knexObject st /\
  onExitPromise st' = onExitPromise st /\
  dbFailureMax st' = dbFailureMax st /\
  dbFrequency st' = dbFrequency st /\
  pingFailureMax st' = pingFailureMax st /\
  pingFrequency st' = pingFrequency st.

(** Inputs that configure something: every call on the chain but [done]. *)
Definition configures (i : input) : bool :=
  match i with
  | Invoke (Done _) => false
  | Invoke _ => true
  | Happen _ => false
  end.

(** Every name [done] will go through has a closure. *)
Definition registered (st : state) : Prop :=
  Forall (fun n => is_Some (promises st !! n)) (promiseOrder st).

(** The names [then] has yet to hand out are unused. *)
Definition custom_fresh (st : state) : Prop :=
  forall k, countCustom st <= k ->
    ("custom" +:+ pretty k ∉ promiseOrder st) /\
    promises st !! ("custom" +:+ pretty k) = None.

(** Every handle kept in [timeouts] was returned by an earlier [setTimeout]. *)
Definition handles_issued (st : state) : Prop :=
  Forall (fun kv : string * nat => kv.2 < nextTimer st) (timeouts st).

(** [knexObject] holds what [dbLoader.getKnexObject()] returned, or no
    database check is under way. *)
Definition pool_or_idle (e : env) (st : state) : Prop :=
  knexObject st = truthy (getKnexObject e) \/ db_idle st.

Definition is_retry (t : nat * callback * Z) : bool :=
  match t.1.2 with CbRetryCheckDb => true | _ => false end.

(** No probe is in flight and no backoff retry of the check is scheduled. *)
Definition unprobed (st : state) : Prop :=
  Forall (fun p => is_probe p = false) (pending st) /\
  Forall (fun t => is_retry t = false) (timers st).

(** If the process ended with status 0, the last two things it logged are
    that everything is closed and that it exits for a reason starting with
    SIG. *)
Definition clean_exit (st : state) : Prop :=
  exited st = Some 0%Z ->
  exists signal rest,
    String.prefix "SIG" signal = true /\
    trace st = Log Info (MKilled signal) :: Log Info MAllClosed :: rest.

(** What a startup sequence that announced [names] and started [acts] has
    changed between [st] and [st1]. *)
Definition startup_progress (names : list string) (acts : list action) (st st1 : state)
  : Prop :=
  exited st1 = exited st /\
  pending st1 = pending st /\
  promises st1 = promises st /\
  timers st1 = timers st /\
  waitingForExit st1 = waitingForExit st /\
  teardown_runs st1 = teardown_runs st /\
  closer_calls st1 = closer_calls st /\
  announced st1 = announced st ++ names /\
  started st1 = started st ++ acts.

(** A successful probe followed by the next periodic check firing. *)
Definition db_success (e : env) (st : state) : state :=
  fire_first e is_db_callback (settle_first e is_probe Resolved st).

Definition is_ping (p : pending_op) : bool :=
  match p with PPing _ => true | _ => false end.

Definition is_ping_callback (t : nat * callback * Z) : bool :=
  match t.1.2 with CbPingHosts _ | CbInitialPingHosts _ => true | _ => false end.

(** One failed ping cycle followed, when a retry was scheduled, by the retry
    timer firing (which opens the connections of the next cycle). *)
Definition ping_failure (e : env) (err : string) (st : state) : state :=
  fire_first e is_ping_callback (settle_first e is_ping (Rejected err) st).

(** No ping loop is alive: no cycle in flight, no timer that would call
    [pingHosts]. *)
Definition ping_idle (st : state) : Prop :=
  Forall (fun p => is_ping p = false) (pending st) /\
  Forall (fun t => is_ping_callback t = false) (timers st).

(** Exactly one ping loop is alive, over [hostList], and it is waiting for
    the outcome of its cycle. *)
Definition pinging (hostList : list string) (st : state) : Prop :=
  exited st = None /\
  (exists l1 l2, pending st = l1 ++ PPing hostList :: l2 /\
                 Forall (fun p => is_ping p = false) l1 /\
                 Forall (fun p => is_ping p = false) l2) /\
  Forall (fun t => is_ping_callback t = false) (timers st).

(** How many times the ping monitor gave up. *)
Definition ping_escalations (st : state) : nat :=
  length (List.filter (fun x => match x with Log Error (MPingError _) => true | _ => false end)
            (trace st)).

(** How many ping cycles were started. *)
Definition ping_cycles (st : state) : nat :=
  length (List.filter (fun x => match x with Log Debug (MPing _) => true | _ => false end)
            (trace st)).

(** * Properties *)

(** ** The model on small inputs *)

Example exit_code_signals :
  List.map exit_code ["SIGINT"; "SIGTERM"; "SIGQUIT"; "uncaughtException"; "NODB"; "FORCE"]
  = [0; 0; 0; 1; 1; 1]%Z.
Proof. reflexivity. Qed.

Example testHost_default_port :
  List.map testHost ["a:1"; "b"; "c:"] = [Connect "1" "a"; Connect "80" "b"; Connect "80" "c"].
Proof. reflexivity. Qed.

Example uniqueValues_keeps_first : uniqueValues ["a:1"; "b:2"; "a:1"] = ["a:1"; "b:2"].
Proof. reflexivity. Qed.

Example render_retry :
  render (MPingRetry "a:1" 3 6) = "Unable to ping a:1 - 3 attempts - retying in 6s...".
Proof. reflexivity. Qed.

Example custom_names :
  promiseOrder (run sample_env [Invoke (Then (JFun "f")); Invoke (Then (JFun "g"))]
                  serviceLoader)
  = ["custom1"; "custom2"].
Proof. reflexivity. Qed.

Example shutdown_before_any_check :
  let st := run sample_env
              [ Invoke (Db None); Invoke (Express (JFun "app") JUndefined);
                Invoke (Done JUndefined);
                Happen (EvSettle 0 Resolved);
                Happen (EvSignal "SIGTERM" None);
                Happen (EvSettle 0 Resolved); Happen (EvSettle 0 Resolved);
                Happen (EvSettle 0 Resolved) ]
              serviceLoader in
  closer_calls st = [CDb; CAmq; CHttp] /\ timers st = [(1, CbForceExit, 10000%Z)] /\
  exited st = Some 0%Z.
Proof. repeat split. Qed.

(** ** Normal forms of the loops inside the handlers *)

Lemma foldl_emit {A} (f : A -> effect) (l : list A) st :
  foldl (fun s a => emit (f a) s) st l = set_trace (rev (List.map f l) ++ trace st) st.
Proof.
  revert st. induction l as [|a l IH]; intros st; simpl.
  - by destruct st.
  - rewrite IH. simpl. rewrite <- app_assoc. reflexivity.
Qed.

Lemma foldl_clearTimeout tos st :
  foldl (fun s kv => clearTimeout kv.2 s) st tos = set_timers (cleared tos (timers st)) st.
Proof.
  revert st. induction tos as [|kv tos IH]; intros st; simpl.
  - by destruct st.
  - rewrite IH. reflexivity.
Qed.

Lemma foldl_call_closer td actions st :
  foldl (call_closer td) st actions =
  set_pending (pending st ++ List.map (PClose td) actions)
    (set_trace (rev (List.map Call actions) ++ trace st) st).
Proof.
  revert st. induction actions as [|c actions IH]; intros st; simpl.
  - rewrite app_nil_r. by destruct st.
  - rewrite IH. simpl. rewrite <- !app_assoc. reflexivity.
Qed.

Lemma closeGracefully_latched signal st :
  waitingForExit st = true -> closeGracefully signal st = st.
Proof. intros H. unfold closeGracefully. by rewrite H. Qed.

Lemma closeGracefully_first signal st :
  waitingForExit st = false ->
  closeGracefully signal st =
  set_nextTimer (S (nextTimer st))
    (set_timers (cleared (timeouts st) (timers st) ++ [(nextTimer st, CbForceExit, 10000%Z)])
    (set_teardowns
       (teardowns st ++ [Teardown signal (length (teardown_actions st)) false])
    (set_pending
       (pending st ++ List.map (PClose (length (teardowns st))) (teardown_actions st))
    (set_trace
       (rev (List.map Call (teardown_actions st)) ++
        (if bool_decide (timeouts st ≠ []) then [Log Info MTimeoutsCleared] else []) ++
        Log Info (MShutdown signal) :: trace st) st)))).
Proof.
  intros H. unfold closeGracefully. rewrite H. cbv zeta.
  assert (Hlog : forall st0 : state,
    (if bool_decide (timeouts st0 ≠ []) then log Info MTimeoutsCleared st0 else st0) =
    set_trace ((if bool_decide (timeouts st0 ≠ []) then [Log Info MTimeoutsCleared] else [])
               ++ trace st0) st0).
  { intros st0. destruct (bool_decide _); [reflexivity | by destruct st0]. }
  rewrite Hlog, foldl_clearTimeout, foldl_call_closer. simpl.
  unfold teardown_actions at 1. simpl.
  destruct (knexObject st), (httpServer st), (truthy (onExitPromise st));
    simpl; rewrite <- ?app_assoc; reflexivity.
Qed.

Lemma pingHosts_eq hostList st :
  pingHosts hostList st =
  set_pending (pending st ++ [PPing hostList])
    (set_trace (rev (List.map testHost hostList) ++ Log Debug (MPing hostList) :: trace st)
       st).
Proof. unfold pingHosts. cbv zeta. rewrite foldl_emit. reflexivity. Qed.

Lemma pingHosts_call_eq hostList st :
  pingHosts_call hostList st =
  match all_hosts hostList with
  | Some hl => Ok (pingHosts hl st)
  | None => Throws split_of_null (null_cycle hostList st)
  end.
Proof.
  unfold pingHosts_call, null_cycle. destruct (all_hosts hostList); [done|].
  cbv zeta. rewrite foldl_emit. reflexivity.
Qed.

(** A configuration call that throws has at most assigned the ping options. *)
Lemma apply_call_throws e c st m st' :
  apply_call e c st = Throws m st' -> options_assigned st st'.
Proof.
  unfold options_assigned.
  destruct c as [u o|u|o|app port|o|prm|prm|cb]; simpl; try discriminate.
  - unfold chain_ping. destruct (negb (truthy u) || negb (isArray u)).
    { intros [= _ <-]. by left. }
    destruct (parse_hosts e _) as [m'|hosts]; [|discriminate].
    intros [= _ <-].
    destruct (truthy_num o failureMax), (truthy_num o frequency); eauto 10.
  - unfold chain_cache. destruct (negb (truthy u)); [|discriminate].
    intros [= _ <-]. by left.
  - unfold chain_express. destruct (negb (truthy app)); [|discriminate].
    intros [= _ <-]. by left.
Qed.

Ltac thrown Hc :=
  destruct (apply_call_throws _ _ _ _ _ Hc) as [->|[[? ->]|[[? ->]|[? [? ->]]]]].
(** ** Reading the trace *)

Lemma omap_call_map (l : list closer) :
  omap (fun x => match x with Call c => Some c | _ => None end) (List.map Call l) = l.
Proof. induction l as [|c l IH]; csimpl; [done | by rewrite IH]. Qed.

Lemma closer_calls_closeGracefully signal st :
  waitingForExit st = false ->
  closer_calls (closeGracefully signal st) = closer_calls st ++ teardown_actions st.
Proof.
  intros H. rewrite closeGracefully_first by done.
  unfold closer_calls, history. simpl.
  rewrite !rev_app_distr, rev_involutive. simpl.
  rewrite !omap_app, omap_call_map.
  destruct (bool_decide _); csimpl; by rewrite ?app_nil_r.
Qed.

Lemma filter_shutdown_calls (l : list closer) :
  List.filter is_shutdown (rev (List.map Call l)) = [].
Proof.
  induction l as [|c l IH]; simpl; [done|].
  rewrite List.filter_app, IH. done.
Qed.

Lemma teardown_runs_closeGracefully signal st :
  waitingForExit st = false ->
  teardown_runs (closeGracefully signal st) = S (teardown_runs st).
Proof.
  intros H. rewrite closeGracefully_first by done.
  unfold teardown_runs. simpl.
  rewrite !List.filter_app, filter_shutdown_calls. simpl.
  destruct (bool_decide _); reflexivity.
Qed.

(** ** Configuration *)

(** C7 (as amended): cache, express and ping reject a missing argument on the
    spot, before anything is changed, with a message naming it (ping also a
    value that is not an array).  The statement also records what the calls
    do otherwise: cache and express accept any truthy argument; ping given
    an array throws exactly if [url.parse] throws on one of its truthy
    entries, with that error and after the options were assigned; [amq]
    never throws and registers its action whatever it is given. *)
Theorem configuration_validation (e : env) (st : state) :
  (forall redisUrl, truthy redisUrl = false ->
     chain_cache redisUrl st = Throws "Missing redisUrl for cache" st) /\
  (forall expressApp portRaw, truthy expressApp = false ->
     chain_express expressApp portRaw st = Throws "Missing expressApp for express" st) /\
  (forall urlList opts, truthy urlList = false \/ isArray urlList = false ->
     chain_ping e urlList opts st = Throws "Missing urlList for ping" st) /\
  (forall redisUrl, truthy redisUrl = true -> throws (chain_cache redisUrl st) = false) /\
  (forall expressApp portRaw, truthy expressApp = true ->
     throws (chain_express expressApp portRaw st) = false) /\
  (forall urlList opts, isArray urlList = true ->
     match parse_hosts e (List.filter truthy (array_items urlList)) with
     | inr _ => throws (chain_ping e urlList opts st) = false
     | inl m =>
         exists st',
           chain_ping e urlList opts st = Throws m st' /\
           pingFailureMax st' = default (pingFailureMax st) (truthy_num opts failureMax) /\
           pingFrequency st' = default (pingFrequency st) (truthy_num opts frequency) /\
           timers st' = timers st /\ timeouts st' = timeouts st
     end) /\
  (forall opts,
     throws (chain_amq opts st) = false /\
     exists st', chain_amq opts st = Ok st' /\
                 promiseOrder st' = promiseOrder st ++ ["amq"] /\
                 promises st' !! "amq" = Some (AAmq opts)).
Proof.
  split; [|split; [|split; [|split; [|split; [|split]]]]].
  - intros v Hv. unfold chain_cache. by rewrite Hv.
  - intros v p Hv. unfold chain_express. by rewrite Hv.
  - intros u o [Hu|Hu]; unfold chain_ping; rewrite Hu; simpl; [done|].
    by rewrite orb_true_r.
  - intros v Hv. unfold chain_cache. by rewrite Hv.
  - intros v p Hv. unfold chain_express. by rewrite Hv.
  - intros u o Hu. unfold chain_ping.
    assert (Ht : truthy u = true) by (by destruct u).
    rewrite Ht, Hu. simpl.
    destruct (parse_hosts e _) as [m|hosts]; [|done].
    eexists. split; [reflexivity|].
    by destruct (truthy_num o failureMax), (truthy_num o frequency).
  - intros o. split; [reflexivity|]. eexists. split; [reflexivity|].
    split; [reflexivity|]. simpl. apply lookup_insert_eq.
Qed.

Lemma configuration_validation_witness :
  chain_cache (JStr "") serviceLoader = Throws "Missing redisUrl for cache" serviceLoader /\
  chain_express JUndefined (JNum 8080) serviceLoader
    = Throws "Missing expressApp for express" serviceLoader /\
  chain_ping sample_env (JStr "http://a:1/") None serviceLoader
    = Throws "Missing urlList for ping" serviceLoader /\
  throws (chain_cache (JStr "redis://h") serviceLoader) = false /\
  (exists st',
     chain_ping sample_env (JArr [JNum 5])
       (Some (Options JUndefined JUndefined (Some 3%Z) None)) serviceLoader
       = Throws "The url argument must be of type string" st' /\
     pingFailureMax st' = 3%Z) /\
  throws (chain_amq JUndefined serviceLoader) = false.
Proof.
  destruct (configuration_validation sample_env serviceLoader)
    as (H1 & H2 & H3 & H4 & _ & H6 & H7).
  split; [exact (H1 (JStr "") eq_refl)|].
  split; [exact (H2 JUndefined (JNum 8080) eq_refl)|].
  split; [exact (H3 (JStr "http://a:1/") None (or_intror eq_refl))|].
  split; [exact (H4 (JStr "redis://h") eq_refl)|].
  split; [|exact (proj1 (H7 JUndefined))].
  destruct (H6 (JArr [JNum 5]) (Some (Options JUndefined JUndefined (Some 3%Z) None))
              eq_refl) as (st' & E & F & _).
  exists st'. split; [exact E | exact F].
Defined.

(** C7 as stated fails: configured without options, [amq] does not throw and
    registers its action; and an app factory that is not a function, or a
    URL that is no URL, passes configuration. *)
Lemma missing_or_malformed_accepted :
  throws (chain_amq JUndefined serviceLoader) = false /\
  (exists st', chain_amq JUndefined serviceLoader = Ok st' /\
               promiseOrder st' = ["amq"] /\
               promises st' !! "amq" = Some (AAmq JUndefined)) /\
  throws (chain_express (JNum 5) JUndefined serviceLoader) = false /\
  throws (chain_cache (JStr "not a url") serviceLoader) = false.
Proof.
  split; [reflexivity|]. split; [|split; reflexivity].
  eexists. split; [reflexivity|]. split; reflexivity.
Qed.

(** C8 (as amended): [chain.db] registers no startup action; the call itself
    initialises the pool, keeps the handle [getKnexObject] returns and arms
    the first check, 10 s after the call. *)
Theorem db_configured_immediately (e : env) (opts : option options) (st : state) :
  exists st',
    chain_db e opts st = Ok st' /\
    promiseOrder st' = promiseOrder st /\
    promises st' = promises st /\
    knexObject st' = truthy (getKnexObject e) /\
    trace st' =
      DbInit (field_or opts pgUrl (dbConfig_pgUrl e))
             (field_or opts pgDatabase (dbConfig_pgDatabase e))
      :: Log Debug MLoadDb :: trace st /\
    timers st' = timers st ++ [(nextTimer st, CbCheckDb, 10000%Z)] /\
    timeouts st' = obj_set "initialCheckDb" (nextTimer st) (timeouts st) /\
    pending st' = pending st.
Proof.
  eexists. split; [reflexivity|].
  unfold chain_db.
  destruct (truthy_num opts failureMax), (truthy_num opts frequency); simpl;
    repeat split; reflexivity.
Qed.

(** C8 as stated fails: after [db()] alone nothing is registered with the
    sequencer, yet the first check is armed and, left to fire, sends its
    probe although [done] never ran. *)
Lemma db_registers_no_startup_action :
  exists st',
    chain_db sample_env None serviceLoader = Ok st' /\
    promiseOrder st' = [] /\
    promises st' = ∅ /\
    timers st' = [(0, CbCheckDb, 10000%Z)] /\
    history st' = [Log Debug MLoadDb; DbInit JUndefined JUndefined] /\
    history (step sample_env (EvTimer 0) st') =
      [Log Debug MLoadDb; DbInit JUndefined JUndefined; Log Debug MCheckDb; Query].
Proof. eexists. repeat split. Qed.

(** ** Exit hook *)

Lemma run_app e ins1 ins2 st : run e (ins1 ++ ins2) st = run e ins2 (run e ins1 st).
Proof. unfold run. apply foldl_app. Qed.

Lemma run_onExit e (hooks : list jsval) st :
  exited st = None ->
  run e (List.map (fun p => Invoke (OnExit p)) hooks) st =
  match last hooks with
  | Some h => set_onExitPromise h st
  | None => st
  end.
Proof.
  intros Hex. induction hooks as [|h hooks IH] using rev_ind; [done|].
  rewrite List.map_app, run_app, IH, last_snoc. simpl.
  destruct (last hooks); simpl; rewrite Hex; reflexivity.
Qed.

(** C10: whatever hooks were registered before, only the one given to the
    latest [onExit] is kept, and it is the only hook the first shutdown
    calls (none when that latest value is falsy). *)
Theorem onExit_last_write_wins (e : env) (st : state) (hooks : list jsval) (h : jsval)
    (signal : string) :
  exited st = None ->
  waitingForExit st = false ->
  let st' := run e (List.map (fun p => Invoke (OnExit p)) (hooks ++ [h])) st in
  onExitPromise st' = h /\
  hook_calls (closeGracefully signal st') =
    hook_calls st ++ (if truthy h then [h] else []).
Proof.
  intros Hex Hw st'. subst st'. rewrite run_onExit by done. rewrite last_snoc.
  split; [reflexivity|].
  unfold hook_calls. rewrite closer_calls_closeGracefully by done.
  rewrite omap_app. f_equal.
  unfold teardown_actions. simpl.
  destruct (knexObject st), (httpServer st), (truthy h); reflexivity.
Qed.

Lemma onExit_last_write_wins_witness :
  let st' := run sample_env
               (List.map (fun p => Invoke (OnExit p))
                  ([JFun "first"; JFun "second"] ++ [JFun "third"]))
               serviceLoader in
  onExitPromise st' = JFun "third" /\
  hook_calls (closeGracefully "SIGTERM" st') = hook_calls serviceLoader ++ [JFun "third"].
Proof.
  apply (onExit_last_write_wins sample_env serviceLoader [JFun "first"; JFun "second"]
           (JFun "third") "SIGTERM"); reflexivity.
Defined.

(** ** Backoff *)

(** C9: a failed check below the ceiling adds one to the failure count and
    retries after 2000 ms times the new count, so the delay never shrinks
    while the count grows; a successful check puts the count back to 0 and
    schedules the next check after the base frequency.  Both monitors. *)
Theorem backoff_linear_and_reset :
  (forall err st,
     (dbFailureCount st < dbFailureMax st)%Z ->
     dbFailureCount (checkDb_catch err st) = (dbFailureCount st + 1)%Z /\
     timers (checkDb_catch err st) =
       timers st ++ [(nextTimer st, CbRetryCheckDb, (2000 * (dbFailureCount st + 1))%Z)]) /\
  (forall hostList err st,
     (pingFailureCount st < pingFailureMax st)%Z ->
     pingFailureCount (pingHosts_catch hostList err st) = (pingFailureCount st + 1)%Z /\
     timers (pingHosts_catch hostList err st) =
       timers st ++
       [(nextTimer st, CbPingHosts hostList, (2000 * (pingFailureCount st + 1))%Z)]) /\
  (forall err1 err2 st1 st2,
     (dbFailureCount st1 < dbFailureMax st1)%Z ->
     (dbFailureCount st2 < dbFailureMax st2)%Z ->
     (dbFailureCount st1 <= dbFailureCount st2)%Z ->
     exists d1 d2,
       last_delay (checkDb_catch err1 st1) = Some d1 /\
       last_delay (checkDb_catch err2 st2) = Some d2 /\ (d1 <= d2)%Z) /\
  (forall hostList err1 err2 st1 st2,
     (pingFailureCount st1 < pingFailureMax st1)%Z ->
     (pingFailureCount st2 < pingFailureMax st2)%Z ->
     (pingFailureCount st1 <= pingFailureCount st2)%Z ->
     exists d1 d2,
       last_delay (pingHosts_catch hostList err1 st1) = Some d1 /\
       last_delay (pingHosts_catch hostList err2 st2) = Some d2 /\ (d1 <= d2)%Z) /\
  (forall st,
     dbFailureCount (checkDb_then st) = 0%Z /\
     timers (checkDb_then st) = timers st ++ [(nextTimer st, CbCheckDb, dbFrequency st)]) /\
  (forall hostList st,
     pingFailureCount (pingHosts_then hostList st) = 0%Z /\
     timers (pingHosts_then hostList st) =
       timers st ++ [(nextTimer st, CbPingHosts hostList, pingFrequency st)]).
Proof.
  assert (Hdb : forall err st,
     (dbFailureCount st < dbFailureMax st)%Z ->
     dbFailureCount (checkDb_catch err st) = (dbFailureCount st + 1)%Z /\
     timers (checkDb_catch err st) =
       timers st ++ [(nextTimer st, CbRetryCheckDb, (2000 * (dbFailureCount st + 1))%Z)]).
  { intros err st H. unfold checkDb_catch.
    apply Z.ltb_lt in H. rewrite H. split; reflexivity. }
  assert (Hping : forall hostList err st,
     (pingFailureCount st < pingFailureMax st)%Z ->
     pingFailureCount (pingHosts_catch hostList err st) = (pingFailureCount st + 1)%Z /\
     timers (pingHosts_catch hostList err st) =
       timers st ++
       [(nextTimer st, CbPingHosts hostList, (2000 * (pingFailureCount st + 1))%Z)]).
  { intros hl err st H. unfold pingHosts_catch.
    apply Z.ltb_lt in H. rewrite H. split; reflexivity. }
  split; [exact Hdb|]. split; [exact Hping|].
  split; [|split; [|split]].
  - intros err1 err2 st1 st2 H1 H2 Hle.
    destruct (Hdb err1 st1 H1) as [_ E1]. destruct (Hdb err2 st2 H2) as [_ E2].
    eexists _, _. unfold last_delay. rewrite E1, E2, !last_snoc. simpl.
    split; [reflexivity|]. split; [reflexivity|]. lia.
  - intros hl err1 err2 st1 st2 H1 H2 Hle.
    destruct (Hping hl err1 st1 H1) as [_ E1]. destruct (Hping hl err2 st2 H2) as [_ E2].
    eexists _, _. unfold last_delay. rewrite E1, E2, !last_snoc. simpl.
    split; [reflexivity|]. split; [reflexivity|]. lia.
  - intros st. unfold checkDb_then. simpl. destruct (dbFailing st); split; reflexivity.
  - intros hl st. unfold pingHosts_then. simpl.
    destruct (pingFailing st) as [h|]; [destruct (String.eqb h "")|]; split; reflexivity.
Qed.

Lemma backoff_linear_and_reset_witness :
  dbFailureCount (checkDb_catch "down" serviceLoader) = 1%Z /\
  timers (checkDb_catch "down" serviceLoader) = [(0, CbRetryCheckDb, 2000%Z)].
Proof.
  apply (proj1 backoff_linear_and_reset "down" serviceLoader). reflexivity.
Defined.

(** ** One ping cycle *)

Lemma string_app_nil_r (s : string) : s +:+ "" = s.
Proof.
  induction s as [|a s IH]; [reflexivity|].
  change (String a (s +:+ "") = String a s). by rewrite IH.
Qed.

Lemma ping_outcome_first_failure (oks rest : list (string * bool)) (addr : string) :
  Forall (fun x => x.2 = true) oks ->
  ping_outcome (oks ++ (addr, false) :: rest) = Rejected addr.
Proof.
  intros Hok. unfold ping_outcome.
  induction Hok as [|[a b] oks Hb _ IH]; simpl.
  - reflexivity.
  - simpl in Hb. subst b. simpl.
    destruct (list_find _ (oks ++ _)) as [[i [a' b']]|]; simpl in *; congruence.
Qed.

(** C6 (as amended): however many targets the cycle has, a cycle in which a
    target fails counts once.  Below the ceiling the failure count grows by
    exactly 1, the failing address is remembered and named in the warning.
    At the ceiling the count stays, the error log names the address, and
    [closeGracefully] is called with the fixed reason NOHOST. *)
Theorem ping_cycle_failure (e : env) (hostList : list string)
    (oks rest : list (string * bool)) (addr : string) (st : state) :
  Forall (fun x => x.2 = true) oks ->
  let r := ping_outcome (oks ++ (addr, false) :: rest) in
  let st' := settle e (PPing hostList) r st in
  r = Rejected addr /\
  if (pingFailureCount st <? pingFailureMax st)%Z
  then
    pingFailureCount st' = (pingFailureCount st + 1)%Z /\
    pingFailing st' = Some addr /\
    (exists m, trace st' = Log Warn m :: trace st /\ mentions (render m) addr) /\
    teardown_runs st' = teardown_runs st
  else
    pingFailureCount st' = pingFailureCount st /\
    (exists m, st' = set_waitingForExit true
                       (closeGracefully "NOHOST" (log Error m st)) /\
               mentions (render m) addr) /\
    (waitingForExit st = false ->
     last (teardowns st') = Some (Teardown "NOHOST" (length (teardown_actions st)) false) /\
     teardown_runs st' = S (teardown_runs st)).
Proof.
  intros Hok r st'. subst r st'.
  rewrite ping_outcome_first_failure by done. split; [reflexivity|].
  simpl. unfold pingHosts_catch.
  destruct (pingFailureCount st <? pingFailureMax st)%Z eqn:Hlt.
  - repeat split.
    eexists. split; [reflexivity|]. eexists _, _. reflexivity.
  - split; [|split].
    + destruct (waitingForExit st) eqn:Hw.
      * rewrite closeGracefully_latched by done. reflexivity.
      * rewrite closeGracefully_first by done. reflexivity.
    + eexists. split; [reflexivity|]. exists "Error connecting to ", "".
      simpl. by rewrite string_app_nil_r.
    + intros Hw. split.
      * rewrite closeGracefully_first by done. simpl. by rewrite last_snoc.
      * change (teardown_runs (closeGracefully "NOHOST" (log Error (MPingError addr) st))
                = S (teardown_runs st)).
        by rewrite teardown_runs_closeGracefully.
Qed.

Lemma ping_cycle_failure_witness :
  exists st',
    st' = settle sample_env (PPing ["a:1"; "b:2"; "c:3"])
            (ping_outcome ([("b:2", true)] ++ ("a:1", false) :: [("c:3", false)]))
            serviceLoader /\
    pingFailureCount st' = 1%Z /\
    pingFailing st' = Some "a:1" /\
    teardown_runs st' = teardown_runs serviceLoader.
Proof.
  eexists. split; [reflexivity|].
  pose proof (ping_cycle_failure sample_env ["a:1"; "b:2"; "c:3"] [("b:2", true)]
                [("c:3", false)] "a:1" serviceLoader) as H.
  destruct H as (_ & H1 & H2 & _ & H3); [repeat constructor|].
  exact (conj H1 (conj H2 H3)).
Defined.

Lemma not_mentions_NOHOST : ~ mentions "NOHOST" "a:1".
Proof.
  intros (pre & post & H).
  repeat (destruct pre as [|? pre]; [discriminate H | injection H as _ H]).
  destruct pre; discriminate H.
Qed.

(** C6 as stated fails at the escalation: with the URLs http://a:1/ and
    http://b:2/, which give the targets a:1 and b:2, with a:1 unreachable
    and a ceiling of 2, the third failed cycle escalates, and the reason
    logged and kept with the teardown is NOHOST, which does not name a:1. *)
Lemma ping_escalation_reason_fixed :
  let st := run sample_env ping_scenario serviceLoader in
  parse_hosts sample_env [JStr "http://a:1/"; JStr "http://b:2/"]
    = inr [Some "a:1"; Some "b:2"] /\
  pingFailing st = Some "a:1" /\
  pingFailureCount st = 2%Z /\
  List.filter is_shutdown (trace st) = [Log Info (MShutdown "NOHOST")] /\
  teardowns st = [Teardown "NOHOST" 1 false] /\
  ~ mentions "NOHOST" "a:1".
Proof.
  repeat split; try reflexivity. exact not_mentions_NOHOST.
Qed.
(** ** Startup *)

Lemma announced_emit x st :
  announced (emit x st) =
  announced st ++ match x with Log Debug (MRunning n) => [n] | _ => [] end.
Proof.
  unfold announced, history. simpl. rewrite omap_app. f_equal.
  by destruct x as [[] []| | | | | |].
Qed.

Lemma closer_calls_emit x st :
  closer_calls (emit x st) = closer_calls st ++ match x with Call c => [c] | _ => [] end.
Proof.
  unfold closer_calls, history. simpl. rewrite omap_app. f_equal. by destruct x.
Qed.

Lemma teardown_runs_emit x st :
  teardown_runs (emit x st) = (if is_shutdown x then 1 else 0) + teardown_runs st.
Proof. unfold teardown_runs. simpl. by destruct (is_shutdown x). Qed.

Lemma list_find_snoc_fresh {A} (P : A -> Prop) `{forall x, Decision (P x)} (l : list A) x :
  Forall (fun y => ~ P y) l -> P x -> list_find P (l ++ [x]) = Some (length l, x).
Proof.
  intros Hl Hx. induction Hl as [|y l Hy _ IH]; simpl.
  - by rewrite decide_True.
  - rewrite decide_False by done. by rewrite IH.
Qed.

Lemma list_find_none {A} (P : A -> Prop) `{forall x, Decision (P x)} (l : list A) :
  Forall (fun y => ~ P y) l -> list_find P l = None.
Proof.
  intros Hl. induction Hl as [|y l Hy _ IH]; simpl; [done|].
  rewrite decide_False by done. by rewrite IH.
Qed.

Lemma delete_snoc {A} (l : list A) x : delete (length l) (l ++ [x]) = l.
Proof. induction l as [|y l IH]; simpl; [done | by rewrite IH]. Qed.

Lemma no_startup_not st :
  no_startup_pending st -> Forall (fun p => ~ is_startup_op p = true) (pending st).
Proof.
  unfold no_startup_pending. rewrite !Forall_forall.
  intros H p Hp. by rewrite (H p Hp).
Qed.

(** With no other sequence waiting, the action just started is the one the
    next settlement reaches. *)
Lemma settle_first_started e a rest cb r st :
  exited st = None -> no_startup_pending st ->
  settle_first e is_startup_op r (add_pending (PAction a rest cb) st) =
  settle e (PAction a rest cb) r st.
Proof.
  intros Hex Hno. unfold settle_first, add_pending. simpl.
  rewrite (list_find_snoc_fresh _ _ _ (no_startup_not _ Hno)) by done.
  unfold step. simpl. rewrite Hex.
  rewrite lookup_app_r by done. rewrite Nat.sub_diag. simpl.
  rewrite delete_snoc. f_equal. by destruct st.
Qed.

Lemma settle_actions_exited e outs st :
  exited st <> None -> settle_actions e outs st = st.
Proof.
  intros Hex. induction outs as [|r outs IH]; simpl; [done|].
  assert (settle_first e is_startup_op r st = st) as ->; [|exact IH].
  unfold settle_first. destruct (list_find _ _) as [[i p]|]; [|done].
  unfold step. by destruct (exited st).
Qed.

Lemma settle_actions_idle e outs st :
  no_startup_pending st -> settle_actions e outs st = st.
Proof.
  intros Hno. induction outs as [|r outs IH]; simpl; [done|].
  assert (settle_first e is_startup_op r st = st) as ->; [|exact IH].
  unfold settle_first. by rewrite (list_find_none _ _ (no_startup_not _ Hno)).
Qed.

Ltac obs :=
  unfold announced, closer_calls, teardown_runs, started, history; simpl;
  rewrite ?omap_app; csimpl; rewrite ?app_nil_r, <- ?app_assoc.

Lemma settle_actions_cons e r outs st :
  settle_actions e (r :: outs) st = settle_actions e outs (settle_first e is_startup_op r st).
Proof. reflexivity. Qed.

Lemma same_obs_trans st1 st2 st3 : same_obs st1 st2 -> same_obs st2 st3 -> same_obs st1 st3.
Proof.
  unfold same_obs. intros (?&?&?&?&?&?&?&?) (?&?&?&?&?&?&?&?).
  repeat split; congruence.
Qed.

(** Starting an action either leaves it pending or, for a listener whose
    call throws, fails the sequence on the spot. *)
Lemma start_action_cases e a rest cb st :
  exists st1,
    same_obs st st1 /\ started st1 = started st ++ [a] /\
    (start_action e a rest cb st = add_pending (PAction a rest cb) st1 \/
     starts_ok e a = false /\ exists err, start_action e a rest cb st = done_catch err st1).
Proof.
  unfold start_action.
  destruct a as [u|o|app port|prm];
    try (eexists; split; [|split; [|left; reflexivity]]; [repeat split|]; obs; done).
  simpl. destruct (is_function app); simpl.
  - destruct (listen e app port) as [err|] eqn:Hl.
    + eexists; split;
        [|split; [|right; split; [by rewrite bool_decide_false | eexists; reflexivity]]];
        [repeat split|]; obs; done.
    + eexists; split; [|split; [|left; reflexivity]]; [repeat split|]; obs; done.
  - eexists; split; [|split; [|right; split; [done | eexists; reflexivity]]];
      [repeat split|]; obs; done.
Qed.

Lemma settle_resolved_action e a rest cb st :
  exists st2, same_obs st st2 /\ started st2 = started st /\
    settle e (PAction a rest cb) Resolved st = seqPromise e rest cb st2.
Proof.
  simpl. destruct a; simpl; eexists; (split; [|split; [|reflexivity]]);
    [repeat split| |repeat split| |repeat split| |repeat split|]; obs; done.
Qed.

Lemma done_catch_obs err st :
  exited st = None ->
  exited (done_catch err st) = Some 1%Z /\
  waitingForExit (done_catch err st) = true /\
  trace (done_catch err st) = Log Info (MKilled "START") :: Log Error (MErr err) :: trace st /\
  timers (done_catch err st) = timers st /\
  teardown_runs (done_catch err st) = teardown_runs st /\
  closer_calls (done_catch err st) = closer_calls st /\
  announced (done_catch err st) = announced st /\
  started (done_catch err st) = started st.
Proof.
  intros Hex. unfold done_catch, exitProcess, process_exit. simpl. rewrite Hex.
  repeat split; obs; done.
Qed.

Lemma announce_obs n st :
  exited (log Debug (MRunning n) st) = exited st /\
  pending (log Debug (MRunning n) st) = pending st /\
  promises (log Debug (MRunning n) st) = promises st /\
  timers (log Debug (MRunning n) st) = timers st /\
  teardown_runs (log Debug (MRunning n) st) = teardown_runs st /\
  closer_calls (log Debug (MRunning n) st) = closer_calls st /\
  announced (log Debug (MRunning n) st) = announced st ++ [n] /\
  started (log Debug (MRunning n) st) = started st.
Proof. repeat split; obs; done. Qed.

Lemma seq_run_general e cb names : forall outs st,
  exited st = None -> no_startup_pending st ->
  let st' := settle_actions e outs (seqPromise e names cb st) in
  startup_only st st' /\ exists k, announced st' = announced st ++ take k names.
Proof.
  induction names as [|n rest IH]; intros outs st Hex Hno st'; subst st'.
  - simpl. rewrite settle_actions_idle.
    + unfold startup_only, done_then. destruct (truthy cb); simpl;
        (repeat split; [obs; done .. | by left | exists 0; obs; done]).
    + unfold done_then, no_startup_pending. destruct (truthy cb); simpl; [|done].
      apply Forall_app. split; [done | by repeat constructor].
  - simpl.
    destruct (announce_obs n st) as (A1 & A2 & A3 & A4 & A5 & A6 & A7 & A8).
    set (st0 := log Debug (MRunning n) st) in *.
    assert (Hex0 : exited st0 = None) by congruence.
    assert (Hno0 : no_startup_pending st0) by (unfold no_startup_pending; by rewrite A2).
    assert (Hp : promises st0 !! n = promises st !! n) by (by rewrite A3).
    change (promises st !! n) with (promises st0 !! n).
    destruct (promises st0 !! n) as [a|].
    2: { destruct (IH outs st0 Hex0 Hno0) as ((T1 & T2 & T3 & T4) & k & Hk).
         split; [repeat split; congruence|].
         exists (S k). rewrite Hk, A7, <- app_assoc. done. }
    destruct (start_action_cases e a rest cb st0)
      as (st1 & (S1 & S2 & S3 & S4 & S5 & S6 & S7 & S8) & _ & [-> | (_ & err & ->)]).
    2: { rewrite settle_actions_exited.
         2: { destruct (done_catch_obs err st1) as (-> & _); [congruence | done]. }
         destruct (done_catch_obs err st1) as (D1 & D2 & D3 & D4 & D5 & D6 & D7 & D8);
           [congruence|].
         split; [repeat split; try congruence; by right|].
         exists 1. by rewrite D7, S8, A7. }
    assert (Hex1 : exited st1 = None) by congruence.
    assert (Hno1 : no_startup_pending st1) by (unfold no_startup_pending; by rewrite S2).
    destruct outs as [|r outs].
    { simpl. split.
      - repeat split;
          [transitivity (teardown_runs st1) | transitivity (closer_calls st1)
          | transitivity (timers st1) | left; transitivity (exited st1)];
          first [reflexivity | congruence].
      - exists 1. transitivity (announced st1); [obs; done | by rewrite S8, A7]. }
    rewrite settle_actions_cons, settle_first_started by done.
    destruct r as [|err].
    + destruct (settle_resolved_action e a rest cb st1)
        as (st2 & (R1 & R2 & R3 & R4 & R5 & R6 & R7 & R8) & _ & ->).
      destruct (IH outs st2) as ((T1 & T2 & T3 & T4) & k & Hk).
      { congruence. } { unfold no_startup_pending; by rewrite R2. }
      split; [repeat split; congruence|].
      exists (S k). rewrite Hk, R8, S8, A7, <- app_assoc. done.
    + simpl. rewrite settle_actions_exited.
      2: { destruct (done_catch_obs err st1) as (-> & _); [congruence | done]. }
      destruct (done_catch_obs err st1) as (D1 & D2 & D3 & D4 & D5 & D6 & D7 & D8);
        [congruence|].
      split; [repeat split; try congruence; by right|].
      exists 1. by rewrite D7, S8, A7.
Qed.

(** One link of the sequence when the closure exists and gets to return its
    promise: the action is announced and left pending; a resolution moves on
    to the remaining names, a rejection ends in the [.catch] of [done]. *)
Lemma seq_step e cb n rest a st :
  exited st = None -> no_startup_pending st ->
  promises st !! n = Some a -> starts_ok e a = true ->
  exists st1 st2,
    same_obs (log Debug (MRunning n) st) st1 /\ same_obs st1 st2 /\
    started st1 = started st ++ [a] /\ started st2 = started st1 /\
    seqPromise e (n :: rest) cb st = add_pending (PAction a rest cb) st1 /\
    settle_first e is_startup_op Resolved (add_pending (PAction a rest cb) st1)
      = seqPromise e rest cb st2 /\
    forall err,
      settle_first e is_startup_op (Rejected err) (add_pending (PAction a rest cb) st1)
      = done_catch err st1.
Proof.
  intros Hex Hno Ha Hok. simpl.
  change (promises (log Debug (MRunning n) st) !! n) with (promises st !! n).
  rewrite Ha.
  destruct (start_action_cases e a rest cb (log Debug (MRunning n) st))
    as (st1 & S1 & St1 & [E | (Hf & _)]); [|congruence].
  destruct (settle_resolved_action e a rest cb st1) as (st2 & S2 & St2 & E2).
  exists st1, st2.
  assert (Hex1 : exited st1 = None).
  { destruct S1 as (-> & _). done. }
  assert (Hno1 : no_startup_pending st1).
  { unfold no_startup_pending. destruct S1 as (_ & -> & _). done. }
  split; [done|]. split; [done|]. split; [rewrite St1; obs; done|].
  split; [done|]. split; [done|]. split.
  - by rewrite settle_first_started.
  - intros err. by rewrite settle_first_started.
Qed.

Lemma startable_cons e registry n rest :
  startable e registry (n :: rest) = true ->
  exists a, registry !! n = Some a /\ starts_ok e a = true /\
            startable e registry rest = true.
Proof.
  unfold startable. simpl. intros [H1 H2]%andb_true_iff.
  destruct (registry !! n) as [a|]; [|done]. by exists a.
Qed.

Lemma omap_lookup_cons (registry : gmap string action) n a (l : list string) :
  registry !! n = Some a ->
  omap (fun n => registry !! n) (n :: l) = a :: omap (fun n => registry !! n) l.
Proof. intros H. csimpl. by rewrite H. Qed.

Lemma seq_run_startable e cb names : forall outs st,
  exited st = None -> no_startup_pending st ->
  startable e (promises st) names = true ->
  let st' := settle_actions e outs (seqPromise e names cb st) in
  (forall j, j < length names -> outs = replicate j Resolved ->
     announced st' = announced st ++ take (S j) names /\
     started st' = started st ++ omap (fun n => promises st !! n) (take (S j) names) /\
     exited st' = None) /\
  (forall j err more, j < length names ->
     outs = replicate j Resolved ++ Rejected err :: more ->
     announced st' = announced st ++ take (S j) names /\
     started st' = started st ++ omap (fun n => promises st !! n) (take (S j) names) /\
     exited st' = Some 1%Z /\ waitingForExit st' = true /\
     Log Error (MErr err) ∈ trace st') /\
  (forall more, outs = replicate (length names) Resolved ++ more ->
     announced st' = announced st ++ names /\
     started st' = started st ++ omap (fun n => promises st !! n) names /\
     exited st' = None /\
     Log Info MReady ∈ trace st').
Proof.
  induction names as [|n rest IH]; intros outs st Hex Hno Hok st'; subst st'.
  - split; [intros j Hj; simpl in Hj; lia|].
    split; [intros j err more Hj; simpl in Hj; lia|].
    intros more ->. simpl. rewrite settle_actions_idle.
    + unfold done_then. destruct (truthy cb); simpl;
        (split; [obs; done | split; [obs; done | split; [done | by repeat constructor]]]).
    + unfold done_then, no_startup_pending. destruct (truthy cb); simpl; [|done].
      apply Forall_app. split; [done | by repeat constructor].
  - destruct (startable_cons _ _ _ _ Hok) as (a & Ha & Hsa & Hrest).
    destruct (seq_step e cb n rest a st Hex Hno Ha Hsa)
      as (st1 & st2 & S1 & S2 & St1 & St2 & E0 & ER & EF).
    destruct (announce_obs n st) as (A1 & A2 & A3 & A4 & A5 & A6 & A7 & A8).
    destruct S1 as (S11 & S12 & S13 & S14 & S15 & S16 & S17 & S18).
    destruct S2 as (S21 & S22 & S23 & S24 & S25 & S26 & S27 & S28).
    assert (Hex2 : exited st2 = None) by congruence.
    assert (Hno2 : no_startup_pending st2).
    { unfold no_startup_pending. rewrite S22, S12, A2. done. }
    assert (Hp2 : promises st2 = promises st) by congruence.
    assert (Hok2 : startable e (promises st2) rest = true) by (rewrite Hp2; done).
    assert (Han2 : announced st2 = announced st ++ [n]) by congruence.
    assert (Hst2 : started st2 = started st ++ [a]) by congruence.
    rewrite E0.
    split; [|split].
    + intros [|j] Hj ->.
      * simpl replicate. simpl settle_actions. split; [|split].
        -- transitivity (announced st1); [obs; done | by rewrite S18, A7].
        -- transitivity (started st1); [obs; done|].
           rewrite St1. change (take 1 (n :: rest)) with [n].
           by rewrite (omap_lookup_cons _ _ _ [] Ha).
        -- transitivity (exited st1); [reflexivity | congruence].
      * simpl replicate. rewrite settle_actions_cons, ER.
        destruct (IH (replicate j Resolved) st2 Hex2 Hno2 Hok2) as (I1 & _ & _).
        destruct (I1 j) as (I11 & I12 & I13); [simpl in Hj; lia | done |].
        split; [|split; [|done]].
        -- rewrite I11, Han2, <- app_assoc. done.
        -- rewrite I12, Hst2, Hp2, <- app_assoc.
           change (take (S (S j)) (n :: rest)) with (n :: take (S j) rest).
           by rewrite (omap_lookup_cons _ _ _ (take (S j) rest) Ha).
    + intros [|j] err more Hj ->.
      * change (replicate 0 Resolved ++ Rejected err :: more) with (Rejected err :: more).
        rewrite settle_actions_cons, EF.
        destruct (done_catch_obs err st1) as (D1 & D2 & D3 & D4 & D5 & D6 & D7 & D8);
          [congruence|].
        rewrite settle_actions_exited by congruence.
        split; [by rewrite D7, S18, A7|]. split; [|split; [done|split; [done|]]].
        -- rewrite D8, St1. change (take 1 (n :: rest)) with [n].
           by rewrite (omap_lookup_cons _ _ _ [] Ha).
        -- rewrite D3. by repeat constructor.
      * change (replicate (S j) Resolved ++ Rejected err :: more)
          with (Resolved :: (replicate j Resolved ++ Rejected err :: more)).
        rewrite settle_actions_cons, ER.
        destruct (IH (replicate j Resolved ++ Rejected err :: more) st2 Hex2 Hno2 Hok2)
          as (_ & I2 & _).
        destruct (I2 j err more) as (I21 & I22 & I23 & I24 & I25);
          [simpl in Hj; lia | done |].
        split; [|split; [|done]].
        -- rewrite I21, Han2, <- app_assoc. done.
        -- rewrite I22, Hst2, Hp2, <- app_assoc.
           change (take (S (S j)) (n :: rest)) with (n :: take (S j) rest).
           by rewrite (omap_lookup_cons _ _ _ (take (S j) rest) Ha).
    + intros more ->.
      change (replicate (length (n :: rest)) Resolved ++ more)
        with (Resolved :: (replicate (length rest) Resolved ++ more)).
      rewrite settle_actions_cons, ER.
      destruct (IH (replicate (length rest) Resolved ++ more) st2 Hex2 Hno2 Hok2)
        as (_ & _ & I3).
      destruct (I3 more) as (I31 & I32 & I33 & I34); [done|].
      split; [|split; [|done]].
      * rewrite I31, Han2, <- app_assoc. done.
      * rewrite I32, Hst2, Hp2, <- app_assoc.
        by rewrite (omap_lookup_cons _ _ _ rest Ha).
Qed.

Lemma chain_done_obs e cb st :
  chain_done e cb st = seqPromise e (promiseOrder st) cb (log Info MStarting st).
Proof. reflexivity. Qed.

(** C3: [done] announces and starts the registered names in the order of
    [promiseOrder], each one only after the one before it resolved; the
    first rejection stops the sequence, logs the error and ends the process
    with status 1; at no point does startup call a teardown closure, run a
    shutdown or clear a timer. *)
Theorem startup_in_order_fail_fast (e : env) (cb : jsval) (outs : list outcome)
    (st : state) :
  exited st = None -> no_startup_pending st ->
  let names := promiseOrder st in
  let st' := settle_actions e outs (chain_done e cb st) in
  startup_only st st' /\
  (exists k, announced st' = announced st ++ take k names) /\
  (startable e (promises st) names = true ->
   (forall j, j < length names -> outs = replicate j Resolved ->
      announced st' = announced st ++ take (S j) names /\
      started st' = started st ++ omap (fun n => promises st !! n) (take (S j) names) /\
      exited st' = None) /\
   (forall j err more, j < length names ->
      outs = replicate j Resolved ++ Rejected err :: more ->
      announced st' = announced st ++ take (S j) names /\
      started st' = started st ++ omap (fun n => promises st !! n) (take (S j) names) /\
      exited st' = Some 1%Z /\ waitingForExit st' = true /\
      Log Error (MErr err) ∈ trace st') /\
   (forall more, outs = replicate (length names) Resolved ++ more ->
      announced st' = announced st ++ names /\
      started st' = started st ++ omap (fun n => promises st !! n) names /\
      exited st' = None /\
      Log Info MReady ∈ trace st')).
Proof.
  intros Hex Hno names st'. subst names st'. rewrite chain_done_obs.
  set (st0 := log Info MStarting st).
  assert (Hex0 : exited st0 = None) by done.
  assert (Hno0 : no_startup_pending st0) by done.
  assert (O1 : teardown_runs st0 = teardown_runs st) by (obs; done).
  assert (O2 : closer_calls st0 = closer_calls st) by (obs; done).
  assert (O3 : announced st0 = announced st) by (obs; done).
  assert (O4 : started st0 = started st) by (obs; done).
  change (promiseOrder st) with (promiseOrder st0).
  change (promises st) with (promises st0).
  rewrite <- O3, <- O4.
  destruct (seq_run_general e cb (promiseOrder st0) outs st0 Hex0 Hno0)
    as ((T1 & T2 & T3 & T4) & Hk).
  split; [repeat split; try congruence; done|].
  split; [done|].
  intros Hok. exact (seq_run_startable e cb (promiseOrder st0) outs st0 Hex0 Hno0 Hok).
Qed.

Lemma startup_in_order_fail_fast_witness :
  exists st st',
    st = run sample_env
           [Invoke (Cache (JStr "redis://h")); Invoke (Then (JFun "f"));
            Invoke (Express (JFun "app") JUndefined)] serviceLoader /\
    st' = settle_actions sample_env [Resolved; Rejected "boom"]
            (chain_done sample_env JUndefined st) /\
    startup_only st st' /\
    exists k, announced st' = announced st ++ take k (promiseOrder st).
Proof.
  eexists _, _. split; [reflexivity|]. split; [reflexivity|].
  pose proof (startup_in_order_fail_fast sample_env JUndefined [Resolved; Rejected "boom"]
    (run sample_env
           [Invoke (Cache (JStr "redis://h")); Invoke (Then (JFun "f"));
            Invoke (Express (JFun "app") JUndefined)] serviceLoader)) as H.
  destruct H as (H1 & H2 & _); [reflexivity | apply Forall_nil; exact I |].
  exact (conj H1 H2).
Defined.

(** ** What startup leaves alone *)

Lemma startup_frame_refl e st : startup_frame e st st.
Proof. unfold startup_frame. repeat split; auto. Qed.

Lemma startup_frame_trans e st1 st2 st3 :
  startup_frame e st1 st2 -> startup_frame e st2 st3 -> startup_frame e st1 st3.
Proof.
  unfold startup_frame.
  intros (A1&A2&A3&A4&A5&A6&A7&A8&A9&A10&A11&A12&A13)
         (B1&B2&B3&B4&B5&B6&B7&B8&B9&B10&B11&B12&B13).
  repeat split; try congruence; auto.
  destruct A11 as [A11|A11], B11 as [B11|B11]; [left|right|..]; try congruence.
  - right. congruence.
  - by right.
Qed.

Ltac frame_atom :=
  unfold startup_frame, queries; repeat split; obs;
  try rewrite List.filter_app; simpl; rewrite ?app_nil_r; auto.

Lemma startup_frame_done_catch e err st : startup_frame e st (done_catch err st).
Proof.
  unfold done_catch, exitProcess, process_exit. simpl.
  destruct (exited st) eqn:Hex; frame_atom.
Qed.

Lemma startup_frame_done_then e cb st : startup_frame e st (done_then cb st).
Proof. unfold done_then. destruct (truthy cb); frame_atom. Qed.

Lemma startup_frame_start_action e a rest cb st :
  startup_frame e st (start_action e a rest cb st).
Proof.
  unfold start_action.
  destruct a as [u|o|app port|prm]; try (frame_atom; fail).
  destruct (is_function app) eqn:Hf; simpl.
  - destruct (listen e app port) as [err|] eqn:Hl.
    + eapply startup_frame_trans; [|apply startup_frame_done_catch].
      frame_atom. simpl. rewrite Hf, Hl. simpl. auto.
    + frame_atom. simpl. rewrite Hf, Hl. simpl. auto.
  - eapply startup_frame_trans; [|apply startup_frame_done_catch].
    frame_atom. simpl. rewrite Hf. simpl. auto.
Qed.

Lemma startup_frame_seqPromise e cb names : forall st,
  startup_frame e st (seqPromise e names cb st).
Proof.
  induction names as [|n rest IH]; intros st; simpl.
  - apply startup_frame_done_then.
  - change (promises (log Debug (MRunning n) st) !! n) with (promises st !! n).
    assert (H0 : startup_frame e st (log Debug (MRunning n) st)) by frame_atom.
    destruct (promises st !! n) as [a|].
    + eapply startup_frame_trans; [exact H0 | apply startup_frame_start_action].
    + eapply startup_frame_trans; [exact H0 | apply IH].
Qed.

Lemma startup_frame_settle_action e a rest cb r st :
  startup_frame e st (settle e (PAction a rest cb) r st).
Proof.
  destruct r as [|err]; simpl.
  - eapply startup_frame_trans; [|apply startup_frame_seqPromise].
    destruct a; frame_atom.
  - apply startup_frame_done_catch.
Qed.

Lemma startup_frame_chain_done e cb st : startup_frame e st (chain_done e cb st).
Proof.
  unfold chain_done.
  eapply startup_frame_trans; [|apply startup_frame_seqPromise]. frame_atom.
Qed.

(** ** Once the latch is set *)

Lemma filter_shutdown_testHost (l : list string) :
  List.filter is_shutdown (rev (List.map testHost l)) = [].
Proof.
  induction l as [|c l IH]; simpl; [done|].
  rewrite List.filter_app, IH. done.
Qed.

Lemma omap_call_testHost (l : list string) :
  omap (fun x => match x with Call c => Some c | _ => None end) (List.map testHost l) = [].
Proof. induction l as [|c l IH]; csimpl; done. Qed.

Lemma pingHosts_obs hostList st :
  teardown_runs (pingHosts hostList st) = teardown_runs st /\
  closer_calls (pingHosts hostList st) = closer_calls st.
Proof.
  rewrite pingHosts_eq. unfold teardown_runs, closer_calls, history. simpl.
  rewrite List.filter_app, filter_shutdown_testHost.
  rewrite rev_app_distr, rev_involutive. simpl.
  rewrite !omap_app, omap_call_testHost. csimpl. by rewrite !app_nil_r.
Qed.

Lemma null_cycle_obs hostList st :
  teardown_runs (null_cycle hostList st) = teardown_runs st /\
  closer_calls (null_cycle hostList st) = closer_calls st.
Proof.
  unfold null_cycle, teardown_runs, closer_calls, history. simpl.
  rewrite List.filter_app, filter_shutdown_testHost.
  rewrite rev_app_distr, rev_involutive. simpl.
  rewrite !omap_app, omap_call_testHost. csimpl. by rewrite !app_nil_r.
Qed.

(** The same after the handler of uncaughtException has logged the error. *)
Lemma null_cycle_logged m hostList st :
  teardown_runs (log Error (MErr m) (null_cycle hostList st)) = teardown_runs st /\
  closer_calls (log Error (MErr m) (null_cycle hostList st)) = closer_calls st.
Proof.
  destruct (null_cycle_obs hostList st) as [<- <-]. split; obs; done.
Qed.

Ltac latch_atom :=
  unfold after_latch; repeat split; obs; simpl; rewrite ?app_nil_r; auto.

Lemma after_latch_step e ev st :
  waitingForExit st = true -> after_latch st (step e ev st).
Proof.
  intros Hw. unfold step.
  destruct (exited st) eqn:Hex; [latch_atom|].
  destruct ev as [signal err | i | i r].
  - destruct (bool_decide _); [|latch_atom].
    unfold on_process_event. destruct err as [m|]; simpl;
      rewrite closeGracefully_latched by done; latch_atom.
  - destruct (timers st !! i) as [[[id cb] ms]|]; [|latch_atom].
    destruct cb as [| |hl|hosts|]; simpl.
    + unfold checkDb. simpl. destruct (knexObject st); simpl; [latch_atom|].
      unfold on_process_event. rewrite closeGracefully_latched by done. latch_atom.
    + unfold checkDb. simpl. destruct (knexObject st); simpl; [latch_atom|].
      unfold on_process_event. rewrite closeGracefully_latched by done. latch_atom.
    + destruct (pingHosts_obs hl (set_timers (delete i (timers st)) st)) as [P1 P2].
      unfold after_latch. rewrite P1, P2. rewrite pingHosts_eq. done.
    + rewrite pingHosts_call_eq. destruct (all_hosts _) as [hl|].
      * destruct (pingHosts_obs hl (set_timers (delete i (timers st)) st)) as [P1 P2].
        unfold after_latch. rewrite P1, P2. rewrite pingHosts_eq. done.
      * unfold on_process_event. rewrite closeGracefully_latched by done.
        destruct (null_cycle_logged split_of_null (uniqueValues hosts)
                    (set_timers (delete i (timers st)) st)) as [N1 N2].
        unfold after_latch. split; [done|]. split; [exact N1 | exact N2].
    + unfold force_exit, exitProcess, process_exit. simpl. rewrite Hex. latch_atom.
  - destruct (pending st !! i) as [p|]; [|latch_atom].
    destruct p as [|hl|td c|a rest cb|].
    + destruct r as [|err]; simpl.
      * unfold checkDb_then. simpl. destruct (dbFailing st); latch_atom.
      * unfold checkDb_catch. simpl.
        destruct (dbFailureCount st <? dbFailureMax st)%Z; [latch_atom|].
        rewrite closeGracefully_latched by done. latch_atom.
    + destruct r as [|err]; simpl.
      * unfold pingHosts_then. simpl.
        destruct (pingFailing st) as [h|]; [destruct (String.eqb h "")|]; latch_atom.
      * unfold pingHosts_catch. simpl.
        destruct (pingFailureCount st <? pingFailureMax st)%Z; [latch_atom|].
        rewrite closeGracefully_latched by done. latch_atom.
    + simpl. unfold close_settled.
      destruct r as [|err]; simpl.
      * destruct c; simpl.
        all: destruct (teardowns st !! td) as [t|]; [|latch_atom].
        all: destruct (td_settled t); [latch_atom|].
        all: destruct (pred (td_remaining t) =? 0)%nat; [|latch_atom].
        all: unfold all_closed, exitProcess, process_exit; simpl; rewrite Hex.
        all: latch_atom.
      * destruct (teardowns st !! td) as [t|]; [|latch_atom].
        destruct (td_settled t); latch_atom.
    + set (st0 := set_pending (delete i (pending st)) st).
      destruct (startup_frame_settle_action e a rest cb r st0)
        as (_&_&_&_&_&F6&F7&F8&_).
      unfold after_latch. rewrite F7, F8. split; [by apply F6|done].
    + destruct r as [|err]; simpl; [latch_atom|].
      unfold done_catch, exitProcess, process_exit. simpl. rewrite Hex. latch_atom.
Qed.




(** Configuration calls neither tear down nor touch the latch. *)
Lemma apply_call_obs e c st st' :
  apply_call e c st = Ok st' ->
  (waitingForExit st = true -> waitingForExit st' = true) /\
  teardown_runs st' = teardown_runs st /\
  closer_calls st' = closer_calls st.
Proof.
  destruct c as [u o|u|o|app port|o|prm|prm|cb]; simpl.
  - unfold chain_ping. destruct (negb (truthy u) || negb (isArray u)); [done|].
    destruct (parse_hosts e _) as [m'|hosts]; [done|].
    intros [= <-].
    destruct (truthy_num o failureMax), (truthy_num o frequency);
      repeat split; obs; done.
  - unfold chain_cache. destruct (negb (truthy u)); [done|].
    intros [= <-]. repeat split; obs; done.
  - unfold chain_amq. intros [= <-]. repeat split; obs; done.
  - unfold chain_express. destruct (negb (truthy app)); [done|].
    intros [= <-]. repeat split; obs; done.
  - unfold chain_db. intros [= <-].
    destruct (truthy_num o failureMax), (truthy_num o frequency);
      repeat split; obs; done.
  - unfold chain_then. intros [= <-]. repeat split; obs; done.
  - unfold chain_onExit. intros [= <-]. repeat split; obs; done.
  - intros [= <-].
    destruct (startup_frame_chain_done e cb st) as (_&_&_&_&_&F6&F7&F8&_). done.
Qed.

Lemma after_latch_react e i st :
  waitingForExit st = true -> after_latch st (react e st i).
Proof.
  intros Hw. destruct i as [c|ev]; simpl; [|by apply after_latch_step].
  destruct (exited st); [done|].
  destruct (apply_call e c st) as [st'|m st'] eqn:Hc.
  2: { thrown Hc; (split; [exact Hw | split; reflexivity]). }
  destruct (apply_call_obs e c st st' Hc) as (H1 & H2 & H3).
  split; [by apply H1 | done].
Qed.


Lemma after_latch_run e ins : forall st,
  waitingForExit st = true -> after_latch st (run e ins st).
Proof.
  induction ins as [|i ins IH]; intros st Hw; [done|].
  change (run e (i :: ins) st) with (run e ins (react e st i)).
  destruct (after_latch_react e i st Hw) as (H1 & H2 & H3).
  destruct (IH _ H1) as (I1 & I2 & I3).
  repeat split; congruence.
Qed.




(** ** Which resources a shutdown closes *)

Lemma existsb_rev_map_false {A} (f : effect -> bool) (g : A -> effect) (l : list A) :
  (forall a, f (g a) = false) -> existsb f (rev (List.map g l)) = false.
Proof.
  intros H. induction l as [|a l IH]; simpl; [done|].
  rewrite existsb_app, IH. simpl. by rewrite H.
Qed.

Lemma match_same e st st' :
  knexObject st' = knexObject st -> httpServer st' = httpServer st ->
  trace st' = trace st ->
  resources_match e st -> resources_match e st'.
Proof. unfold resources_match. intros -> -> ->. done. Qed.

Lemma match_closeGracefully e signal st :
  resources_match e st -> resources_match e (closeGracefully signal st).
Proof.
  intros [H1 H2]. destruct (waitingForExit st) eqn:Hw.
  - by rewrite closeGracefully_latched.
  - rewrite closeGracefully_first by done. unfold resources_match. simpl.
    rewrite !existsb_app, !existsb_rev_map_false by done.
    destruct (bool_decide _); simpl; done.
Qed.

Lemma match_pingHosts e hl st :
  resources_match e st -> resources_match e (pingHosts hl st).
Proof.
  intros [H1 H2]. rewrite pingHosts_eq. unfold resources_match. simpl.
  by rewrite !existsb_app, !existsb_rev_map_false.
Qed.

Lemma match_startup e st st' :
  startup_frame e st st' -> resources_match e st -> resources_match e st'.
Proof.
  intros (_&_&_&F4&_&_&_&_&_&_&_&F12&F13) [H1 H2].
  split; [congruence | by apply F13].
Qed.

Lemma match_null_cycle e hl st :
  resources_match e st -> resources_match e (null_cycle hl st).
Proof.
  intros [H1 H2]. unfold resources_match, null_cycle. simpl.
  by rewrite !existsb_app, !existsb_rev_map_false.
Qed.

Lemma match_logged e l m st :
  resources_match e st -> resources_match e (log l m st).
Proof. intros [H1 H2]. unfold resources_match. simpl. done. Qed.

Ltac match_atom H :=
  first
    [ exact H
    | eapply match_same; [reflexivity | reflexivity | reflexivity |];
      apply match_closeGracefully; match_atom H
    | destruct H; unfold resources_match; simpl; split; assumption ].

Lemma match_step e ev st :
  resources_match e st -> resources_match e (step e ev st).
Proof.
  intros H. unfold step.
  destruct (exited st) eqn:Hex; [done|].
  destruct ev as [signal err | i | i r].
  - destruct (bool_decide _); [|done].
    unfold on_process_event. destruct err as [m|]; match_atom H.
  - destruct (timers st !! i) as [[[id cb] ms]|]; [|done].
    destruct cb as [| |hl|hosts|]; simpl.
    + unfold checkDb. simpl. destruct (knexObject st) eqn:Hk; simpl.
      * match_atom H.
      * unfold on_process_event. match_atom H.
    + unfold checkDb. simpl. destruct (knexObject st) eqn:Hk; simpl.
      * match_atom H.
      * unfold on_process_event. match_atom H.
    + apply match_pingHosts. match_atom H.
    + rewrite pingHosts_call_eq. destruct (all_hosts _) as [hl|].
      * apply match_pingHosts. match_atom H.
      * unfold on_process_event.
        eapply match_same; [reflexivity | reflexivity | reflexivity |].
        apply match_closeGracefully, match_logged, match_null_cycle. match_atom H.
    + unfold force_exit, exitProcess, process_exit. simpl. rewrite Hex. match_atom H.
  - destruct (pending st !! i) as [p|]; [|done].
    destruct p as [|hl|td c|a rest cb|].
    + destruct r as [|err]; simpl.
      * unfold checkDb_then. simpl. destruct (dbFailing st); match_atom H.
      * unfold checkDb_catch. simpl.
        destruct (dbFailureCount st <? dbFailureMax st)%Z; match_atom H.
    + destruct r as [|err]; simpl.
      * unfold pingHosts_then. simpl.
        destruct (pingFailing st) as [h|]; [destruct (String.eqb h "")|]; match_atom H.
      * unfold pingHosts_catch. simpl.
        destruct (pingFailureCount st <? pingFailureMax st)%Z; match_atom H.
    + simpl. unfold close_settled.
      destruct r as [|err]; simpl.
      * destruct c; simpl.
        all: destruct (teardowns st !! td) as [t|]; [|match_atom H].
        all: destruct (td_settled t); [match_atom H|].
        all: destruct (pred (td_remaining t) =? 0)%nat; [|match_atom H].
        all: unfold all_closed, exitProcess, process_exit; simpl; rewrite Hex.
        all: match_atom H.
      * destruct (teardowns st !! td) as [t|]; [|match_atom H].
        destruct (td_settled t); match_atom H.
    + eapply match_startup; [apply startup_frame_settle_action|]. match_atom H.
    + destruct r as [|err]; simpl; [match_atom H|].
      unfold done_catch, exitProcess, process_exit. simpl. rewrite Hex. match_atom H.
Qed.

Lemma match_apply_call e c st st' :
  apply_call e c st = Ok st' -> resources_match e st -> resources_match e st'.
Proof.
  intros Hc H. destruct c as [u o|u|o|app port|o|prm|prm|cb]; simpl in Hc.
  - unfold chain_ping in Hc. destruct (negb (truthy u) || negb (isArray u)); [done|].
    destruct (parse_hosts e _) as [m'|hosts]; [done|].
    injection Hc as <-.
    destruct (truthy_num o failureMax), (truthy_num o frequency); match_atom H.
  - unfold chain_cache in Hc. destruct (negb (truthy u)); [done|].
    injection Hc as <-. match_atom H.
  - injection Hc as <-. match_atom H.
  - unfold chain_express in Hc. destruct (negb (truthy app)); [done|].
    injection Hc as <-. match_atom H.
  - unfold chain_db in Hc. injection Hc as <-. destruct H as [H1 H2].
    destruct (truthy_num o failureMax), (truthy_num o frequency);
      unfold resources_match; simpl; split; done.
  - injection Hc as <-. match_atom H.
  - injection Hc as <-. match_atom H.
  - injection Hc as <-. eapply match_startup; [apply startup_frame_chain_done | done].
Qed.

Lemma match_run e ins : forall st,
  resources_match e st -> resources_match e (run e ins st).
Proof.
  induction ins as [|i ins IH]; intros st H; [done|].
  change (run e (i :: ins) st) with (run e ins (react e st i)).
  apply IH. destruct i as [c|ev]; simpl; [|by apply match_step].
  destruct (exited st); [done|].
  destruct (apply_call e c st) as [st'|m st'] eqn:Hc.
  2: { thrown Hc; exact H. }
  by eapply match_apply_call.
Qed.

(** C5 (as amended): on the first shutdown after any history, the pool's
    close is called exactly if [dbLoader.init] was called (which [chain.db]
    does when it is configured) and the client handle it then obtained is
    truthy, the listener's exactly if a listener startup action obtained its
    server, the exit hook exactly if the registered value is truthy.  The
    equation gives the whole list in call order; in it the broker's close,
    guarded by the module object, is always present. *)
Theorem teardown_closures (e : env) (ins : list input) (signal : string) :
  let st := run e ins serviceLoader in
  waitingForExit st = false ->
  closer_calls (closeGracefully signal st) =
    closer_calls st ++
    (if existsb is_dbinit (trace st) && truthy (getKnexObject e) then [CDb] else []) ++
    [CAmq] ++
    (if existsb (is_listening e) (trace st) then [CHttp] else []) ++
    (if truthy (onExitPromise st) then [CHook (onExitPromise st)] else []).
Proof.
  intros st Hw. rewrite closer_calls_closeGracefully by done.
  assert (H : resources_match e st) by (apply match_run; split; reflexivity).
  destruct H as [H1 H2]. unfold teardown_actions. by rewrite <- H1, <- H2.
Qed.

Lemma teardown_closures_witness :
  closer_calls (closeGracefully "SIGTERM"
                  (run sample_env [Invoke (Db None); Invoke (OnExit (JFun "bye"))]
                     serviceLoader))
  = [CDb; CAmq; CHook (JFun "bye")].
Proof.
  apply (teardown_closures sample_env [Invoke (Db None); Invoke (OnExit (JFun "bye"))]
           "SIGTERM").
  reflexivity.
Defined.

(** C5 as stated fails: with the database and an exit hook configured and
    [done] never called, no startup action has run, yet the first shutdown
    calls the pool's close, the broker's close and the hook; on a loader
    where nothing at all was configured it still calls the broker's close. *)
Lemma closures_without_startup :
  let st := run sample_env [Invoke (Db None); Invoke (OnExit (JFun "bye"))] serviceLoader in
  promiseOrder st = [] /\
  started st = [] /\
  closer_calls (closeGracefully "SIGTERM" st) = [CDb; CAmq; CHook (JFun "bye")] /\
  started serviceLoader = [] /\
  closer_calls (closeGracefully "SIGTERM" serviceLoader) = [CAmq].
Proof. repeat split. Qed.

(** ** The exit timeout *)

Lemma elem_of_delete_ne {A} (l : list A) i x y :
  l !! i = Some y -> x ∈ l -> x ≠ y -> x ∈ delete i l.
Proof.
  revert i. induction l as [|z l IH]; intros i Hi Hx Hne; [by inversion Hx|].
  destruct i as [|i]; simpl in *.
  - injection Hi as ->. inversion Hx; subst; done.
  - inversion Hx; subst; [by left | right; by eapply IH].
Qed.

Lemma force_exit_exits st :
  exited st = None -> exited (force_exit st) = Some 1%Z.
Proof. intros H. unfold force_exit, exitProcess, process_exit. simpl. by rewrite H. Qed.

Ltac armed_atom Hw d Hd :=
  right; split; [simpl; try assumption; try reflexivity
                | exists d; simpl; rewrite ?elem_of_app; auto].

Lemma armed_step e ev st :
  armed_or_exited st -> armed_or_exited (step e ev st).
Proof.
  intros [Hex | [Hw [d Hd]]]; unfold step.
  { destruct (exited st) eqn:E; [left; congruence | congruence]. }
  destruct (exited st) eqn:Hex; [left; congruence|].
  destruct ev as [signal err | i | i r].
  - destruct (bool_decide _); [|armed_atom Hw d Hd].
    unfold on_process_event. destruct err as [m|];
      rewrite closeGracefully_latched by done; armed_atom Hw d Hd.
  - destruct (timers st !! i) as [[[id cb] ms]|] eqn:Hi; [|armed_atom Hw d Hd].
    assert (Hkeep : cb ≠ CbForceExit -> (d, CbForceExit, 10000%Z) ∈ delete i (timers st)).
    { intros Hne. eapply elem_of_delete_ne; [exact Hi | exact Hd | congruence]. }
    destruct cb as [| |hl|hosts|]; simpl.
    + unfold checkDb. simpl. destruct (knexObject st); simpl.
      * armed_atom Hw d Hd.
      * unfold on_process_event. rewrite closeGracefully_latched by done.
        armed_atom Hw d Hd.
    + unfold checkDb. simpl. destruct (knexObject st); simpl.
      * armed_atom Hw d Hd.
      * unfold on_process_event. rewrite closeGracefully_latched by done.
        armed_atom Hw d Hd.
    + rewrite pingHosts_eq. armed_atom Hw d Hd.
    + rewrite pingHosts_call_eq. destruct (all_hosts _) as [hl|].
      * rewrite pingHosts_eq. armed_atom Hw d Hd.
      * unfold on_process_event, null_cycle. rewrite closeGracefully_latched by done.
        armed_atom Hw d Hd.
    + left. rewrite force_exit_exits; done.
  - destruct (pending st !! i) as [p|]; [|armed_atom Hw d Hd].
    destruct p as [|hl|td c|a rest cb|].
    + destruct r as [|err]; simpl.
      * unfold checkDb_then. simpl. destruct (dbFailing st); armed_atom Hw d Hd.
      * unfold checkDb_catch. simpl.
        destruct (dbFailureCount st <? dbFailureMax st)%Z; [armed_atom Hw d Hd|].
        rewrite closeGracefully_latched by done. armed_atom Hw d Hd.
    + destruct r as [|err]; simpl.
      * unfold pingHosts_then. simpl.
        destruct (pingFailing st) as [h|]; [destruct (String.eqb h "")|];
          armed_atom Hw d Hd.
      * unfold pingHosts_catch. simpl.
        destruct (pingFailureCount st <? pingFailureMax st)%Z; [armed_atom Hw d Hd|].
        rewrite closeGracefully_latched by done. armed_atom Hw d Hd.
    + simpl. unfold close_settled.
      destruct r as [|err]; simpl.
      * destruct c; simpl.
        all: destruct (teardowns st !! td) as [t|]; [|armed_atom Hw d Hd].
        all: destruct (td_settled t); [armed_atom Hw d Hd|].
        all: destruct (pred (td_remaining t) =? 0)%nat; [|armed_atom Hw d Hd].
        all: unfold all_closed, exitProcess, process_exit; simpl; rewrite Hex.
        all: armed_atom Hw d Hd.
      * destruct (teardowns st !! td) as [t|]; [|armed_atom Hw d Hd].
        destruct (td_settled t); armed_atom Hw d Hd.
    + set (st0 := set_pending (delete i (pending st)) st).
      destruct (startup_frame_settle_action e a rest cb r st0)
        as (F1&_&_&_&_&F6&_).
      right. split; [by apply F6|]. exists d. by rewrite F1.
    + destruct r as [|err]; simpl; [armed_atom Hw d Hd|].
      unfold done_catch, exitProcess, process_exit. simpl. rewrite Hex. armed_atom Hw d Hd.
Qed.

Lemma apply_call_timers e c st st' :
  apply_call e c st = Ok st' -> forall t, t ∈ timers st -> t ∈ timers st'.
Proof.
  intros Hc t Ht. destruct c as [u o|u|o|app port|o|prm|prm|cb]; simpl in Hc.
  - unfold chain_ping in Hc. destruct (negb (truthy u) || negb (isArray u)); [done|].
    destruct (parse_hosts e _) as [m'|hosts]; [done|].
    injection Hc as <-.
    destruct (truthy_num o failureMax), (truthy_num o frequency); simpl;
      rewrite elem_of_app; auto.
  - unfold chain_cache in Hc. destruct (negb (truthy u)); [done|]. by injection Hc as <-.
  - by injection Hc as <-.
  - unfold chain_express in Hc. destruct (negb (truthy app)); [done|].
    by injection Hc as <-.
  - unfold chain_db in Hc. injection Hc as <-.
    destruct (truthy_num o failureMax), (truthy_num o frequency); simpl;
      rewrite elem_of_app; auto.
  - by injection Hc as <-.
  - by injection Hc as <-.
  - injection Hc as <-.
    destruct (startup_frame_chain_done e cb st) as (F1&_). by rewrite F1.
Qed.

Lemma armed_react e i st :
  armed_or_exited st -> armed_or_exited (react e st i).
Proof.
  intros H. destruct i as [c|ev]; simpl; [|by apply armed_step].
  destruct (exited st) eqn:Hex; [done|].
  destruct (apply_call e c st) as [st'|m st'] eqn:Hc.
  2: { thrown Hc; exact H. }
  destruct H as [H | [Hw [d Hd]]]; [congruence|].
  destruct (apply_call_obs e c st st' Hc) as (H1 & _).
  right. split; [by apply H1|]. exists d. by eapply apply_call_timers.
Qed.

Lemma armed_run e ins : forall st,
  armed_or_exited st -> armed_or_exited (run e ins st).
Proof.
  induction ins as [|i ins IH]; intros st H; [done|].
  change (run e (i :: ins) st) with (run e ins (react e st i)).
  by apply IH, armed_react.
Qed.

(** When the exit timeout fires on a live process, the process exits with 1. *)
Lemma fire_deadline e st :
  exited st = None -> deadline_armed st ->
  exited (fire_first e is_deadline st) = Some 1%Z.
Proof.
  intros Hex [d Hd]. unfold fire_first.
  destruct (list_find_elem_of (fun t => is_deadline t = true) (timers st) _ Hd)
    as [[i t] Hf]; [done|].
  rewrite Hf. apply list_find_Some in Hf as (Hi & Ht & _).
  unfold step. rewrite Hex, Hi. destruct t as [[id cb] ms].
  destruct cb; try discriminate Ht. by apply force_exit_exits.
Qed.

(** ** Teardown closures settling *)

Lemma list_find_middle_fresh {A} (P : A -> Prop) `{forall x, Decision (P x)}
    (l1 l2 : list A) x :
  Forall (fun y => ~ P y) l1 -> P x -> list_find P (l1 ++ x :: l2) = Some (length l1, x).
Proof.
  intros Hl Hx. induction Hl as [|y l Hy _ IH]; simpl.
  - by rewrite decide_True.
  - rewrite decide_False by done. by rewrite IH.
Qed.

Lemma delete_middle {A} (l1 l2 : list A) x : delete (length l1) (l1 ++ x :: l2) = l1 ++ l2.
Proof. induction l1 as [|y l1 IH]; simpl; [done | by rewrite IH]. Qed.

Lemma filter_nil_Forall {A} (f : A -> bool) (l : list A) :
  List.filter f l = [] <-> Forall (fun x => f x = false) l.
Proof.
  induction l as [|x l IH]; simpl; [by split|].
  destruct (f x) eqn:Hx; split.
  - done.
  - intros H. apply Forall_cons in H as [H _]. congruence.
  - intros H. apply Forall_cons. split; [done | by apply IH].
  - intros H. apply Forall_cons in H as [_ H]. by apply IH.
Qed.

Lemma filter_delete_hit {A} (f : A -> bool) (l : list A) i x :
  l !! i = Some x -> f x = true ->
  length (List.filter f l) = S (length (List.filter f (delete i l))).
Proof.
  revert i. induction l as [|y l IH]; intros i Hi Hx; [done|].
  destruct i as [|i]; simpl in *.
  - injection Hi as ->. by rewrite Hx.
  - destruct (f y); simpl; by rewrite (IH i Hi Hx).
Qed.

Lemma closer_of_closing td reason k st i td' c :
  closing td reason k st -> pending st !! i = Some (PClose td' c) ->
  td' = td /\ exists k', k = S k'.
Proof.
  intros (_ & _ & Hk & Hall) Hi. split.
  - rewrite Forall_forall in Hall.
    apply (Hall (PClose td' c)). by eapply list_elem_of_lookup_2.
  - rewrite (filter_delete_hit is_close_op _ i _ Hi eq_refl) in Hk. by eexists.
Qed.

(** One closure of an undecided teardown resolves: the last one ends the
    process with the status of the reason, any other is counted off. *)
Lemma closing_resolved e td reason k st i td' c :
  closing td reason (S k) st -> pending st !! i = Some (PClose td' c) ->
  let st' := step e (EvSettle i Resolved) st in
  timers st' = timers st /\
  match k with
  | 0 => exited st' = Some (exit_code reason) /\
         List.filter is_close_op (pending st') = []
  | S _ => closing td reason k st' /\ waitingForExit st' = waitingForExit st
  end.
Proof.
  intros Hc Hi st'. subst st'.
  destruct (closer_of_closing _ _ _ _ _ _ _ Hc Hi) as [-> _].
  destruct Hc as (Hex & Ht & Hk & Hall).
  assert (Hk' : length (List.filter is_close_op (delete i (pending st))) = k).
  { rewrite (filter_delete_hit is_close_op _ i _ Hi eq_refl) in Hk. lia. }
  unfold step. rewrite Hex, Hi. simpl. unfold close_settled. cbv zeta.
  set (st0 := match closed_log c with
              | Some m => log Info m (set_pending (delete i (pending st)) st)
              | None => set_pending (delete i (pending st)) st
              end).
  assert (E0 : teardowns st0 = teardowns st /\ exited st0 = exited st /\
               timers st0 = timers st /\ waitingForExit st0 = waitingForExit st /\
               pending st0 = delete i (pending st)).
  { subst st0. destruct (closed_log c); repeat split. }
  destruct E0 as (E1 & E2 & E3 & E4 & E5). clearbody st0.
  rewrite E1, Ht. simpl.
  destruct k as [|k]; simpl.
  - unfold all_closed, exitProcess, process_exit. simpl. rewrite E2, Hex. simpl.
    split; [exact E3|]. split; [done|].
    rewrite E5. by apply length_zero_iff_nil.
  - split; [exact E3|]. split; [|exact E4].
    split; [simpl; congruence|]. split; [|split].
    + simpl. rewrite list_lookup_insert_eq; [done|]. by apply lookup_lt_Some in Ht.
    + simpl. by rewrite E5.
    + simpl. rewrite E5. by apply Forall_delete.
Qed.

(** One closure of an undecided teardown rejects: the teardown is decided,
    the error logged, and nothing exits. *)
Lemma closing_rejected e td reason k st i td' c err :
  closing td reason k st -> pending st !! i = Some (PClose td' c) ->
  let st' := step e (EvSettle i (Rejected err)) st in
  torn td st' /\
  trace st' = Log Error (MErr err) :: trace st /\
  timers st' = timers st /\
  waitingForExit st' = waitingForExit st.
Proof.
  intros Hc Hi st'. subst st'.
  destruct (closer_of_closing _ _ _ _ _ _ _ Hc Hi) as [-> _].
  destruct Hc as (Hex & Ht & Hk & Hall).
  unfold step. rewrite Hex, Hi. simpl. unfold close_settled. simpl. rewrite Ht. simpl.
  split; [|done].
  split; [done|]. split.
  - eexists. split; [simpl; apply list_lookup_insert_eq; by apply lookup_lt_Some in Ht|].
    reflexivity.
  - simpl. by apply Forall_delete.
Qed.

(** Once decided by a rejection, a teardown exits nothing, whatever its
    remaining closures do. *)
Lemma torn_settled e td st i td' c r :
  torn td st -> pending st !! i = Some (PClose td' c) ->
  let st' := step e (EvSettle i r) st in
  torn td st' /\
  timers st' = timers st /\
  waitingForExit st' = waitingForExit st /\
  (forall x, x ∈ trace st -> x ∈ trace st').
Proof.
  intros (Hex & (t & Ht & Hs) & Hall) Hi st'. subst st'.
  assert (td' = td) as ->.
  { rewrite Forall_forall in Hall.
    apply (Hall (PClose td' c)). by eapply list_elem_of_lookup_2. }
  unfold step. rewrite Hex, Hi.
  assert (Hdel : Forall (fun p => match p with PClose td' _ => td' = td | _ => True end)
                        (delete i (pending st))) by (by apply Forall_delete).
  simpl. unfold close_settled.
  destruct r as [|err]; simpl.
  - destruct c; simpl; rewrite Ht, Hs; repeat split; try done;
      first [by exists t | intros x Hx; by right].
  - rewrite Ht, Hs. repeat split; try done. by exists t.
Qed.

Lemma settle_seq_cons e i r evs st :
  settle_seq e ((i, r) :: evs) st = settle_seq e evs (step e (EvSettle i r) st).
Proof. reflexivity. Qed.

Lemma hits_closers_cons e i r evs st :
  hits_closers e ((i, r) :: evs) st = true ->
  exists td c, pending st !! i = Some (PClose td c) /\
               hits_closers e evs (step e (EvSettle i r) st) = true.
Proof.
  simpl. destruct (pending st !! i) as [[| |td c| |]|]; try discriminate.
  intros H. by exists td, c.
Qed.

Lemma torn_settle_seq e td evs : forall st,
  torn td st -> hits_closers e evs st = true ->
  let st' := settle_seq e evs st in
  torn td st' /\
  timers st' = timers st /\
  waitingForExit st' = waitingForExit st /\
  (forall x, x ∈ trace st -> x ∈ trace st').
Proof.
  induction evs as [|[i r] evs IH]; intros st H Hh; [done|].
  rewrite settle_seq_cons.
  destruct (hits_closers_cons _ _ _ _ _ Hh) as (td' & c & Hi & Hh').
  destruct (torn_settled e td st i td' c r H Hi) as (T1 & T2 & T3 & T4).
  destruct (IH _ T1 Hh') as (I1 & I2 & I3 & I4).
  split; [exact I1|]. split; [congruence|]. split; [congruence|]. auto.
Qed.

(** Every closure resolves, in whatever order: the process exits with the
    status of the reason. *)
Lemma all_resolved e td reason evs : forall k st,
  closing td reason k st -> 0 < k ->
  hits_closers e evs st = true ->
  forallb (fun ir => negb (is_rejected ir.2)) evs = true ->
  length evs = k ->
  exited (settle_seq e evs st) = Some (exit_code reason).
Proof.
  induction evs as [|[i r] evs IH]; intros k st Hc Hk Hh Hr Hl;
    [simpl in Hl; lia|].
  rewrite settle_seq_cons.
  destruct (hits_closers_cons _ _ _ _ _ Hh) as (td' & c & Hi & Hh').
  simpl in Hr. apply andb_true_iff in Hr as [Hr1 Hr2].
  destruct r as [|err]; [|discriminate Hr1].
  destruct k as [|k]; [lia|].
  destruct (closing_resolved e td reason k st i td' c Hc Hi) as (_ & H2).
  destruct k as [|k].
  - destruct H2 as [H2 _]. simpl in Hl.
    destruct evs; [exact H2 | simpl in Hl; lia].
  - destruct H2 as [H2 _]. apply (IH (S k)); try done; [lia | simpl in Hl; lia].
Qed.

(** A process that exited by resolving its last closure has none pending,
    so no later settlement reaches a closure. *)
Lemma hits_closers_none e evs st :
  List.filter is_close_op (pending st) = [] ->
  hits_closers e evs st = true -> evs = [].
Proof.
  intros Hn Hh. destruct evs as [|[i r] evs]; [done|].
  destruct (hits_closers_cons _ _ _ _ _ Hh) as (td' & c & Hi & _).
  pose proof (filter_delete_hit is_close_op _ i _ Hi eq_refl) as Hl.
  rewrite Hn in Hl. discriminate Hl.
Qed.

(** Some closure rejects, at any point and in whatever order: the error is
    logged and the teardown exits nothing. *)
Lemma some_rejected e td reason evs : forall k st,
  closing td reason k st ->
  hits_closers e evs st = true ->
  existsb (fun ir => is_rejected ir.2) evs = true ->
  let st' := settle_seq e evs st in
  exited st' = None /\
  (exists err, Log Error (MErr err) ∈ trace st') /\
  timers st' = timers st /\
  waitingForExit st' = waitingForExit st.
Proof.
  induction evs as [|[i r] evs IH]; intros k st Hc Hh Hr st'; subst st';
    [discriminate Hr|].
  rewrite settle_seq_cons.
  destruct (hits_closers_cons _ _ _ _ _ Hh) as (td' & c & Hi & Hh').
  destruct r as [|err].
  - simpl in Hr.
    destruct (closer_of_closing _ _ _ _ _ _ _ Hc Hi) as [_ [k' ->]].
    destruct (closing_resolved e td reason k' st i td' c Hc Hi) as (T & H2).
    destruct k' as [|k'].
    + destruct H2 as [_ H2].
      rewrite (hits_closers_none e evs _ H2 Hh') in Hr. discriminate Hr.
    + destruct H2 as [H2 Hw].
      destruct (IH (S k') _ H2 Hh' Hr) as (I1 & I2 & I3 & I4).
      split; [done|]. split; [done|]. split; congruence.
  - destruct (closing_rejected e td reason k st i td' c err Hc Hi) as (R1 & R2 & R3 & R4).
    destruct (torn_settle_seq e td evs _ R1 Hh') as ((T0 & _) & T2 & T3 & T4).
    split; [done|]. split; [|split; congruence].
    exists err. apply T4. rewrite R2. by left.
Qed.

Lemma filter_close_map td (cs : list closer) :
  List.filter is_close_op (List.map (PClose td) cs) = List.map (PClose td) cs.
Proof. induction cs as [|c cs IH]; simpl; [done | by rewrite IH]. Qed.

Lemma closing_start reason st :
  exited st = None -> waitingForExit st = false -> no_close_pending st ->
  closing (length (teardowns st)) reason (length (teardown_actions st))
    (set_waitingForExit true (closeGracefully reason st)).
Proof.
  intros Hex Hw Hno. rewrite closeGracefully_first by done.
  split; [done|]. split; [|split].
  - simpl. by rewrite list_lookup_middle.
  - simpl. rewrite List.filter_app, filter_close_map, length_app, length_map.
    apply filter_nil_Forall in Hno. by rewrite Hno.
  - simpl. apply Forall_app. split.
    + eapply Forall_impl; [exact Hno|]. by intros [].
    + generalize (teardown_actions st). intros cs.
      induction cs as [|c cs IH]; simpl; by constructor.
Qed.

Lemma armed_start reason st :
  waitingForExit st = false ->
  deadline_armed (set_waitingForExit true (closeGracefully reason st)).
Proof.
  intros Hw. rewrite closeGracefully_first by done.
  exists (nextTimer st). simpl. rewrite elem_of_app. right. by left.
Qed.

Lemma teardown_actions_not_nil st : teardown_actions st ≠ [].
Proof. unfold teardown_actions. by destruct (knexObject st). Qed.


(** C4 (as amended): after a trigger, (1) if every teardown closure resolves,
    in whatever order, the process exits with the status of the reason, 0 for
    a signal name and 1 otherwise; (2) if one rejects, the error is logged,
    the teardown exits nothing, and the exit timeout then ends the process
    with status 1; (3) whatever else happens, either the process has exited
    or the 10000 ms exit timeout is still pending and ends it with status 1
    when it fires. *)
Theorem shutdown_exit_status (e : env) (st : state) (reason : string) :
  exited st = None -> waitingForExit st = false -> no_close_pending st ->
  let st1 := set_waitingForExit true (closeGracefully reason st) in
  let n := length (teardown_actions st) in
  (forall evs,
     hits_closers e evs st1 = true ->
     forallb (fun ir => negb (is_rejected ir.2)) evs = true ->
     length evs = n ->
     exited (settle_seq e evs st1) = Some (exit_code reason)) /\
  (forall evs,
     hits_closers e evs st1 = true ->
     existsb (fun ir => is_rejected ir.2) evs = true ->
     let st2 := settle_seq e evs st1 in
     exited st2 = None /\
     (exists err, Log Error (MErr err) ∈ trace st2) /\
     exited (fire_first e is_deadline st2) = Some 1%Z) /\
  (forall ins,
     let st2 := run e ins st1 in
     exited st2 <> None \/
     (deadline_armed st2 /\ exited (fire_first e is_deadline st2) = Some 1%Z)) /\
  Forall (fun s => exit_code s = 0%Z) ["SIGINT"; "SIGTERM"; "SIGQUIT"] /\
  Forall (fun s => exit_code s = 1%Z)
    ["uncaughtException"; "unhandledRejection"; "NODB"; "NOHOST"; "START"; "FORCE"].
Proof.
  intros Hex Hw Hno st1 n.
  pose proof (closing_start reason st Hex Hw Hno) as Hc. fold st1 n in Hc.
  pose proof (armed_start reason st Hw) as Ha. fold st1 in Ha.
  assert (Hn : 0 < n).
  { subst n. pose proof (teardown_actions_not_nil st).
    destruct (teardown_actions st); [done | simpl; lia]. }
  split; [|split; [|split; [|split]]].
  - intros evs Hh Hr Hl.
    exact (all_resolved e (length (teardowns st)) reason evs n st1 Hc Hn Hh Hr Hl).
  - intros evs Hh Hr st2.
    destruct (some_rejected e (length (teardowns st)) reason evs n st1 Hc Hh Hr)
      as (O1 & O2 & O3 & O4).
    fold st2 in O1, O2, O3, O4.
    split; [done|]. split; [done|].
    apply fire_deadline; [done|]. destruct Ha as [d Hd]. exists d. by rewrite O3.
  - intros ins st2.
    destruct (armed_run e ins st1) as [H | [_ H]].
    + right. split; [reflexivity | exact Ha].
    + by left.
    + destruct (exited st2) eqn:Hex2; [left; congruence|].
      right. split; [done|]. by apply fire_deadline.
  - repeat constructor.
  - repeat constructor.
Qed.

Lemma shutdown_exit_status_witness :
  exited (settle_seq sample_env [(1, Resolved); (0, Resolved)]
            (set_waitingForExit true
               (closeGracefully "SIGTERM" (run sample_env [Invoke (Db None)] serviceLoader))))
  = Some (exit_code "SIGTERM").
Proof.
  apply (shutdown_exit_status sample_env (run sample_env [Invoke (Db None)] serviceLoader)
           "SIGTERM"); [reflexivity | reflexivity | apply Forall_nil; exact I | ..];
    reflexivity.
Defined.

(** C4 as stated fails when a closure settles by rejecting: triggered by
    SIGTERM (status 0), with its only closure settled, the process has not
    exited; it exits with status 1 when the timeout fires. *)
Lemma failed_teardown_exits_at_deadline :
  let st1 := step sample_env (EvSignal "SIGTERM" None) serviceLoader in
  let st2 := step sample_env (EvSettle 0 (Rejected "close failed")) st1 in
  pending st1 = [PClose 0 CAmq] /\
  pending st2 = [] /\
  exited st2 = None /\
  exit_code "SIGTERM" = 0%Z /\
  timers st2 = [(0, CbForceExit, 10000%Z)] /\
  exited (step sample_env (EvTimer 0) st2) = Some 1%Z.
Proof. repeat split. Qed.

(** ** The database monitor after it gave up *)

Lemma Forall_cleared (P : nat * callback * Z -> Prop) tos ts :
  Forall P ts -> Forall P (cleared tos ts).
Proof.
  revert ts. induction tos as [|kv tos IH]; intros ts H; [done|].
  simpl. apply IH. apply Forall_forall. intros t Ht%list_elem_of_filter.
  rewrite Forall_forall in H. apply H. tauto.
Qed.

Lemma queries_rev_map_false {A} (g : A -> effect) (l : list A) :
  (forall a, is_query (g a) = false) ->
  List.filter is_query (rev (List.map g l)) = [].
Proof.
  intros H. induction l as [|a l IH]; simpl; [done|].
  rewrite List.filter_app, IH. simpl. by rewrite H.
Qed.

Lemma idle_closeGracefully signal st :
  db_idle st ->
  db_idle (closeGracefully signal st) /\
  queries (closeGracefully signal st) = queries st.
Proof.
  intros [H1 H2]. destruct (waitingForExit st) eqn:Hw.
  - by rewrite closeGracefully_latched.
  - rewrite closeGracefully_first by done. split; [split|]; simpl.
    + apply Forall_app. split; [done|].
      generalize (teardown_actions st). intros l. induction l; simpl; by constructor.
    + apply Forall_app. split; [by apply Forall_cleared | by repeat constructor].
    + unfold queries. simpl.
      rewrite !List.filter_app, queries_rev_map_false by done.
      by destruct (bool_decide _).
Qed.

Lemma idle_pingHosts hl x st :
  db_idle x -> queries x = queries st ->
  db_idle (pingHosts hl x) /\ queries (pingHosts hl x) = queries st.
Proof.
  intros [H1 H2] <-. rewrite pingHosts_eq. split; [split|]; simpl.
  - apply Forall_app. split; [done | by repeat constructor].
  - done.
  - unfold queries. simpl. by rewrite List.filter_app, queries_rev_map_false.
Qed.

Lemma idle_null_logged m hl x st :
  db_idle x -> queries x = queries st ->
  db_idle (log Error (MErr m) (null_cycle hl x)) /\
  queries (log Error (MErr m) (null_cycle hl x)) = queries st.
Proof.
  intros [H1 H2] <-. split; [split|]; simpl; [done | done |].
  unfold queries, null_cycle. simpl. by rewrite List.filter_app, queries_rev_map_false.
Qed.

Lemma idle_startup e x st st' :
  startup_frame e x st' -> db_idle x -> queries x = queries st ->
  db_idle st' /\ queries st' = queries st.
Proof.
  intros (F1&_&_&_&_&_&_&_&F9&F10&_) [H1 H2] <-.
  split; [split|done].
  - apply filter_nil_Forall. rewrite F10. by apply filter_nil_Forall.
  - by rewrite F1.
Qed.

Lemma idle_same st st' :
  pending st' = pending st -> timers st' = timers st -> trace st' = trace st ->
  db_idle st -> db_idle st' /\ queries st' = queries st.
Proof. unfold db_idle, queries. intros -> -> ->. done. Qed.

Lemma idle_trigger signal x st :
  db_idle x -> queries x = queries st ->
  db_idle (set_waitingForExit true (closeGracefully signal x)) /\
  queries (set_waitingForExit true (closeGracefully signal x)) = queries st.
Proof.
  intros Hx Hq. destruct (idle_closeGracefully signal x Hx) as [H1 H2].
  split; [exact H1|]. by rewrite <- Hq, <- H2.
Qed.

Ltac idle_goal Hp Ht :=
  simpl; rewrite ?Forall_app; repeat split;
  try (apply Forall_delete); try assumption; try reflexivity;
  try (repeat constructor; fail).

Ltac idle_atom Hp Ht :=
  first
    [ apply idle_trigger; [split|]; idle_goal Hp Ht
    | split; [split|]; idle_goal Hp Ht ].

Lemma idle_step e ev st :
  db_idle st -> db_idle (step e ev st) /\ queries (step e ev st) = queries st.
Proof.
  intros H. pose proof H as [Hp Ht]. unfold step.
  destruct (exited st) eqn:Hex; [done|].
  destruct ev as [signal err | i | i r].
  - destruct (bool_decide _); [|done].
    unfold on_process_event. destruct err as [m|]; idle_atom Hp Ht.
  - destruct (timers st !! i) as [[[id cb] ms]|] eqn:Hi; [|done].
    assert (Hcb : is_db_callback (id, cb, ms) = false).
    { rewrite Forall_forall in Ht. apply Ht. by eapply list_elem_of_lookup_2. }
    destruct cb as [| |hl|hosts|]; try discriminate Hcb; simpl.
    + apply idle_pingHosts; [split|]; idle_goal Hp Ht.
    + rewrite pingHosts_call_eq. destruct (all_hosts _) as [hl|].
      * apply idle_pingHosts; [split|]; idle_goal Hp Ht.
      * unfold on_process_event.
        destruct (idle_null_logged split_of_null (uniqueValues hosts)
                    (set_timers (delete i (timers st)) st) st) as [A B];
          [split; idle_goal Hp Ht | reflexivity |].
        by apply idle_trigger.
    + unfold force_exit, exitProcess, process_exit. simpl. rewrite Hex. idle_atom Hp Ht.
  - destruct (pending st !! i) as [p|] eqn:Hi; [|done].
    assert (Hpr : is_probe p = false).
    { rewrite Forall_forall in Hp. apply Hp. by eapply list_elem_of_lookup_2. }
    destruct p as [|hl|td c|a rest cb|]; try discriminate Hpr.
    + destruct r as [|err]; simpl.
      * unfold pingHosts_then. simpl.
        destruct (pingFailing st) as [h|]; [destruct (String.eqb h "")|];
          idle_atom Hp Ht.
      * unfold pingHosts_catch. simpl.
        destruct (pingFailureCount st <? pingFailureMax st)%Z; idle_atom Hp Ht.
    + simpl. unfold close_settled.
      destruct r as [|err]; simpl.
      * destruct c; simpl.
        all: destruct (teardowns st !! td) as [t|]; [|idle_atom Hp Ht].
        all: destruct (td_settled t); [idle_atom Hp Ht|].
        all: destruct (pred (td_remaining t) =? 0)%nat; [|idle_atom Hp Ht].
        all: unfold all_closed, exitProcess, process_exit; simpl; rewrite Hex.
        all: idle_atom Hp Ht.
      * destruct (teardowns st !! td) as [t|]; [|idle_atom Hp Ht].
        destruct (td_settled t); idle_atom Hp Ht.
    + eapply (idle_startup e (set_pending (delete i (pending st)) st));
        [apply startup_frame_settle_action | | reflexivity].
      split; simpl; [by apply Forall_delete | done].
    + destruct r as [|err]; simpl; [idle_atom Hp Ht|].
      unfold done_catch, exitProcess, process_exit. simpl. rewrite Hex. idle_atom Hp Ht.
Qed.

Lemma idle_events e evs : forall st,
  db_idle st ->
  db_idle (run e (List.map Happen evs) st) /\
  queries (run e (List.map Happen evs) st) = queries st.
Proof.
  induction evs as [|ev evs IH]; intros st H; [done|].
  change (run e (List.map Happen (ev :: evs)) st)
    with (run e (List.map Happen evs) (step e ev st)).
  destruct (idle_step e ev st H) as [H1 H2].
  destruct (IH _ H1) as [I1 I2]. split; [done | congruence].
Qed.

(** ** A streak of failed database probes *)

Lemma not_probe_not (l : list pending_op) :
  Forall (fun p => is_probe p = false) l -> Forall (fun p => ~ is_probe p = true) l.
Proof. rewrite !Forall_forall. intros H p Hp. by rewrite (H p Hp). Qed.

Lemma not_db_not (l : list (nat * callback * Z)) :
  Forall (fun t => is_db_callback t = false) l ->
  Forall (fun t => ~ is_db_callback t = true) l.
Proof. rewrite !Forall_forall. intros H p Hp. by rewrite (H p Hp). Qed.

(** The probe in flight is rejected. *)
Lemma probe_rejected e err st l1 l2 :
  exited st = None ->
  pending st = l1 ++ PProbe :: l2 ->
  Forall (fun p => is_probe p = false) l1 ->
  settle_first e is_probe (Rejected err) st =
  checkDb_catch err (set_pending (l1 ++ l2) st).
Proof.
  intros Hex Hp H1. unfold settle_first. rewrite Hp.
  rewrite (list_find_middle_fresh _ _ _ _ (not_probe_not _ H1)) by done.
  unfold step. rewrite Hex, Hp.
  rewrite list_lookup_middle by done. by rewrite delete_middle.
Qed.

Lemma db_failure_retry e err st :
  probing st -> (dbFailureCount st < dbFailureMax st)%Z ->
  let st' := db_failure e err st in
  probing st' /\
  dbFailureCount st' = (dbFailureCount st + 1)%Z /\
  dbFailureMax st' = dbFailureMax st /\
  waitingForExit st' = waitingForExit st /\
  teardown_runs st' = teardown_runs st /\
  escalations st' = escalations st /\
  queries st' = S (queries st).
Proof.
  intros (Hex & Hk & (l1 & l2 & Hp & H1 & H2) & Ht) Hlt st'. subst st'.
  unfold db_failure. rewrite (probe_rejected e err st l1 l2 Hex Hp H1).
  unfold checkDb_catch. simpl. apply Z.ltb_lt in Hlt. rewrite Hlt.
  unfold delay_then, setTimeout. simpl.
  unfold fire_first. simpl.
  rewrite (list_find_snoc_fresh _ _ _ (not_db_not _ Ht)) by done.
  unfold step. simpl. rewrite Hex.
  rewrite lookup_app_r by done. rewrite Nat.sub_diag. simpl.
  rewrite delete_snoc. unfold checkDb. simpl. rewrite Hk. simpl.
  repeat split; try done.
  exists (l1 ++ l2), []. repeat split; try done.
  apply Forall_app. done.
Qed.

Lemma db_failure_escalate e err st :
  probing st -> ~ (dbFailureCount st < dbFailureMax st)%Z ->
  let st' := db_failure e err st in
  db_idle st' /\
  waitingForExit st' = true /\
  escalations st' = S (escalations st) /\
  queries st' = queries st /\
  dbFailureCount st' = dbFailureCount st /\
  (waitingForExit st = false ->
   teardown_runs st' = S (teardown_runs st) /\
   last (teardowns st') = Some (Teardown "NODB" (length (teardown_actions st)) false)).
Proof.
  intros (Hex & Hk & (l1 & l2 & Hp & H1 & H2) & Ht) Hlt st'. subst st'.
  unfold db_failure. rewrite (probe_rejected e err st l1 l2 Hex Hp H1).
  unfold checkDb_catch. simpl. apply Z.ltb_nlt in Hlt. rewrite Hlt.
  set (x := log Error (MDbError err) (set_pending (l1 ++ l2) st)).
  assert (Hx : db_idle x) by (split; simpl; [by apply Forall_app | done]).
  destruct (idle_trigger "NODB" x x Hx eq_refl) as [[I1 I2] I3].
  assert (Hf : fire_first e is_db_callback
                 (set_waitingForExit true (closeGracefully "NODB" x))
               = set_waitingForExit true (closeGracefully "NODB" x)).
  { unfold fire_first. by rewrite (list_find_none _ _ (not_db_not _ I2)). }
  rewrite Hf. split; [by split|]. split; [done|].
  split; [|split; [|split]].
  - unfold escalations.
    change (trace (set_waitingForExit true (closeGracefully "NODB" x)))
      with (trace (closeGracefully "NODB" x)).
    destruct (waitingForExit x) eqn:Hw.
    + by rewrite closeGracefully_latched.
    + rewrite closeGracefully_first by done. simpl.
      rewrite !List.filter_app.
      assert (Hc : forall l, List.filter
         (fun x => match x with Log Error (MDbError _) => true | _ => false end)
         (rev (List.map Call l)) = []).
      { intros l. induction l as [|c l IH]; simpl; [done|].
        by rewrite List.filter_app, IH. }
      rewrite Hc. by destruct (bool_decide _).
  - by rewrite I3.
  - destruct (waitingForExit x) eqn:Hw.
    + by rewrite closeGracefully_latched.
    + by rewrite closeGracefully_first.
  - intros Hw. split.
    + change (teardown_runs (closeGracefully "NODB" x) = S (teardown_runs st)).
      by rewrite teardown_runs_closeGracefully.
    + rewrite closeGracefully_first by done. simpl. by rewrite last_snoc.
Qed.

(** With no loop alive there is no probe left to fail. *)
Lemma db_failure_idle e err st : db_idle st -> db_failure e err st = st.
Proof.
  intros [H1 H2]. unfold db_failure, settle_first.
  rewrite (list_find_none _ _ (not_probe_not _ H1)).
  unfold fire_first. by rewrite (list_find_none _ _ (not_db_not _ H2)).
Qed.

Lemma db_failures_below e err st : forall k,
  probing st -> dbFailureCount st = 0%Z ->
  (0 < k -> (Z.of_nat k <= dbFailureMax st)%Z) ->
  let stk := Nat.iter k (db_failure e err) st in
  probing stk /\
  dbFailureCount stk = Z.of_nat k /\
  dbFailureMax stk = dbFailureMax st /\
  waitingForExit stk = waitingForExit st /\
  teardown_runs stk = teardown_runs st /\
  escalations stk = escalations st /\
  queries stk = k + queries st.
Proof.
  induction k as [|k IH]; intros Hp Hc Hle stk; subst stk.
  - simpl. split; [exact Hp|]. repeat split; done.
  - destruct IH as (I1 & I2 & I3 & I4 & I5 & I6 & I7); [done | done | lia |].
    specialize (Hle ltac:(lia)).
    simpl Nat.iter.
    destruct (db_failure_retry e err _ I1) as (R1 & R2 & R3 & R4 & R5 & R6 & R7);
      [lia|].
    split; [exact R1|]. repeat split; try congruence; lia.
Qed.

(** C2 (as amended): counting from a fresh streak, each of the first
    [dbFailureMax] consecutive failures is retried (the count grows, nothing
    is escalated, the next probe goes out); the failure after those, number
    [dbFailureMax + 1], escalates: one fatal log, one shutdown with reason
    NODB, the latch set.  After that no probe is in flight and no timer will
    call [checkDb], so no further failure can be delivered, and no later
    event sends a probe or runs the teardown again. *)
Theorem db_escalates_after_failureMax_retries (e : env) (err : string) (st : state) :
  probing st -> waitingForExit st = false -> dbFailureCount st = 0%Z ->
  let m := Z.to_nat (dbFailureMax st) in
  (forall k, k <= m ->
     let stk := Nat.iter k (db_failure e err) st in
     probing stk /\
     dbFailureCount stk = Z.of_nat k /\
     escalations stk = escalations st /\
     teardown_runs stk = teardown_runs st /\
     waitingForExit stk = false) /\
  let st' := Nat.iter (S m) (db_failure e err) st in
  escalations st' = S (escalations st) /\
  teardown_runs st' = S (teardown_runs st) /\
  (exists n, last (teardowns st') = Some (Teardown "NODB" n false)) /\
  waitingForExit st' = true /\
  db_idle st' /\
  (forall k, Nat.iter (k + S m) (db_failure e err) st = st') /\
  (forall evs,
     let st'' := run e (List.map Happen evs) st' in
     db_idle st'' /\ queries st'' = queries st' /\
     teardown_runs st'' = S (teardown_runs st)).
Proof.
  intros Hp Hw Hc m.
  assert (Hbelow : forall k, k <= m ->
     let stk := Nat.iter k (db_failure e err) st in
     probing stk /\ dbFailureCount stk = Z.of_nat k /\
     dbFailureMax stk = dbFailureMax st /\
     escalations stk = escalations st /\
     teardown_runs stk = teardown_runs st /\
     waitingForExit stk = false).
  { intros k Hk stk. subst stk.
    destruct (db_failures_below e err st k Hp Hc) as (B1&B2&B3&B4&B5&B6&B7);
      [subst m; lia|].
    split; [exact B1|]. repeat split; congruence. }
  split.
  { intros k Hk stk. destruct (Hbelow k Hk) as (B1&B2&B3&B4&B5&B6).
    split; [exact B1|]. repeat split; assumption. }
  intros st'. subst st'. simpl Nat.iter.
  destruct (Hbelow m (le_n m)) as (B1&B2&B3&B4&B5&B6).
  set (stm := Nat.iter m (db_failure e err) st) in *.
  destruct (db_failure_escalate e err stm B1) as (E1&E2&E3&E4&E5&E6).
  { rewrite B2, B3. subst m. lia. }
  destruct (E6 B6) as [E7 E8].
  set (st' := db_failure e err stm) in *.
  split; [congruence|]. split; [congruence|]. split; [by eexists|].
  split; [done|]. split; [done|]. split.
  - intros k. induction k as [|k IH]; [done|].
    simpl Nat.iter. simpl in IH. rewrite IH. by apply db_failure_idle.
  - intros evs st''. subst st''.
    destruct (idle_events e evs st' E1) as [I1 I2].
    split; [done|]. split; [done|].
    destruct (after_latch_run e (List.map Happen evs) st' E2) as (_ & A2 & _).
    congruence.
Qed.

Lemma db_escalates_after_failureMax_retries_witness :
  teardown_runs (Nat.iter 2 (db_failure sample_env "ECONNREFUSED") db_scenario) = 0 /\
  teardown_runs (Nat.iter 3 (db_failure sample_env "ECONNREFUSED") db_scenario) = 1.
Proof.
  pose proof (db_escalates_after_failureMax_retries sample_env "ECONNREFUSED" db_scenario)
    as H.
  destruct H as (H1 & _ & H2 & _).
  - split; [reflexivity|]. split; [reflexivity|]. split; [|apply Forall_nil; exact I].
    exists [], []. split; [reflexivity|]. split; apply Forall_nil; exact I.
  - reflexivity.
  - reflexivity.
  - split; [|exact H2].
    destruct (H1 2) as (_ & _ & _ & H3 & _); [vm_compute; lia | exact H3].
Defined.

(** C2 as stated fails: with a ceiling of 2, after exactly 2 consecutive
    failures nothing is escalated and the third probe is in flight; the
    third failure escalates. *)
Lemma db_escalation_not_at_failureMax :
  let st2 := Nat.iter 2 (db_failure sample_env "ECONNREFUSED") db_scenario in
  dbFailureMax db_scenario = 2%Z /\
  dbFailureCount db_scenario = 0%Z /\
  dbFailureCount st2 = 2%Z /\
  escalations st2 = 0 /\
  teardown_runs st2 = 0 /\
  waitingForExit st2 = false /\
  pending st2 = [PProbe] /\
  escalations (db_failure sample_env "ECONNREFUSED" st2) = 1 /\
  teardown_runs (db_failure sample_env "ECONNREFUSED" st2) = 1.
Proof. repeat split. Qed.

(** * Further properties *)

(** ** Addresses *)

Lemma split_on_free c s : has_char c s = false -> split_on c s = [s].
Proof.
  induction s as [|a s IH]; simpl; [done|].
  intros [Ha Hs]%orb_false_iff. rewrite Ha, (IH Hs). done.
Qed.

Lemma split_on_sep c h rest :
  has_char c h = false -> split_on c (h +:+ String c rest) = h :: split_on c rest.
Proof.
  induction h as [|a h IH]; simpl.
  - intros _. change ("" +:+ String c rest) with (String c rest). simpl.
    by rewrite Ascii.eqb_refl.
  - intros [Ha Hs]%orb_false_iff.
    change (String a h +:+ String c rest) with (String a (h +:+ String c rest)).
    simpl. rewrite Ha, (IH Hs). done.
Qed.

(** X1: an address with no colon, or with nothing after its colon, is
    connected to on port 80; the host is the text before the colon. *)
Theorem testHost_without_port (h : string) :
  has_char ":" h = false ->
  testHost h = Connect "80" h /\ testHost (h +:+ ":") = Connect "80" h.
Proof.
  intros Hh. unfold testHost. split.
  - by rewrite (split_on_free _ _ Hh).
  - by rewrite (split_on_sep _ _ "" Hh).
Qed.

Lemma testHost_without_port_witness :
  testHost "db.internal" = Connect "80" "db.internal" /\
  testHost "db.internal:" = Connect "80" "db.internal".
Proof. apply (testHost_without_port "db.internal"). reflexivity. Defined.

Lemma string_eqb_empty p : p <> "" -> String.eqb p "" = false.
Proof. by destruct p. Qed.

(** X2: in an address host:port the host is the text before the first
    colon and the port the non-empty text after it, up to a second colon if
    there is one; what follows a second colon is ignored. *)
Theorem testHost_with_port (h p rest : string) :
  has_char ":" h = false -> has_char ":" p = false -> p <> "" ->
  testHost (h +:+ ":" +:+ p) = Connect p h /\
  testHost (h +:+ ":" +:+ p +:+ ":" +:+ rest) = Connect p h.
Proof.
  intros Hh Hp Hne. unfold testHost. split.
  - change (":" +:+ p) with (String ":" p).
    rewrite (split_on_sep _ _ _ Hh), (split_on_free _ _ Hp). simpl.
    by rewrite string_eqb_empty.
  - change (":" +:+ p +:+ ":" +:+ rest) with (String ":" (p +:+ String ":" rest)).
    rewrite (split_on_sep _ _ _ Hh), (split_on_sep _ _ _ Hp). simpl.
    by rewrite string_eqb_empty.
Qed.

Lemma testHost_with_port_witness :
  testHost "cache:6379" = Connect "6379" "cache" /\
  testHost "cache:6379:extra" = Connect "6379" "cache".
Proof. apply (testHost_with_port "cache" "6379" "extra"); done. Defined.

(** ** Timers at shutdown *)

Lemma elem_of_cleared tos ts t :
  t ∈ cleared tos ts <-> t ∈ ts /\ Forall (fun kv : string * nat => t.1.1 ≠ kv.2) tos.
Proof.
  revert ts. induction tos as [|kv tos IH]; intros ts; simpl.
  - split; [intros H; split; [done | constructor] | tauto].
  - rewrite IH, list_elem_of_filter, Forall_cons. tauto.
Qed.

(** X3: after the first shutdown trigger the pending timers are exactly the
    exit timeout just armed (10000 ms) and those timers pending before whose
    handle is not stored in [timeouts]; every timer whose handle is stored
    there is cleared. *)
Theorem shutdown_clears_registered_timers (signal : string) (st : state)
    (t : nat * callback * Z) :
  waitingForExit st = false ->
  t ∈ timers (closeGracefully signal st) <->
  t = (nextTimer st, CbForceExit, 10000%Z) \/
  (t ∈ timers st /\ forall k id, (k, id) ∈ timeouts st -> t.1.1 ≠ id).
Proof.
  intros Hw. rewrite closeGracefully_first by done. simpl.
  rewrite elem_of_app, elem_of_cleared, list_elem_of_singleton, Forall_forall.
  split.
  - intros [[H1 H2]|H]; [right|by left]. split; [done|].
    intros k id Hk. apply (H2 (k, id) Hk).
  - intros [H|[H1 H2]]; [by right|left]. split; [done|].
    intros [k id] Hk. simpl. by eapply H2.
Qed.

Lemma shutdown_clears_registered_timers_witness :
  (1, CbForceExit, 10000%Z) ∈
    timers (closeGracefully "SIGTERM" (run sample_env [Invoke (Db None)] serviceLoader)).
Proof.
  apply (shutdown_clears_registered_timers "SIGTERM"
           (run sample_env [Invoke (Db None)] serviceLoader)).
  - reflexivity.
  - left. reflexivity.
Defined.

(** ** What run time leaves as configured *)

Lemma kept_closeGracefully signal st : configuration_kept st (closeGracefully signal st).
Proof.
  destruct (waitingForExit st) eqn:Hw.
  - by rewrite closeGracefully_latched.
  - by rewrite closeGracefully_first.
Qed.

Lemma kept_trans st1 st2 st3 :
  configuration_kept st1 st2 -> configuration_kept st2 st3 -> configuration_kept st1 st3.
Proof.
  unfold configuration_kept. intros (?&?&?&?&?&?&?&?&?) (?&?&?&?&?&?&?&?&?).
  repeat split; congruence.
Qed.

Lemma kept_trigger signal x st :
  configuration_kept st x ->
  configuration_kept st (set_waitingForExit true (closeGracefully signal x)).
Proof.
  intros H. eapply kept_trans; [exact H|].
  destruct (kept_closeGracefully signal x) as (?&?&?&?&?&?&?&?&?). by repeat split.
Qed.

Lemma kept_done_catch err st : configuration_kept st (done_catch err st).
Proof.
  unfold done_catch, exitProcess, process_exit. simpl. by destruct (exited st).
Qed.

Lemma kept_start_action e a rest cb st : configuration_kept st (start_action e a rest cb st).
Proof.
  unfold start_action. destruct a as [u|o|app port|prm]; try done.
  destruct (if is_function app then _ else _); [|done].
  eapply kept_trans; [|apply kept_done_catch]. done.
Qed.

Lemma kept_seqPromise e cb names : forall st, configuration_kept st (seqPromise e names cb st).
Proof.
  induction names as [|n rest IH]; intros st; simpl.
  - unfold done_then. by destruct (truthy cb).
  - change (promises (log Debug (MRunning n) st) !! n) with (promises st !! n).
    destruct (promises st !! n) as [a|].
    + eapply kept_trans; [|apply kept_start_action]. done.
    + eapply kept_trans; [|apply IH]. done.
Qed.

Ltac reg_atom :=
  first [ done
        | apply kept_trigger; done
        | eapply kept_trans; [|apply kept_done_catch]; done ].

Lemma kept_step e ev st : configuration_kept st (step e ev st).
Proof.
  unfold step.
  destruct (exited st) eqn:Hex; [done|].
  destruct ev as [signal err | i | i r].
  - destruct (bool_decide _); [|done].
    unfold on_process_event. destruct err as [m|]; reg_atom.
  - destruct (timers st !! i) as [[[id cb] ms]|]; [|done].
    destruct cb as [| |hl|hosts|]; simpl.
    + unfold checkDb. simpl. destruct (knexObject st); simpl; [done|].
      unfold on_process_event. reg_atom.
    + unfold checkDb. simpl. destruct (knexObject st); simpl; [done|].
      unfold on_process_event. reg_atom.
    + by rewrite pingHosts_eq.
    + rewrite pingHosts_call_eq. destruct (all_hosts _) as [hl|].
      * by rewrite pingHosts_eq.
      * unfold on_process_event. by apply kept_trigger.
    + unfold force_exit, exitProcess, process_exit. simpl. by rewrite Hex.
  - destruct (pending st !! i) as [p|]; [|done].
    destruct p as [|hl|td c|a rest cb|].
    + destruct r as [|err]; simpl.
      * unfold checkDb_then. simpl. by destruct (dbFailing st).
      * unfold checkDb_catch. simpl.
        destruct (dbFailureCount st <? dbFailureMax st)%Z; reg_atom.
    + destruct r as [|err]; simpl.
      * unfold pingHosts_then. simpl.
        by destruct (pingFailing st) as [h|]; [destruct (String.eqb h "")|].
      * unfold pingHosts_catch. simpl.
        destruct (pingFailureCount st <? pingFailureMax st)%Z; reg_atom.
    + simpl. unfold close_settled.
      destruct r as [|err]; simpl.
      * destruct c; simpl.
        all: destruct (teardowns st !! td) as [t|]; [|done].
        all: destruct (td_settled t); [done|].
        all: destruct (pred (td_remaining t) =? 0)%nat; [|done].
        all: unfold all_closed, exitProcess, process_exit; simpl; rewrite Hex.
        all: done.
      * destruct (teardowns st !! td) as [t|]; [|done].
        by destruct (td_settled t).
    + destruct r as [|err]; simpl.
      * eapply kept_trans; [|apply kept_seqPromise]. by destruct a.
      * reg_atom.
    + destruct r as [|err]; simpl; reg_atom.
Qed.

(** ** The startup registry *)

Lemma kept_chain_done e cb st : configuration_kept st (chain_done e cb st).
Proof. unfold chain_done. eapply kept_trans; [|apply kept_seqPromise]. done. Qed.

(** What each call does to the registry. *)
Lemma registry_react e i st :
  (promiseOrder (react e st i) = promiseOrder st /\
   promises (react e st i) = promises st /\
   countCustom (react e st i) = countCustom st) \/
  (exists name a,
     promiseOrder (react e st i) = promiseOrder st ++ [name] /\
     promises (react e st i) = <[name := a]> (promises st) /\
     (name = "cache" \/ name = "amq" \/ name = "express") /\
     countCustom (react e st i) = countCustom st) \/
  (exists prm,
     promiseOrder (react e st i) = promiseOrder st ++ ["custom" +:+ pretty (countCustom st)] /\
     promises (react e st i) =
       <["custom" +:+ pretty (countCustom st) := ACustom prm]> (promises st) /\
     countCustom (react e st i) = countCustom st + 1).
Proof.
  destruct i as [c|ev].
  2: { left. destruct (kept_step e ev st) as (?&?&?&_). done. }
  simpl. destruct (exited st); [by left|].
  destruct c as [u o|u|o|app port|o|prm|prm|cb]; simpl.
  - left. unfold chain_ping. destruct (negb (truthy u) || negb (isArray u)); [done|].
    by destruct (truthy_num o failureMax), (truthy_num o frequency), (parse_hosts e _).
  - unfold chain_cache. destruct (negb (truthy u)); [by left|].
    right; left. eexists _, _. repeat split; auto.
  - right; left. eexists _, _. repeat split; auto.
  - unfold chain_express. destruct (negb (truthy app)); [by left|].
    right; left. eexists _, _. repeat split; auto.
  - left. unfold chain_db.
    by destruct (truthy_num o failureMax), (truthy_num o frequency).
  - right; right. exists prm. done.
  - by left.
  - left. destruct (kept_chain_done e cb st) as (?&?&?&_). done.
Qed.

Lemma registered_react e i st : registered st -> registered (react e st i).
Proof.
  unfold registered. intros H.
  destruct (registry_react e i st) as [(->&->&_) | [(name&a&->&->&_) | (prm&->&->&_)]].
  - done.
  - apply Forall_app. split.
    + eapply Forall_impl; [exact H|]. intros n [b Hb]. simpl.
      destruct (decide (name = n)) as [->|Hne].
      * rewrite lookup_insert_eq. by eexists.
      * rewrite lookup_insert_ne by done. by eexists.
    + repeat constructor. rewrite lookup_insert_eq. by eexists.
  - apply Forall_app. split.
    + eapply Forall_impl; [exact H|]. intros n [b Hb]. simpl.
      destruct (decide ("custom" +:+ pretty (countCustom st) = n)) as [->|Hne].
      * rewrite lookup_insert_eq. by eexists.
      * rewrite lookup_insert_ne by done. by eexists.
    + repeat constructor. rewrite lookup_insert_eq. by eexists.
Qed.

Lemma registered_run e ins : forall st, registered st -> registered (run e ins st).
Proof.
  induction ins as [|i ins IH]; intros st H; [done|].
  change (run e (i :: ins) st) with (run e ins (react e st i)).
  by apply IH, registered_react.
Qed.

(** X4: whatever was called on the chain and whatever happened since, every
    name in [promiseOrder] has a closure in [promises], so [done] never takes
    its fallback for a name without one. *)
Theorem registered_names_have_closures (e : env) (ins : list input) (n : string) :
  let st := run e ins serviceLoader in
  n ∈ promiseOrder st -> exists a, promises st !! n = Some a.
Proof.
  intros st Hn.
  assert (H : registered st) by (apply registered_run; constructor).
  unfold registered in H. rewrite Forall_forall in H. exact (H n Hn).
Qed.

Lemma registered_names_have_closures_witness :
  exists a,
    promises (run sample_env [Invoke (Cache (JStr "redis://h"))] serviceLoader) !! "cache"
    = Some a.
Proof.
  apply (registered_names_have_closures sample_env [Invoke (Cache (JStr "redis://h"))]
           "cache").
  apply list_elem_of_here.
Defined.

Lemma custom_not_builtin s name :
  name = "cache" \/ name = "amq" \/ name = "express" -> "custom" +:+ s ≠ name.
Proof. intros [-> | [-> | ->]]; discriminate. Qed.

Lemma custom_inj (k1 k2 : nat) : "custom" +:+ pretty k1 = "custom" +:+ pretty k2 -> k1 = k2.
Proof. intros H. apply (inj _) in H. by apply (inj pretty) in H. Qed.

Lemma custom_fresh_react e i st : custom_fresh st -> custom_fresh (react e st i).
Proof.
  unfold custom_fresh. intros H.
  destruct (registry_react e i st)
    as [(->&->&->) | [(name&a&->&->&Hn&->) | (prm&->&->&->)]].
  - done.
  - intros k Hk. destruct (H k Hk) as [H1 H2].
    pose proof (custom_not_builtin (pretty k) name Hn) as Hne.
    split.
    + rewrite elem_of_app, list_elem_of_singleton. tauto.
    + by rewrite lookup_insert_ne.
  - intros k Hk. destruct (H k) as [H1 H2]; [lia|].
    assert (Hne : "custom" +:+ pretty k ≠ "custom" +:+ pretty (countCustom st)).
    { intros Heq%custom_inj. lia. }
    split.
    + rewrite elem_of_app, list_elem_of_singleton. tauto.
    + by rewrite lookup_insert_ne.
Qed.

Lemma custom_fresh_run e ins : forall st, custom_fresh st -> custom_fresh (run e ins st).
Proof.
  induction ins as [|i ins IH]; intros st H; [done|].
  change (run e (i :: ins) st) with (run e ins (react e st i)).
  by apply IH, custom_fresh_react.
Qed.

(** X5: the name the next [then] will use, custom followed by the counter,
    is always unused: the call appends it to [promiseOrder], stores the new
    closure under it and leaves the closure of every name registered before
    as it was. *)
Theorem then_never_replaces_an_action (e : env) (ins : list input) (prm : jsval) :
  let st := run e ins serviceLoader in
  let name := "custom" +:+ pretty (countCustom st) in
  (name ∉ promiseOrder st) /\
  promises st !! name = None /\
  exists st',
    chain_then prm st = Ok st' /\
    promiseOrder st' = promiseOrder st ++ [name] /\
    promises st' !! name = Some (ACustom prm) /\
    forall n, n ∈ promiseOrder st -> promises st' !! n = promises st !! n.
Proof.
  intros st name.
  assert (H : custom_fresh st).
  { apply custom_fresh_run. intros k _. split; [apply not_elem_of_nil | done]. }
  destruct (H (countCustom st) (le_n _)) as [H1 H2].
  split; [done|]. split; [done|].
  eexists. split; [reflexivity|]. simpl.
  split; [done|]. split; [by rewrite lookup_insert_eq|].
  intros n Hn. rewrite lookup_insert_ne; [done|]. intros <-. done.
Qed.

(** X6: signals, timers, settling promises and [done] change nothing of what
    the chain configured: the registered names and closures, the counter of
    custom names, the exit hook, both ceilings and both frequencies, and the
    pool handle (which therefore stays set after a shutdown has called the
    pool's destroy). *)
Theorem run_time_keeps_configuration (e : env) (ins : list input) (st : state) :
  forallb (fun i => negb (configures i)) ins = true ->
  configuration_kept st (run e ins st).
Proof.
  revert st. induction ins as [|i ins IH]; intros st H; [by repeat split|].
  simpl in H. apply andb_true_iff in H as [Hi Hins].
  change (run e (i :: ins) st) with (run e ins (react e st i)).
  eapply kept_trans; [|by apply IH].
  destruct i as [c|ev]; [|apply kept_step].
  simpl. destruct (exited st); [by repeat split|].
  destruct c; try discriminate Hi. apply kept_chain_done.
Qed.

Lemma run_time_keeps_configuration_witness :
  configuration_kept
    (run sample_env [Invoke (Db None); Invoke (Cache (JStr "redis://h"))] serviceLoader)
    (run sample_env
       [Invoke (Done JUndefined); Happen (EvSettle 0 Resolved);
        Happen (EvSignal "SIGTERM" None); Happen (EvSettle 0 Resolved)]
       (run sample_env [Invoke (Db None); Invoke (Cache (JStr "redis://h"))] serviceLoader)).
Proof. apply run_time_keeps_configuration. reflexivity. Defined.

(** ** Timer handles *)

Lemma handles_mono st st' :
  timeouts st' = timeouts st -> nextTimer st <= nextTimer st' ->
  handles_issued st -> handles_issued st'.
Proof.
  unfold handles_issued. intros -> Hle H.
  eapply Forall_impl; [exact H|]. intros kv Hkv. simpl in *. lia.
Qed.

Lemma Forall_obj_set {A} (P : string * A -> Prop) k v (o : list (string * A)) :
  (forall k', P (k', v)) -> Forall P o -> Forall P (obj_set k v o).
Proof.
  intros Hv H. induction H as [|[k' v'] o Hk Ho IH]; simpl.
  - by repeat constructor.
  - destruct (String.eqb k' k); constructor; auto.
Qed.

Lemma handles_setTimeout_as k cb ms st :
  handles_issued st -> handles_issued (setTimeout_as k cb ms st).
Proof.
  unfold handles_issued, setTimeout_as. simpl. intros H.
  apply Forall_obj_set; [intros; simpl; lia|].
  eapply Forall_impl; [exact H|]. intros kv Hkv. simpl in *. lia.
Qed.

Lemma handles_closeGracefully signal st :
  handles_issued st -> handles_issued (closeGracefully signal st).
Proof.
  intros H. destruct (waitingForExit st) eqn:Hw.
  - by rewrite closeGracefully_latched.
  - rewrite closeGracefully_first by done.
    apply (handles_mono st); [reflexivity | simpl; lia | exact H].
Qed.

Lemma handles_trigger signal st :
  handles_issued st -> handles_issued (set_waitingForExit true (closeGracefully signal st)).
Proof. intros H. by apply (handles_closeGracefully signal) in H. Qed.

Lemma nextTimer_done_catch err st : nextTimer (done_catch err st) = nextTimer st.
Proof. unfold done_catch, exitProcess, process_exit. simpl. by destruct (exited st). Qed.

Lemma nextTimer_seqPromise e cb names : forall st,
  nextTimer (seqPromise e names cb st) = nextTimer st.
Proof.
  induction names as [|n rest IH]; intros st; simpl.
  - unfold done_then. by destruct (truthy cb).
  - change (promises (log Debug (MRunning n) st) !! n) with (promises st !! n).
    destruct (promises st !! n) as [a|]; [|by rewrite IH].
    unfold start_action. destruct a as [u|o|app port|prm]; try done.
    destruct (if is_function app then _ else _); [|done].
    by rewrite nextTimer_done_catch.
Qed.

Lemma handles_startup e st st' :
  startup_frame e st st' -> nextTimer st' = nextTimer st ->
  handles_issued st -> handles_issued st'.
Proof.
  intros (_&F2&_) Hn H. eapply handles_mono; [exact F2 | lia | exact H].
Qed.

Ltac handles_atom H :=
  first
    [ exact H
    | apply handles_trigger; handles_atom H
    | apply handles_setTimeout_as; handles_atom H
    | match type of H with
      | handles_issued ?s => apply (handles_mono s); [reflexivity | simpl; lia | exact H]
      end ].

Lemma handles_step e ev st : handles_issued st -> handles_issued (step e ev st).
Proof.
  intros H. unfold step.
  destruct (exited st) eqn:Hex; [done|].
  destruct ev as [signal err | i | i r].
  - destruct (bool_decide _); [|done].
    unfold on_process_event. destruct err as [m|]; handles_atom H.
  - destruct (timers st !! i) as [[[id cb] ms]|]; [|done].
    destruct cb as [| |hl|hosts|]; simpl.
    + unfold checkDb. simpl. destruct (knexObject st); simpl; [handles_atom H|].
      unfold on_process_event. handles_atom H.
    + unfold checkDb. simpl. destruct (knexObject st); simpl; [handles_atom H|].
      unfold on_process_event. handles_atom H.
    + rewrite pingHosts_eq. handles_atom H.
    + rewrite pingHosts_call_eq. destruct (all_hosts _) as [hl|].
      * rewrite pingHosts_eq. handles_atom H.
      * unfold on_process_event, null_cycle. handles_atom H.
    + unfold force_exit, exitProcess, process_exit. simpl. rewrite Hex. handles_atom H.
  - destruct (pending st !! i) as [p|]; [|done].
    destruct p as [|hl|td c|a rest cb|].
    + destruct r as [|err]; simpl.
      * unfold checkDb_then. simpl. destruct (dbFailing st); handles_atom H.
      * unfold checkDb_catch. simpl.
        destruct (dbFailureCount st <? dbFailureMax st)%Z; handles_atom H.
    + destruct r as [|err]; simpl.
      * unfold pingHosts_then. simpl.
        destruct (pingFailing st) as [h|]; [destruct (String.eqb h "")|]; handles_atom H.
      * unfold pingHosts_catch. simpl.
        destruct (pingFailureCount st <? pingFailureMax st)%Z; handles_atom H.
    + simpl. unfold close_settled.
      destruct r as [|err]; simpl.
      * destruct c; simpl.
        all: destruct (teardowns st !! td) as [t|]; [|handles_atom H].
        all: destruct (td_settled t); [handles_atom H|].
        all: destruct (pred (td_remaining t) =? 0)%nat; [|handles_atom H].
        all: unfold all_closed, exitProcess, process_exit; simpl; rewrite Hex.
        all: handles_atom H.
      * destruct (teardowns st !! td) as [t|]; [|handles_atom H].
        destruct (td_settled t); handles_atom H.
    + eapply (handles_startup e (set_pending (delete i (pending st)) st));
        [apply startup_frame_settle_action | | handles_atom H].
      destruct r as [|err].
      * simpl. rewrite nextTimer_seqPromise. by destruct a.
      * exact (nextTimer_done_catch err _).
    + destruct r as [|err]; simpl; [handles_atom H|].
      unfold done_catch, exitProcess, process_exit. simpl. rewrite Hex. handles_atom H.
Qed.

Lemma handles_apply_call e c st st' :
  apply_call e c st = Ok st' -> handles_issued st -> handles_issued st'.
Proof.
  intros Hc H. destruct c as [u o|u|o|app port|o|prm|prm|cb]; simpl in Hc.
  - unfold chain_ping in Hc. destruct (negb (truthy u) || negb (isArray u)); [done|].
    destruct (parse_hosts e _) as [m'|hosts]; [done|].
    injection Hc as <-.
    destruct (truthy_num o failureMax), (truthy_num o frequency); handles_atom H.
  - unfold chain_cache in Hc. destruct (negb (truthy u)); [done|].
    injection Hc as <-. handles_atom H.
  - injection Hc as <-. handles_atom H.
  - unfold chain_express in Hc. destruct (negb (truthy app)); [done|].
    injection Hc as <-. handles_atom H.
  - unfold chain_db in Hc. injection Hc as <-.
    destruct (truthy_num o failureMax), (truthy_num o frequency); handles_atom H.
  - injection Hc as <-. handles_atom H.
  - injection Hc as <-. handles_atom H.
  - injection Hc as <-.
    eapply handles_startup; [apply startup_frame_chain_done | | exact H].
    unfold chain_done. by rewrite nextTimer_seqPromise.
Qed.

Lemma handles_run e ins : forall st, handles_issued st -> handles_issued (run e ins st).
Proof.
  induction ins as [|i ins IH]; intros st H; [done|].
  change (run e (i :: ins) st) with (run e ins (react e st i)).
  apply IH. destruct i as [c|ev]; simpl; [|by apply handles_step].
  destruct (exited st); [done|].
  destruct (apply_call e c st) as [st'|m st'] eqn:Hc.
  2: { thrown Hc; handles_atom H. }
  by eapply handles_apply_call.
Qed.

(** ** The pool handle and the check loop *)

Lemma idle_apply_call e c st st' :
  apply_call e c st = Ok st' -> db_idle st ->
  knexObject st' = truthy (getKnexObject e) \/ db_idle st'.
Proof.
  intros Hc [Hp Ht]. destruct c as [u o|u|o|app port|o|prm|prm|cb]; simpl in Hc.
  - unfold chain_ping in Hc. destruct (negb (truthy u) || negb (isArray u)); [done|].
    destruct (parse_hosts e _) as [m'|hosts]; [done|].
    injection Hc as <-. right.
    destruct (truthy_num o failureMax), (truthy_num o frequency); split; simpl;
      rewrite ?Forall_app; repeat split; try assumption; by repeat constructor.
  - unfold chain_cache in Hc. destruct (negb (truthy u)); [done|].
    injection Hc as <-. by right.
  - injection Hc as <-. by right.
  - unfold chain_express in Hc. destruct (negb (truthy app)); [done|].
    injection Hc as <-. by right.
  - unfold chain_db in Hc. injection Hc as <-. left.
    by destruct (truthy_num o failureMax), (truthy_num o frequency).
  - injection Hc as <-. by right.
  - injection Hc as <-. by right.
  - injection Hc as <-. right.
    by destruct (idle_startup e st st (chain_done e cb st)
                   (startup_frame_chain_done e cb st) (conj Hp Ht) eq_refl).
Qed.

Lemma knexObject_apply_call e c st st' :
  apply_call e c st = Ok st' ->
  knexObject st = truthy (getKnexObject e) -> knexObject st' = truthy (getKnexObject e).
Proof.
  intros Hc H. destruct c as [u o|u|o|app port|o|prm|prm|cb]; simpl in Hc.
  - unfold chain_ping in Hc. destruct (negb (truthy u) || negb (isArray u)); [done|].
    destruct (parse_hosts e _) as [m'|hosts]; [done|].
    injection Hc as <-.
    by destruct (truthy_num o failureMax), (truthy_num o frequency).
  - unfold chain_cache in Hc. destruct (negb (truthy u)); [done|]. by injection Hc as <-.
  - by injection Hc as <-.
  - unfold chain_express in Hc. destruct (negb (truthy app)); [done|].
    by injection Hc as <-.
  - unfold chain_db in Hc. injection Hc as <-.
    by destruct (truthy_num o failureMax), (truthy_num o frequency).
  - by injection Hc as <-.
  - by injection Hc as <-.
  - injection Hc as <-. destruct (kept_chain_done e cb st) as (_&_&_&->&_). done.
Qed.

Lemma pool_or_idle_run e ins : forall st,
  pool_or_idle e st -> pool_or_idle e (run e ins st).
Proof.
  induction ins as [|i ins IH]; intros st H; [done|].
  change (run e (i :: ins) st) with (run e ins (react e st i)).
  apply IH. destruct i as [c|ev]; simpl.
  - destruct (exited st); [done|].
    destruct (apply_call e c st) as [st'|m st'] eqn:Hc.
    2: { thrown Hc; exact H. }
    destruct H as [H|H]; [left; by eapply knexObject_apply_call | by eapply idle_apply_call].
  - destruct H as [H|H].
    + left. destruct (kept_step e ev st) as (_&_&_&->&_). done.
    + right. by destruct (idle_step e ev st H).
Qed.

Lemma pool_or_idle_reachable e ins : pool_or_idle e (run e ins serviceLoader).
Proof. apply pool_or_idle_run. right. split; constructor. Qed.

(** *** A loader whose client handle is falsy *)

Lemma unprobed_closeGracefully signal st :
  unprobed st ->
  unprobed (closeGracefully signal st) /\
  queries (closeGracefully signal st) = queries st.
Proof.
  intros [H1 H2]. destruct (waitingForExit st) eqn:Hw.
  - by rewrite closeGracefully_latched.
  - rewrite closeGracefully_first by done. split; [split|]; simpl.
    + apply Forall_app. split; [done|].
      generalize (teardown_actions st). intros l. induction l; simpl; by constructor.
    + apply Forall_app. split; [by apply Forall_cleared | by repeat constructor].
    + unfold queries. simpl.
      rewrite !List.filter_app, queries_rev_map_false by done.
      by destruct (bool_decide _).
Qed.

Lemma unprobed_trigger signal x st :
  unprobed x -> queries x = queries st ->
  unprobed (set_waitingForExit true (closeGracefully signal x)) /\
  queries (set_waitingForExit true (closeGracefully signal x)) = queries st.
Proof.
  intros Hx Hq. destruct (unprobed_closeGracefully signal x Hx) as [H1 H2].
  split; [exact H1|]. by rewrite <- Hq, <- H2.
Qed.

Lemma unprobed_pingHosts hl x st :
  unprobed x -> queries x = queries st ->
  unprobed (pingHosts hl x) /\ queries (pingHosts hl x) = queries st.
Proof.
  intros [H1 H2] <-. rewrite pingHosts_eq. split; [split|]; simpl.
  - apply Forall_app. split; [done | by repeat constructor].
  - done.
  - unfold queries. simpl. by rewrite List.filter_app, queries_rev_map_false.
Qed.

Lemma unprobed_null_logged m hl x st :
  unprobed x -> queries x = queries st ->
  unprobed (log Error (MErr m) (null_cycle hl x)) /\
  queries (log Error (MErr m) (null_cycle hl x)) = queries st.
Proof.
  intros [H1 H2] <-. split; [split|]; simpl; [done | done |].
  unfold queries, null_cycle. simpl. by rewrite List.filter_app, queries_rev_map_false.
Qed.

Lemma unprobed_startup e x st st' :
  startup_frame e x st' -> unprobed x -> queries x = queries st ->
  unprobed st' /\ queries st' = queries st.
Proof.
  intros (F1&_&_&_&_&_&_&_&F9&F10&_) [H1 H2] <-.
  split; [split|done].
  - apply filter_nil_Forall. rewrite F10. by apply filter_nil_Forall.
  - by rewrite F1.
Qed.

Ltac unprobed_goal Hp Ht :=
  simpl; rewrite ?Forall_app; repeat split;
  try (apply Forall_delete); try assumption; try reflexivity;
  try (repeat constructor; fail).

Ltac unprobed_atom Hp Ht :=
  first
    [ apply unprobed_trigger; [split|]; unprobed_goal Hp Ht
    | split; [split|]; unprobed_goal Hp Ht ].

Lemma unprobed_step e ev st :
  knexObject st = false -> unprobed st ->
  unprobed (step e ev st) /\ queries (step e ev st) = queries st.
Proof.
  intros Hk H. pose proof H as [Hp Ht]. unfold step.
  destruct (exited st) eqn:Hex; [done|].
  destruct ev as [signal err | i | i r].
  - destruct (bool_decide _); [|done].
    unfold on_process_event. destruct err as [m|]; unprobed_atom Hp Ht.
  - destruct (timers st !! i) as [[[id cb] ms]|] eqn:Hi; [|done].
    assert (Hcb : is_retry (id, cb, ms) = false).
    { rewrite Forall_forall in Ht. apply Ht. by eapply list_elem_of_lookup_2. }
    destruct cb as [| |hl|hosts|]; try discriminate Hcb; simpl.
    + unfold checkDb. simpl. rewrite Hk. simpl.
      unfold on_process_event. unprobed_atom Hp Ht.
    + apply unprobed_pingHosts; [split|]; unprobed_goal Hp Ht.
    + rewrite pingHosts_call_eq. destruct (all_hosts _) as [hl|].
      * apply unprobed_pingHosts; [split|]; unprobed_goal Hp Ht.
      * unfold on_process_event.
        destruct (unprobed_null_logged split_of_null (uniqueValues hosts)
                    (set_timers (delete i (timers st)) st) st) as [A B];
          [split; unprobed_goal Hp Ht | reflexivity |].
        by apply unprobed_trigger.
    + unfold force_exit, exitProcess, process_exit. simpl. rewrite Hex.
      unprobed_atom Hp Ht.
  - destruct (pending st !! i) as [p|] eqn:Hi; [|done].
    assert (Hpr : is_probe p = false).
    { rewrite Forall_forall in Hp. apply Hp. by eapply list_elem_of_lookup_2. }
    destruct p as [|hl|td c|a rest cb|]; try discriminate Hpr.
    + destruct r as [|err]; simpl.
      * unfold pingHosts_then. simpl.
        destruct (pingFailing st) as [h|]; [destruct (String.eqb h "")|];
          unprobed_atom Hp Ht.
      * unfold pingHosts_catch. simpl.
        destruct (pingFailureCount st <? pingFailureMax st)%Z; unprobed_atom Hp Ht.
    + simpl. unfold close_settled.
      destruct r as [|err]; simpl.
      * destruct c; simpl.
        all: destruct (teardowns st !! td) as [t|]; [|unprobed_atom Hp Ht].
        all: destruct (td_settled t); [unprobed_atom Hp Ht|].
        all: destruct (pred (td_remaining t) =? 0)%nat; [|unprobed_atom Hp Ht].
        all: unfold all_closed, exitProcess, process_exit; simpl; rewrite Hex.
        all: unprobed_atom Hp Ht.
      * destruct (teardowns st !! td) as [t|]; [|unprobed_atom Hp Ht].
        destruct (td_settled t); unprobed_atom Hp Ht.
    + eapply (unprobed_startup e (set_pending (delete i (pending st)) st));
        [apply startup_frame_settle_action | | reflexivity].
      split; simpl; [by apply Forall_delete | done].
    + destruct r as [|err]; simpl; [unprobed_atom Hp Ht|].
      unfold done_catch, exitProcess, process_exit. simpl. rewrite Hex.
      unprobed_atom Hp Ht.
Qed.

Lemma unprobed_apply_call e c st st' :
  apply_call e c st = Ok st' -> unprobed st ->
  unprobed st' /\ queries st' = queries st.
Proof.
  intros Hc [Hp Ht]. destruct c as [u o|u|o|app port|o|prm|prm|cb]; simpl in Hc.
  - unfold chain_ping in Hc. destruct (negb (truthy u) || negb (isArray u)); [done|].
    destruct (parse_hosts e _) as [m'|hosts]; [done|].
    injection Hc as <-.
    destruct (truthy_num o failureMax), (truthy_num o frequency);
      (split; [split|]); unprobed_goal Hp Ht.
  - unfold chain_cache in Hc. destruct (negb (truthy u)); [done|].
    by injection Hc as <-.
  - by injection Hc as <-.
  - unfold chain_express in Hc. destruct (negb (truthy app)); [done|].
    by injection Hc as <-.
  - unfold chain_db in Hc. injection Hc as <-.
    destruct (truthy_num o failureMax), (truthy_num o frequency);
      (split; [split|]); unprobed_goal Hp Ht.
  - by injection Hc as <-.
  - by injection Hc as <-.
  - injection Hc as <-.
    exact (unprobed_startup e st st (chain_done e cb st)
             (startup_frame_chain_done e cb st) (conj Hp Ht) eq_refl).
Qed.

Lemma no_handle_run e ins : forall st,
  truthy (getKnexObject e) = false -> knexObject st = false -> unprobed st ->
  knexObject (run e ins st) = false /\ unprobed (run e ins st) /\
  queries (run e ins st) = queries st.
Proof.
  induction ins as [|i ins IH]; intros st Hf Hk H; [done|].
  change (run e (i :: ins) st) with (run e ins (react e st i)).
  assert (R : knexObject (react e st i) = false /\ unprobed (react e st i) /\
              queries (react e st i) = queries st).
  { destruct i as [c|ev]; simpl.
    - destruct (exited st); [done|].
      destruct (apply_call e c st) as [st'|m st'] eqn:Hc.
      2: { thrown Hc; done. }
      split.
      + rewrite <- Hf. eapply knexObject_apply_call; [exact Hc | congruence].
      + by eapply unprobed_apply_call.
    - split; [|by apply unprobed_step].
      destruct (kept_step e ev st) as (_&_&_&->&_). done. }
  destruct R as (R1 & R2 & R3).
  destruct (IH _ Hf R1 R2) as (I1 & I2 & I3).
  split; [exact I1 | split; [exact I2 | congruence]].
Qed.

Lemma no_handle_reachable e ins :
  truthy (getKnexObject e) = false ->
  knexObject (run e ins serviceLoader) = false /\
  unprobed (run e ins serviceLoader) /\
  queries (run e ins serviceLoader) = 0.
Proof.
  intros Hf. apply (no_handle_run e ins serviceLoader Hf); [done|].
  split; constructor.
Qed.

(** A probe in flight was sent through a truthy handle. *)
Lemma probe_needs_handle e ins :
  PProbe ∈ pending (run e ins serviceLoader) ->
  knexObject (run e ins serviceLoader) = true.
Proof.
  intros Hin. destruct (truthy (getKnexObject e)) eqn:Hf.
  - destruct (pool_or_idle_reachable e ins) as [H|[H _]]; [congruence|].
    rewrite Forall_forall in H. by pose proof (H PProbe Hin).
  - destruct (no_handle_reachable e ins Hf) as (_ & [H _] & _).
    rewrite Forall_forall in H. by pose proof (H PProbe Hin).
Qed.

(** X7: the guard of [checkDb] is decided when the database is configured.
    In any run of a loader, when a timer that calls [checkDb] is pending,
    [knexObject] holds the truthiness of what [dbLoader.getKnexObject()]
    returned.  If that is truthy, firing the timer logs the check and sends
    the probe.  If it is falsy, the timer is a first check (no retry is ever
    scheduled), no probe was ever sent, and firing the timer throws
    "knexObject not defined" out of the timer callback: the handler of
    uncaughtException logs it and starts a shutdown. *)
Theorem check_outcome_follows_handle (e : env) (ins : list input) (i id : nat)
    (cb : callback) (ms : Z) :
  let st := run e ins serviceLoader in
  exited st = None ->
  timers st !! i = Some (id, cb, ms) ->
  is_db_callback (id, cb, ms) = true ->
  let x := set_timers (delete i (timers st)) st in
  knexObject st = truthy (getKnexObject e) /\
  if truthy (getKnexObject e)
  then step e (EvTimer i) st = add_pending PProbe (emit Query (log Debug MCheckDb x))
  else cb = CbCheckDb /\ queries st = 0 /\
       step e (EvTimer i) st =
         set_waitingForExit true
           (closeGracefully "uncaughtException"
              (log Error (MErr "knexObject not defined") x)).
Proof.
  intros st Hex Hi Hcb x.
  assert (Hk : knexObject st = truthy (getKnexObject e)).
  { destruct (pool_or_idle_reachable e ins) as [H|[_ H]]; [done|]. fold st in H.
    rewrite Forall_forall in H.
    rewrite (H (id, cb, ms)) in Hcb; [done | by eapply list_elem_of_lookup_2]. }
  split; [done|].
  destruct (truthy (getKnexObject e)) eqn:Hf.
  - unfold step. rewrite Hex, Hi.
    destruct cb; try discriminate Hcb; simpl; unfold checkDb; simpl; by rewrite Hk.
  - destruct (no_handle_reachable e ins Hf) as (_ & [_ Ht] & Hq). fold st in Ht, Hq.
    assert (Hr : is_retry (id, cb, ms) = false).
    { rewrite Forall_forall in Ht. apply Ht. by eapply list_elem_of_lookup_2. }
    destruct cb; try discriminate Hcb; try discriminate Hr.
    split; [done|]. split; [done|].
    unfold step. rewrite Hex, Hi. simpl. unfold checkDb. simpl. by rewrite Hk.
Qed.

Lemma check_outcome_follows_handle_witness :
  queries (step sample_env (EvTimer 0) (run sample_env [Invoke (Db None)] serviceLoader)) = 1
  /\
  waitingForExit
    (step no_pool_env (EvTimer 0) (run no_pool_env [Invoke (Db None)] serviceLoader)) = true.
Proof.
  split.
  - pose proof (check_outcome_follows_handle sample_env [Invoke (Db None)] 0 0 CbCheckDb
                  10000%Z eq_refl eq_refl eq_refl) as [_ H].
    cbv zeta in H. simpl truthy in H. cbv iota in H. rewrite H. reflexivity.
  - pose proof (check_outcome_follows_handle no_pool_env [Invoke (Db None)] 0 0 CbCheckDb
                  10000%Z eq_refl eq_refl eq_refl) as [_ H].
    cbv zeta in H. simpl truthy in H. cbv iota in H. destruct H as (_ & _ & H).
    rewrite H. reflexivity.
Defined.

(** ** Timers a shutdown does not reach *)

Lemma Forall_obj_set_twice {A} (P : string * A -> Prop) k v1 v2 (o : list (string * A)) :
  P (k, v2) -> Forall P o -> Forall P (obj_set k v2 (obj_set k v1 o)).
Proof.
  intros Hv H. induction H as [|[k' v'] o Hk Ho IH]; simpl.
  - rewrite String.eqb_refl. by repeat constructor.
  - destruct (String.eqb k' k) eqn:E; simpl; rewrite E.
    + apply String.eqb_eq in E as ->. by constructor.
    + by constructor.
Qed.

Lemma elem_of_obj_set {A} k (v : A) (o : list (string * A)) : (k, v) ∈ obj_set k v o.
Proof.
  induction o as [|[k' v'] o IH]; simpl.
  - by left.
  - destruct (String.eqb k' k) eqn:E.
    + apply String.eqb_eq in E as ->. by left.
    + by right.
Qed.

Lemma handles_differ st :
  handles_issued st -> Forall (fun kv : string * nat => nextTimer st ≠ kv.2) (timeouts st).
Proof.
  unfold handles_issued. intros H. eapply Forall_impl; [exact H|].
  intros kv Hkv. simpl in *. lia.
Qed.

(** X8: configuring the database twice schedules two first checks, but
    timeouts.initialCheckDb keeps only the second handle: a shutdown clears
    the second timer and leaves the first one pending. *)
Theorem overwritten_check_survives_shutdown (e : env) (ins : list input)
    (o1 o2 : option options) (signal : string) :
  let st := run e ins serviceLoader in
  exited st = None -> waitingForExit st = false ->
  let st2 := run e [Invoke (Db o1); Invoke (Db o2)] st in
  let first := (nextTimer st, CbCheckDb, 10000%Z) in
  let second := (S (nextTimer st), CbCheckDb, 10000%Z) in
  timers st2 = timers st ++ [first; second] /\
  first ∈ timers (closeGracefully signal st2) /\
  second ∉ timers (closeGracefully signal st2).
Proof.
  intros st Hex Hw st2 first second.
  assert (Hh : handles_issued st) by (apply handles_run; constructor).
  apply handles_differ in Hh.
  assert (E2 : timers st2 = timers st ++ [first; second] /\
               timeouts st2 = obj_set "initialCheckDb" (S (nextTimer st))
                                (obj_set "initialCheckDb" (nextTimer st) (timeouts st)) /\
               waitingForExit st2 = false /\ nextTimer st2 = S (S (nextTimer st))).
  { subst st2. unfold run. simpl. rewrite Hex. unfold chain_db.
    destruct (truthy_num o1 failureMax), (truthy_num o1 frequency); simpl; rewrite Hex;
      destruct (truthy_num o2 failureMax), (truthy_num o2 frequency); simpl;
      rewrite <- ?app_assoc; done. }
  destruct E2 as (Et & Eo & Ew & En).
  split; [done|].
  rewrite closeGracefully_first by done. simpl.
  rewrite !elem_of_app, !elem_of_cleared, Et, Eo. split.
  - left. split; [rewrite elem_of_app; right; by left|].
    apply Forall_obj_set_twice; [simpl; lia | done].
  - intros [[_ H]|H].
    + rewrite Forall_forall in H.
      by apply (H ("initialCheckDb", S (nextTimer st)) (elem_of_obj_set _ _ _)).
    + apply list_elem_of_singleton in H. discriminate H.
Qed.

Lemma overwritten_check_survives_shutdown_witness :
  (0, CbCheckDb, 10000%Z) ∈
    timers (closeGracefully "SIGTERM"
              (run sample_env [Invoke (Db None); Invoke (Db None)] serviceLoader)).
Proof.
  pose proof (overwritten_check_survives_shutdown sample_env [] None None "SIGTERM") as H.
  destruct H as (_ & H & _); [reflexivity | reflexivity | exact H].
Defined.

(** X9: a backoff retry of the database check is a timer that [timeouts]
    does not know.  When a shutdown is triggered while it is pending, the
    pool's destroy is called and the retry stays pending; when it fires, the
    next probe is sent all the same. *)
Theorem backoff_retry_survives_shutdown (e : env) (ins : list input) (i : nat)
    (err signal : string) (sigerr : option string) :
  let st := run e ins serviceLoader in
  exited st = None -> waitingForExit st = false ->
  pending st !! i = Some PProbe ->
  (dbFailureCount st < dbFailureMax st)%Z ->
  signal ∈ handled_events ->
  let st1 := step e (EvSettle i (Rejected err)) st in
  let st2 := step e (EvSignal signal sigerr) st1 in
  let retry := (nextTimer st, CbRetryCheckDb, (2000 * (dbFailureCount st + 1))%Z) in
  retry ∈ timers st2 /\
  CDb ∈ closer_calls st2 /\
  exited st2 = None /\
  forall j, timers st2 !! j = Some retry ->
    queries (step e (EvTimer j) st2) = S (queries st2).
Proof.
  intros st Hex Hw Hi Hlt Hs st1 st2 retry.
  assert (Hh : handles_issued st) by (apply handles_run; constructor).
  apply handles_differ in Hh.
  assert (Hk : knexObject st = true).
  { apply probe_needs_handle. by eapply list_elem_of_lookup_2. }
  assert (E1 : st1 = delay_then CbRetryCheckDb (2000 * (dbFailureCount st + 1))
                       (log Warn (MDbRetry (dbFailureCount st + 1)
                                    (2000 * (dbFailureCount st + 1) / 1000))
                          (set_dbFailing true
                             (set_dbFailureCount (dbFailureCount st + 1)
                                (set_pending (delete i (pending st)) st))))).
  { subst st1. unfold step. rewrite Hex, Hi. simpl. unfold checkDb_catch. simpl.
    apply Z.ltb_lt in Hlt. by rewrite Hlt. }
  assert (Hex1 : exited st1 = None) by (by rewrite E1).
  assert (Hw1 : waitingForExit st1 = false) by (by rewrite E1).
  assert (Ht1 : timers st1 = timers st ++ [retry]) by (by rewrite E1).
  assert (Ho1 : timeouts st1 = timeouts st) by (by rewrite E1).
  assert (Hk1 : knexObject st1 = true) by (by rewrite E1).
  assert (E2 : exists x, st2 = set_waitingForExit true (closeGracefully signal x) /\
                 waitingForExit x = false /\ timers x = timers st1 /\
                 timeouts x = timeouts st1 /\ knexObject x = true /\ exited x = None /\
                 closer_calls x = closer_calls st1).
  { subst st2. unfold step. rewrite Hex1, bool_decide_true by done.
    unfold on_process_event. destruct sigerr as [m|]; eexists; (split; [reflexivity|]);
      repeat split; try assumption.
    unfold closer_calls, history. simpl. rewrite omap_app. csimpl. by rewrite app_nil_r. }
  destruct E2 as (x & -> & Hwx & Htx & Hox & Hkx & Hexx & Hcx).
  assert (Hin : retry ∈ timers (closeGracefully signal x)).
  { rewrite closeGracefully_first by done. simpl.
    rewrite elem_of_app, elem_of_cleared, Htx, Hox, Ht1, Ho1. left.
    split; [rewrite elem_of_app; right; by left | done]. }
  split; [exact Hin|]. split; [|split].
  - change (CDb ∈ closer_calls (closeGracefully signal x)).
    rewrite closer_calls_closeGracefully by done.
    rewrite elem_of_app. right. unfold teardown_actions. rewrite Hkx. by left.
  - by rewrite closeGracefully_first.
  - intros j Hj. unfold step.
    assert (Hex2 : exited (set_waitingForExit true (closeGracefully signal x)) = None).
    { by rewrite closeGracefully_first. }
    rewrite Hex2, Hj. simpl. unfold checkDb.
    assert (Hk2 : knexObject (closeGracefully signal x) = true).
    { by rewrite closeGracefully_first. }
    simpl. rewrite Hk2. simpl. reflexivity.
Qed.

Lemma backoff_retry_survives_shutdown_witness :
  let st := run sample_env [Invoke (Db None); Happen (EvTimer 0)] serviceLoader in
  (1, CbRetryCheckDb, 2000%Z) ∈
    timers (step sample_env (EvSignal "SIGTERM" None)
              (step sample_env (EvSettle 0 (Rejected "down")) st)).
Proof.
  pose proof (backoff_retry_survives_shutdown sample_env
                [Invoke (Db None); Happen (EvTimer 0)] 0 "down" "SIGTERM" None) as H.
  destruct H as (H & _);
    [reflexivity | reflexivity | reflexivity | reflexivity | constructor 2; constructor 1 |].
  exact H.
Defined.

(** ** Exit status 0 *)

Lemma exited_closeGracefully signal st : exited (closeGracefully signal st) = exited st.
Proof.
  destruct (waitingForExit st) eqn:Hw.
  - by rewrite closeGracefully_latched.
  - by rewrite closeGracefully_first.
Qed.

Lemma clean_alive st : exited st = None -> clean_exit st.
Proof. unfold clean_exit. congruence. Qed.

Lemma clean_all_closed signal st :
  exited st = None -> clean_exit (all_closed signal st).
Proof.
  intros Hex. unfold clean_exit, all_closed, exitProcess, process_exit. simpl.
  rewrite Hex. simpl. unfold exit_code.
  destruct (String.prefix "SIG" signal) eqn:Hp; [|discriminate].
  intros _. by eexists _, _.
Qed.

Ltac clean_atom Hex :=
  apply clean_alive; simpl; rewrite ?exited_closeGracefully; simpl; exact Hex.

Lemma clean_step e ev st : clean_exit st -> clean_exit (step e ev st).
Proof.
  intros H. unfold step.
  destruct (exited st) eqn:Hex; [done|].
  destruct ev as [signal err | i | i r].
  - destruct (bool_decide _); [|done].
    unfold on_process_event. destruct err as [m|]; clean_atom Hex.
  - destruct (timers st !! i) as [[[id cb] ms]|]; [|done].
    destruct cb as [| |hl|hosts|]; simpl.
    + unfold checkDb. simpl. destruct (knexObject st); simpl; [clean_atom Hex|].
      unfold on_process_event. clean_atom Hex.
    + unfold checkDb. simpl. destruct (knexObject st); simpl; [clean_atom Hex|].
      unfold on_process_event. clean_atom Hex.
    + rewrite pingHosts_eq. clean_atom Hex.
    + rewrite pingHosts_call_eq. destruct (all_hosts _) as [hl|].
      * rewrite pingHosts_eq. clean_atom Hex.
      * unfold on_process_event, null_cycle. clean_atom Hex.
    + unfold clean_exit, force_exit, exitProcess, process_exit. simpl. rewrite Hex.
      discriminate.
  - destruct (pending st !! i) as [p|]; [|done].
    destruct p as [|hl|td c|a rest cb|].
    + destruct r as [|err]; simpl.
      * unfold checkDb_then. simpl. destruct (dbFailing st); clean_atom Hex.
      * unfold checkDb_catch. simpl.
        destruct (dbFailureCount st <? dbFailureMax st)%Z; clean_atom Hex.
    + destruct r as [|err]; simpl.
      * unfold pingHosts_then. simpl.
        destruct (pingFailing st) as [h|]; [destruct (String.eqb h "")|]; clean_atom Hex.
      * unfold pingHosts_catch. simpl.
        destruct (pingFailureCount st <? pingFailureMax st)%Z; clean_atom Hex.
    + simpl. unfold close_settled.
      destruct r as [|err]; simpl.
      * destruct c; simpl.
        all: destruct (teardowns st !! td) as [t|]; [|clean_atom Hex].
        all: destruct (td_settled t); [clean_atom Hex|].
        all: destruct (pred (td_remaining t) =? 0)%nat; [|clean_atom Hex].
        all: apply clean_all_closed; exact Hex.
      * destruct (teardowns st !! td) as [t|]; [|clean_atom Hex].
        destruct (td_settled t); clean_atom Hex.
    + destruct (startup_frame_settle_action e a rest cb r
                  (set_pending (delete i (pending st)) st))
        as (_&_&_&_&_&_&_&_&_&_&F11&_).
      change (exited (set_pending (delete i (pending st)) st)) with (exited st) in F11.
      intros Hc. destruct F11 as [F|F]; rewrite F in Hc; congruence.
    + destruct r as [|err]; simpl; [clean_atom Hex|].
      unfold clean_exit, done_catch, exitProcess, process_exit. simpl. rewrite Hex.
      discriminate.
Qed.

Lemma clean_apply_call e c st st' :
  apply_call e c st = Ok st' -> exited st = None -> clean_exit st'.
Proof.
  intros Hc Hex. destruct c as [u o|u|o|app port|o|prm|prm|cb]; simpl in Hc.
  - unfold chain_ping in Hc. destruct (negb (truthy u) || negb (isArray u)); [done|].
    destruct (parse_hosts e _) as [m'|hosts]; [done|].
    injection Hc as <-.
    destruct (truthy_num o failureMax), (truthy_num o frequency); clean_atom Hex.
  - unfold chain_cache in Hc. destruct (negb (truthy u)); [done|].
    injection Hc as <-. clean_atom Hex.
  - injection Hc as <-. clean_atom Hex.
  - unfold chain_express in Hc. destruct (negb (truthy app)); [done|].
    injection Hc as <-. clean_atom Hex.
  - unfold chain_db in Hc. injection Hc as <-.
    destruct (truthy_num o failureMax), (truthy_num o frequency); clean_atom Hex.
  - injection Hc as <-. clean_atom Hex.
  - injection Hc as <-. clean_atom Hex.
  - injection Hc as <-.
    destruct (startup_frame_chain_done e cb st) as (_&_&_&_&_&_&_&_&_&_&F11&_).
    intros H. destruct F11 as [F|F]; rewrite F in H; congruence.
Qed.

Lemma clean_run e ins : forall st, clean_exit st -> clean_exit (run e ins st).
Proof.
  induction ins as [|i ins IH]; intros st H; [done|].
  change (run e (i :: ins) st) with (run e ins (react e st i)).
  apply IH. destruct i as [c|ev]; simpl; [|by apply clean_step].
  destruct (exited st) eqn:Hex; [done|].
  destruct (apply_call e c st) as [st'|m st'] eqn:Hc.
  2: { thrown Hc; exact H. }
  by eapply clean_apply_call.
Qed.

(** X10: a loader's process ends with status 0 only through the [.then] of
    the teardown: its last two log lines are "> Everything is closed" and
    the exit for a reason that starts with SIG. *)
Theorem exit_status_zero_means_all_closed (e : env) (ins : list input) :
  let st := run e ins serviceLoader in
  exited st = Some 0%Z ->
  exists signal rest,
    String.prefix "SIG" signal = true /\
    trace st = Log Info (MKilled signal) :: Log Info MAllClosed :: rest.
Proof. intros st. apply clean_run. by apply clean_alive. Qed.

Lemma exit_status_zero_means_all_closed_witness :
  exists signal rest,
    String.prefix "SIG" signal = true /\
    trace (run sample_env
             [ Invoke (Db None); Happen (EvSignal "SIGTERM" None);
               Happen (EvSettle 0 Resolved); Happen (EvSettle 0 Resolved) ]
             serviceLoader)
    = Log Info (MKilled signal) :: Log Info MAllClosed :: rest.
Proof.
  apply (exit_status_zero_means_all_closed sample_env
           [ Invoke (Db None); Happen (EvSignal "SIGTERM" None);
             Happen (EvSettle 0 Resolved); Happen (EvSettle 0 Resolved) ]).
  reflexivity.
Defined.

(** ** Startup going on during a shutdown *)

Lemma started_closeGracefully signal st : started (closeGracefully signal st) = started st.
Proof.
  destruct (waitingForExit st) eqn:Hw.
  - by rewrite closeGracefully_latched.
  - rewrite closeGracefully_first by done. unfold started, history. simpl.
    rewrite !rev_app_distr, rev_involutive. simpl. rewrite !omap_app.
    assert (Hc : forall l : list closer,
              omap (fun x => match x with Start a => Some a | _ => None end)
                   (List.map Call l) = []).
    { intros l. induction l as [|c l IH]; csimpl; done. }
    rewrite Hc. destruct (bool_decide _); csimpl; by rewrite ?app_nil_r.
Qed.

(** X11: nothing stops a startup sequence when a shutdown begins.  If the
    listener's turn comes after the trigger (the action before it resolves
    once the teardown has started), the server is started and its handle
    set, but the teardown, which collected its closures at the trigger, does
    not close it, and nothing that follows calls any closure again. *)
Theorem listener_started_during_shutdown_is_not_closed (e : env) (st : state) (i : nat)
    (a : action) (n : string) (rest : list string) (cb app port : jsval)
    (signal : string) (sigerr : option string) (ins : list input) :
  exited st = None -> waitingForExit st = false -> httpServer st = false ->
  pending st !! i = Some (PAction a (n :: rest) cb) ->
  promises st !! n = Some (AExpress app port) ->
  is_function app = true -> listen e app port = None ->
  signal ∈ handled_events ->
  let st1 := step e (EvSignal signal sigerr) st in
  let st2 := step e (EvSettle i Resolved) st1 in
  closer_calls st1 = closer_calls st ++ teardown_actions st /\
  (CHttp ∉ teardown_actions st) /\
  started st2 = started st ++ [AExpress app port] /\
  httpServer st2 = true /\
  closer_calls (run e ins st2) = closer_calls st1.
Proof.
  intros Hex Hw Hh Hi Hn Hf Hl Hs st1 st2.
  assert (E1 : exists x, st1 = set_waitingForExit true (closeGracefully signal x) /\
                 waitingForExit x = false /\ exited x = None /\
                 pending x = pending st /\ promises x = promises st /\
                 teardown_actions x = teardown_actions st /\
                 closer_calls x = closer_calls st /\ started x = started st).
  { subst st1. unfold step. rewrite Hex, bool_decide_true by done.
    unfold on_process_event. destruct sigerr as [m|]; eexists; (split; [reflexivity|]);
      repeat split; try assumption.
    - unfold closer_calls, history. simpl. rewrite omap_app. csimpl. by rewrite app_nil_r.
    - unfold started, history. simpl. rewrite omap_app. csimpl. by rewrite app_nil_r. }
  destruct E1 as (x & E1 & Hwx & Hexx & Hpx & Hrx & Htx & Hcx & Hsx).
  assert (C1 : closer_calls st1 = closer_calls st ++ teardown_actions st).
  { rewrite E1.
    change (closer_calls (closeGracefully signal x) = closer_calls st ++ teardown_actions st).
    rewrite closer_calls_closeGracefully by done. by rewrite Hcx, Htx. }
  assert (S1 : started st1 = started st).
  { rewrite E1. change (started (closeGracefully signal x) = started st).
    by rewrite started_closeGracefully. }
  assert (Hw1 : waitingForExit st1 = true) by (by rewrite E1).
  assert (Hex1 : exited st1 = None).
  { rewrite E1. change (exited (closeGracefully signal x) = None).
    by rewrite closeGracefully_first. }
  assert (Hp1 : pending st1 !! i = Some (PAction a (n :: rest) cb)).
  { rewrite E1. change (pending (closeGracefully signal x) !! i = Some (PAction a (n :: rest) cb)).
    rewrite closeGracefully_first by done. simpl. rewrite Hpx.
    rewrite lookup_app_l; [done | by eapply lookup_lt_Some]. }
  assert (Hn1 : promises st1 !! n = Some (AExpress app port)).
  { rewrite E1. change (promises (closeGracefully signal x) !! n = Some (AExpress app port)).
    rewrite closeGracefully_first by done. simpl. by rewrite Hrx. }
  clearbody st1.
  assert (E2 : st2 = add_pending (PAction (AExpress app port) rest cb)
                 (set_httpServer true
                    (emit (Start (AExpress app port))
                       (log Debug (MRunning n)
                          (match started_log a with
                           | Some m => log Info m (set_pending (delete i (pending st1)) st1)
                           | None => set_pending (delete i (pending st1)) st1
                           end))))).
  { subst st2. unfold step. rewrite Hex1, Hp1. simpl.
    destruct (started_log a); simpl; rewrite Hn1; unfold start_action; simpl;
      by rewrite Hf, Hl. }
  split; [done|]. split; [|split; [|split]].
  - unfold teardown_actions. rewrite Hh.
    destruct (knexObject st), (truthy (onExitPromise st)); simpl;
      rewrite ?elem_of_cons, ?elem_of_nil; intuition discriminate.
  - rewrite E2, <- S1. unfold started, history. simpl.
    destruct (started_log a); simpl; rewrite ?omap_app; csimpl;
      by rewrite ?app_nil_r.
  - by rewrite E2.
  - assert (Hw2 : waitingForExit st2 = true).
    { rewrite E2. simpl. by destruct (started_log a). }
    destruct (after_latch_run e ins st2 Hw2) as (_ & _ & ->).
    rewrite E2. unfold closer_calls, history. simpl.
    destruct (started_log a); simpl; rewrite ?omap_app; csimpl;
      by rewrite ?app_nil_r.
Qed.

Lemma listener_started_during_shutdown_is_not_closed_witness :
  let st := run sample_env
              [ Invoke (Cache (JStr "redis://h")); Invoke (Express (JFun "app") JUndefined);
                Invoke (Done JUndefined) ] serviceLoader in
  let st2 := step sample_env (EvSettle 0 Resolved)
               (step sample_env (EvSignal "SIGTERM" None) st) in
  httpServer st2 = true /\ closer_calls (run sample_env [] st2) = [CAmq].
Proof.
  pose proof (listener_started_during_shutdown_is_not_closed sample_env
                (run sample_env
                   [ Invoke (Cache (JStr "redis://h"));
                     Invoke (Express (JFun "app") JUndefined);
                     Invoke (Done JUndefined) ] serviceLoader)
                0 (ACache (JStr "redis://h")) "express" [] JUndefined (JFun "app") (JNum 80)
                "SIGTERM" None []) as H.
  destruct H as (_ & _ & _ & H4 & H5);
    [reflexivity | reflexivity | reflexivity | reflexivity | reflexivity | reflexivity
    | reflexivity | constructor 2; constructor 1 |].
  exact (conj H4 H5).
Defined.

(** ** The end of a startup sequence *)

Lemma seq_all_resolved e cb names : forall st,
  exited st = None -> no_startup_pending st ->
  startable e (promises st) names = true ->
  exists st1,
    settle_actions e (replicate (length names) Resolved) (seqPromise e names cb st)
      = done_then cb st1 /\
    startup_progress names (omap (fun n => promises st !! n) names) st st1.
Proof.
  induction names as [|n rest IH]; intros st Hex Hno Hok.
  - exists st. split; [done|]. unfold startup_progress. by rewrite !app_nil_r.
  - destruct (startable_cons _ _ _ _ Hok) as (a & Ha & Hsa & Hrest).
    destruct (seq_step e cb n rest a st Hex Hno Ha Hsa)
      as (st1 & st2 & S1 & S2 & St1 & St2 & E0 & ER & _).
    destruct (announce_obs n st) as (A1 & A2 & A3 & A4 & A5 & A6 & A7 & A8).
    destruct S1 as (S11 & S12 & S13 & S14 & S15 & S16 & S17 & S18).
    destruct S2 as (S21 & S22 & S23 & S24 & S25 & S26 & S27 & S28).
    assert (Hp2 : promises st2 = promises st) by congruence.
    assert (A9 : waitingForExit (log Debug (MRunning n) st) = waitingForExit st) by done.
    destruct (IH st2) as (st3 & E3 & P1 & P2 & P3 & P4 & P5 & P6 & P7 & P8 & P9).
    { congruence. }
    { unfold no_startup_pending. rewrite S22, S12, A2. done. }
    { by rewrite Hp2. }
    exists st3. split.
    + change (replicate (length (n :: rest)) Resolved)
        with (Resolved :: replicate (length rest) Resolved).
      by rewrite E0, settle_actions_cons, ER.
    + rewrite (omap_lookup_cons _ _ _ rest Ha).
      unfold startup_progress. repeat split; try congruence.
      * rewrite P8, S28, S18, A7, <- app_assoc. done.
      * rewrite P9, Hp2, St2, St1, <- app_assoc. done.
Qed.

(** The promise returned by the ready callback, the one registered last,
    rejects. *)
Lemma ready_rejected e err x n :
  exited x = None -> n = length (pending x) ->
  step e (EvSettle n (Rejected err)) (add_pending PReady x) = done_catch err x.
Proof.
  intros Hex ->. unfold step, add_pending. simpl.
  rewrite Hex, lookup_app_r by done. rewrite Nat.sub_diag. simpl.
  by rewrite delete_snoc.
Qed.

(** X12: once every registered action has resolved, [done] logs that the
    service is ready and calls [cb] if it is truthy, not otherwise.  If the
    promise [cb] returns rejects, the error is logged and the process exits
    with status 1 for the reason START: no teardown closure is called and no
    timer is touched, although every service was started. *)
Theorem ready_callback_failure_exits_without_teardown (e : env) (cb : jsval)
    (err : string) (st : state) :
  exited st = None -> no_startup_pending st ->
  startable e (promises st) (promiseOrder st) = true ->
  let acts := omap (fun n => promises st !! n) (promiseOrder st) in
  let st1 := settle_actions e (replicate (length (promiseOrder st)) Resolved)
               (chain_done e cb st) in
  started st1 = started st ++ acts /\
  (truthy cb = false ->
     pending st1 = pending st /\ exists rest, trace st1 = Log Info MReady :: rest) /\
  (truthy cb = true ->
     pending st1 = pending st ++ [PReady] /\
     (exists rest, trace st1 = CallReady cb :: Log Info MReady :: rest) /\
     let st2 := step e (EvSettle (length (pending st)) (Rejected err)) st1 in
     exited st2 = Some 1%Z /\
     waitingForExit st2 = true /\
     trace st2 = Log Info (MKilled "START") :: Log Error (MErr err) :: trace st1 /\
     closer_calls st2 = closer_calls st /\
     teardown_runs st2 = teardown_runs st /\
     timers st2 = timers st).
Proof.
  intros Hex Hno Hok acts st1. subst acts st1. rewrite chain_done_obs.
  destruct (seq_all_resolved e cb (promiseOrder st) (log Info MStarting st))
    as (x & -> & P1 & P2 & P3 & P4 & P5 & P6 & P7 & P8 & P9); [done..|].
  assert (Q1 : exited x = None) by (rewrite P1; exact Hex).
  assert (Q2 : pending x = pending st) by (rewrite P2; reflexivity).
  assert (Q3 : started x = started st ++
                 omap (fun n => promises st !! n) (promiseOrder st)).
  { rewrite P9. f_equal. obs. done. }
  assert (Q4 : closer_calls x = closer_calls st) by (rewrite P7; obs; done).
  assert (Q5 : teardown_runs x = teardown_runs st) by (rewrite P6; obs; done).
  assert (Q6 : timers x = timers st) by (rewrite P4; reflexivity).
  clear P1 P2 P3 P4 P5 P6 P7 P8 P9.
  split; [|split].
  - rewrite <- Q3. unfold done_then. destruct (truthy cb); obs; done.
  - intros Hcb. unfold done_then. rewrite Hcb. split; [exact Q2 | by eexists].
  - intros Hcb. unfold done_then. rewrite Hcb.
    split; [by rewrite <- Q2|]. split; [by eexists|].
    set (y := emit (CallReady cb) (log Info MReady x)).
    assert (Hy : exited y = None) by exact Q1.
    assert (Hn : length (pending st) = length (pending y)) by (by rewrite <- Q2).
    cbv zeta. rewrite (ready_rejected e err y _ Hy Hn).
    destruct (done_catch_obs err y Hy) as (D1 & D2 & D3 & D4 & D5 & D6 & _).
    split; [exact D1|]. split; [exact D2|]. split; [exact D3|].
    split; [|split].
    + rewrite D6, <- Q4. unfold y. obs. done.
    + rewrite D5, <- Q5. unfold y. obs. done.
    + rewrite D4, <- Q6. reflexivity.
Qed.

Lemma ready_callback_failure_exits_without_teardown_witness :
  let st := run sample_env [Invoke (Then (JFun "f"))] serviceLoader in
  started (settle_actions sample_env [Resolved] (chain_done sample_env (JFun "ready") st))
  = [ACustom (JFun "f")].
Proof.
  pose proof (ready_callback_failure_exits_without_teardown sample_env (JFun "ready") "boom"
                (run sample_env [Invoke (Then (JFun "f"))] serviceLoader)) as H.
  destruct H as (H & _); [reflexivity | apply Forall_nil; exact I | reflexivity |].
  exact H.
Defined.

Lemma startable_insert e (registry : gmap string action) names k a :
  startable e registry names = true -> starts_ok e a = true ->
  startable e (<[k := a]> registry) names = true.
Proof.
  unfold startable. rewrite !forallb_forall. intros H Ha n Hn.
  destruct (decide (k = n)) as [->|Hne].
  - by rewrite lookup_insert_eq.
  - rewrite lookup_insert_ne by done. by apply H.
Qed.

(** X13: configuring the cache twice lists the name cache twice in
    [promiseOrder] but keeps one closure, the second: [done] then starts the
    cache twice, both times with the second URL (and at every earlier place
    where cache was listed). *)
Theorem cache_configured_twice_starts_latest_twice (e : env) (u1 u2 cb : jsval)
    (st : state) :
  exited st = None -> no_startup_pending st ->
  startable e (promises st) (promiseOrder st) = true ->
  truthy u1 = true -> truthy u2 = true ->
  let st1 := run e [Invoke (Cache u1); Invoke (Cache u2)] st in
  let names := promiseOrder st1 in
  names = promiseOrder st ++ ["cache"; "cache"] /\
  promises st1 !! "cache" = Some (ACache u2) /\
  started (settle_actions e (replicate (length names) Resolved) (chain_done e cb st1)) =
    started st ++ omap (fun n => promises st1 !! n) (promiseOrder st) ++
    [ACache u2; ACache u2].
Proof.
  intros Hex Hno Hok H1 H2 st1 names.
  assert (E1 : st1 = register "cache" (ACache u2) (register "cache" (ACache u1) st)).
  { subst st1. unfold run. simpl. rewrite Hex. unfold chain_cache. rewrite H1. simpl.
    rewrite Hex. by rewrite H2. }
  assert (Hn : names = promiseOrder st ++ ["cache"; "cache"]).
  { subst names. rewrite E1. simpl. by rewrite <- app_assoc. }
  assert (Hp : promises st1 = <["cache" := ACache u2]> (promises st)).
  { rewrite E1. simpl. by rewrite insert_insert_eq. }
  assert (Hc : promises st1 !! "cache" = Some (ACache u2)).
  { by rewrite Hp, lookup_insert_eq. }
  split; [done|]. split; [done|].
  rewrite chain_done_obs. fold names.
  set (st0 := log Info MStarting st1).
  destruct (seq_all_resolved e cb names st0) as (x & -> & P).
  - unfold st0. by rewrite E1.
  - unfold st0. by rewrite E1.
  - change (promises st0) with (promises st1). rewrite Hp, Hn.
    unfold startable. rewrite forallb_app. apply andb_true_iff. split.
    + by apply (startable_insert e (promises st) (promiseOrder st)).
    + simpl. by rewrite lookup_insert_eq.
  - destruct P as (_&_&_&_&_&_&_&_&P9).
    change (promises st0) with (promises st1) in P9.
    assert (O : started st0 = started st) by (unfold st0; rewrite E1; obs; done).
    transitivity (started x).
    { unfold done_then. destruct (truthy cb); obs; done. }
    rewrite P9, O, Hn, omap_app. csimpl. by rewrite Hc.
Qed.

Lemma cache_configured_twice_starts_latest_twice_witness :
  let st1 := run sample_env [Invoke (Cache (JStr "redis://a")); Invoke (Cache (JStr "redis://b"))]
               serviceLoader in
  started (settle_actions sample_env [Resolved; Resolved] (chain_done sample_env JUndefined st1))
  = [ACache (JStr "redis://b"); ACache (JStr "redis://b")].
Proof.
  pose proof (cache_configured_twice_starts_latest_twice sample_env (JStr "redis://a")
                (JStr "redis://b") JUndefined serviceLoader) as H.
  destruct H as (_ & _ & H);
    [reflexivity | apply Forall_nil; exact I | reflexivity | reflexivity | reflexivity |].
  exact H.
Defined.

(** ** A streak of failed ping cycles *)

Lemma not_ping_not (l : list pending_op) :
  Forall (fun p => is_ping p = false) l -> Forall (fun p => ~ is_ping p = true) l.
Proof. rewrite !Forall_forall. intros H p Hp. by rewrite (H p Hp). Qed.

Lemma not_pingcb_not (l : list (nat * callback * Z)) :
  Forall (fun t => is_ping_callback t = false) l ->
  Forall (fun t => ~ is_ping_callback t = true) l.
Proof. rewrite !Forall_forall. intros H p Hp. by rewrite (H p Hp). Qed.

Lemma ping_rejected e err hl st l1 l2 :
  exited st = None ->
  pending st = l1 ++ PPing hl :: l2 ->
  Forall (fun p => is_ping p = false) l1 ->
  settle_first e is_ping (Rejected err) st =
  pingHosts_catch hl err (set_pending (l1 ++ l2) st).
Proof.
  intros Hex Hp H1. unfold settle_first. rewrite Hp.
  rewrite (list_find_middle_fresh _ _ _ _ (not_ping_not _ H1)) by done.
  unfold step. rewrite Hex, Hp.
  rewrite list_lookup_middle by done. by rewrite delete_middle.
Qed.

Lemma filter_rev_map_testHost (f : effect -> bool) (l : list string) :
  (forall port host, f (Connect port host) = false) ->
  List.filter f (rev (List.map testHost l)) = [].
Proof.
  intros H. induction l as [|c l IH]; simpl; [done|].
  rewrite List.filter_app, IH. simpl. unfold testHost. by rewrite H.
Qed.

Lemma pingHosts_counts hl st :
  teardown_runs (pingHosts hl st) = teardown_runs st /\
  ping_escalations (pingHosts hl st) = ping_escalations st /\
  ping_cycles (pingHosts hl st) = S (ping_cycles st).
Proof.
  rewrite pingHosts_eq. unfold teardown_runs, ping_escalations, ping_cycles.
  cbn [trace set_pending set_trace].
  rewrite !List.filter_app, !filter_rev_map_testHost by done. done.
Qed.

Lemma ping_failure_retry e err hl st :
  pinging hl st -> (pingFailureCount st < pingFailureMax st)%Z ->
  let st' := ping_failure e err st in
  pinging hl st' /\
  pingFailureCount st' = (pingFailureCount st + 1)%Z /\
  pingFailureMax st' = pingFailureMax st /\
  waitingForExit st' = waitingForExit st /\
  teardown_runs st' = teardown_runs st /\
  ping_escalations st' = ping_escalations st /\
  ping_cycles st' = S (ping_cycles st).
Proof.
  intros (Hex & (l1 & l2 & Hp & H1 & H2) & Ht) Hlt st'. subst st'.
  unfold ping_failure. rewrite (ping_rejected e err hl st l1 l2 Hex Hp H1).
  unfold pingHosts_catch. simpl. apply Z.ltb_lt in Hlt. rewrite Hlt.
  unfold delay_then, setTimeout. simpl.
  unfold fire_first. simpl.
  rewrite (list_find_snoc_fresh _ _ _ (not_pingcb_not _ Ht)) by done.
  unfold step. simpl. rewrite Hex.
  rewrite lookup_app_r by done. rewrite Nat.sub_diag. simpl.
  rewrite delete_snoc.
  match goal with |- context [pingHosts hl ?y] => set (st0 := y) end.
  destruct (pingHosts_counts hl st0) as (C1 & C2 & C3).
  rewrite C1, C2, C3. rewrite pingHosts_eq. simpl.
  split; [|repeat split].
  1: split; [done|]; split; [|done].
  all: rewrite ?foldl_emit; try done.
  exists (l1 ++ l2), []. repeat split; try done. by apply Forall_app.
Qed.

Lemma ping_idle_closeGracefully signal st :
  ping_idle st -> ping_idle (closeGracefully signal st).
Proof.
  intros [H1 H2]. destruct (waitingForExit st) eqn:Hw.
  - by rewrite closeGracefully_latched.
  - rewrite closeGracefully_first by done. split; simpl.
    + apply Forall_app. split; [done|].
      generalize (teardown_actions st). intros l. induction l; simpl; by constructor.
    + apply Forall_app. split; [by apply Forall_cleared | by repeat constructor].
Qed.

Lemma ping_failure_escalate e err hl st :
  pinging hl st -> ~ (pingFailureCount st < pingFailureMax st)%Z ->
  let st' := ping_failure e err st in
  ping_idle st' /\
  waitingForExit st' = true /\
  ping_escalations st' = S (ping_escalations st) /\
  ping_cycles st' = ping_cycles st /\
  pingFailureCount st' = pingFailureCount st /\
  (waitingForExit st = false ->
   teardown_runs st' = S (teardown_runs st) /\
   last (teardowns st') = Some (Teardown "NOHOST" (length (teardown_actions st)) false)).
Proof.
  intros (Hex & (l1 & l2 & Hp & H1 & H2) & Ht) Hlt st'. subst st'.
  unfold ping_failure. rewrite (ping_rejected e err hl st l1 l2 Hex Hp H1).
  unfold pingHosts_catch. simpl. apply Z.ltb_nlt in Hlt. rewrite Hlt.
  set (x := log Error (MPingError err) (set_pending (l1 ++ l2) st)).
  assert (Hx : ping_idle x) by (split; simpl; [by apply Forall_app | done]).
  pose proof (ping_idle_closeGracefully "NOHOST" x Hx) as [I1 I2].
  assert (Hf : fire_first e is_ping_callback
                 (set_waitingForExit true (closeGracefully "NOHOST" x))
               = set_waitingForExit true (closeGracefully "NOHOST" x)).
  { unfold fire_first. simpl. by rewrite (list_find_none _ _ (not_pingcb_not _ I2)). }
  rewrite Hf. split; [by split|]. split; [done|].
  assert (Hc : forall (f : effect -> bool) l,
            (forall c, f (Call c) = false) -> List.filter f (rev (List.map Call l)) = []).
  { intros f l Hfc. induction l as [|c l IH]; simpl; [done|].
    by rewrite List.filter_app, IH; simpl; rewrite Hfc. }
  split; [|split; [|split]].
  - unfold ping_escalations.
    change (trace (set_waitingForExit true (closeGracefully "NOHOST" x)))
      with (trace (closeGracefully "NOHOST" x)).
    destruct (waitingForExit x) eqn:Hw.
    + by rewrite closeGracefully_latched.
    + rewrite closeGracefully_first by done. simpl.
      rewrite !List.filter_app, Hc by done. by destruct (bool_decide _).
  - unfold ping_cycles.
    change (trace (set_waitingForExit true (closeGracefully "NOHOST" x)))
      with (trace (closeGracefully "NOHOST" x)).
    destruct (waitingForExit x) eqn:Hw.
    + by rewrite closeGracefully_latched.
    + rewrite closeGracefully_first by done. simpl.
      rewrite !List.filter_app, Hc by done. by destruct (bool_decide _).
  - destruct (waitingForExit x) eqn:Hw.
    + by rewrite closeGracefully_latched.
    + by rewrite closeGracefully_first.
  - intros Hw. split.
    + change (teardown_runs (closeGracefully "NOHOST" x) = S (teardown_runs st)).
      by rewrite teardown_runs_closeGracefully.
    + rewrite closeGracefully_first by done. simpl. by rewrite last_snoc.
Qed.

Lemma ping_failure_idle e err st : ping_idle st -> ping_failure e err st = st.
Proof.
  intros [H1 H2]. unfold ping_failure, settle_first.
  rewrite (list_find_none _ _ (not_ping_not _ H1)).
  unfold fire_first. by rewrite (list_find_none _ _ (not_pingcb_not _ H2)).
Qed.

Lemma ping_failures_below e err hl st : forall k,
  pinging hl st -> pingFailureCount st = 0%Z ->
  (0 < k -> (Z.of_nat k <= pingFailureMax st)%Z) ->
  let stk := Nat.iter k (ping_failure e err) st in
  pinging hl stk /\
  pingFailureCount stk = Z.of_nat k /\
  pingFailureMax stk = pingFailureMax st /\
  waitingForExit stk = waitingForExit st /\
  teardown_runs stk = teardown_runs st /\
  ping_escalations stk = ping_escalations st /\
  ping_cycles stk = k + ping_cycles st.
Proof.
  induction k as [|k IH]; intros Hp Hc Hle stk; subst stk.
  - simpl. split; [exact Hp|]. repeat split; done.
  - destruct IH as (I1 & I2 & I3 & I4 & I5 & I6 & I7); [done | done | lia |].
    specialize (Hle ltac:(lia)).
    simpl Nat.iter.
    destruct (ping_failure_retry e err hl _ I1) as (R1 & R2 & R3 & R4 & R5 & R6 & R7);
      [lia|].
    split; [exact R1|]. repeat split; try congruence; lia.
Qed.

Lemma ping_idle_trigger signal x :
  ping_idle x -> ping_idle (set_waitingForExit true (closeGracefully signal x)).
Proof. intros H. by apply (ping_idle_closeGracefully signal) in H. Qed.

Lemma no_ping_done_catch err st :
  Forall (fun p => is_ping p = false) (pending st) ->
  Forall (fun p => is_ping p = false) (pending (done_catch err st)).
Proof. unfold done_catch, exitProcess, process_exit. simpl. by destruct (exited st). Qed.

Lemma no_ping_seqPromise e cb names : forall st,
  Forall (fun p => is_ping p = false) (pending st) ->
  Forall (fun p => is_ping p = false) (pending (seqPromise e names cb st)).
Proof.
  induction names as [|n rest IH]; intros st H; simpl.
  - unfold done_then. destruct (truthy cb); simpl; [|done].
    apply Forall_app. split; [done | by repeat constructor].
  - change (promises (log Debug (MRunning n) st) !! n) with (promises st !! n).
    destruct (promises st !! n) as [a|]; [|by apply IH].
    unfold start_action.
    assert (Hadd : forall x, pending x = pending st ->
              Forall (fun p => is_ping p = false) (pending (add_pending (PAction a rest cb) x))).
    { intros x Hx. simpl. rewrite Hx. apply Forall_app. split; [done | by repeat constructor]. }
    destruct a as [u|o|app port|prm]; try (by apply Hadd).
    destruct (if is_function app then _ else _); [|by apply Hadd].
    by apply no_ping_done_catch.
Qed.

Ltac ping_idle_goal Hp Ht :=
  simpl; rewrite ?Forall_app; repeat split;
  try (apply Forall_delete); try assumption; try reflexivity;
  try (repeat constructor; fail).

Ltac ping_idle_atom Hp Ht :=
  first
    [ apply ping_idle_trigger; split; ping_idle_goal Hp Ht
    | split; ping_idle_goal Hp Ht ].

Lemma ping_idle_step e ev st : ping_idle st -> ping_idle (step e ev st).
Proof.
  intros H. pose proof H as [Hp Ht]. unfold step.
  destruct (exited st) eqn:Hex; [done|].
  destruct ev as [signal err | i | i r].
  - destruct (bool_decide _); [|done].
    unfold on_process_event. destruct err as [m|]; ping_idle_atom Hp Ht.
  - destruct (timers st !! i) as [[[id cb] ms]|] eqn:Hi; [|done].
    assert (Hcb : is_ping_callback (id, cb, ms) = false).
    { rewrite Forall_forall in Ht. apply Ht. by eapply list_elem_of_lookup_2. }
    destruct cb as [| |hl|hosts|]; try discriminate Hcb; simpl.
    + unfold checkDb. simpl. destruct (knexObject st); simpl; [ping_idle_atom Hp Ht|].
      unfold on_process_event. ping_idle_atom Hp Ht.
    + unfold checkDb. simpl. destruct (knexObject st); simpl; [ping_idle_atom Hp Ht|].
      unfold on_process_event. ping_idle_atom Hp Ht.
    + unfold force_exit, exitProcess, process_exit. simpl. rewrite Hex.
      ping_idle_atom Hp Ht.
  - destruct (pending st !! i) as [p|] eqn:Hi; [|done].
    assert (Hpr : is_ping p = false).
    { rewrite Forall_forall in Hp. apply Hp. by eapply list_elem_of_lookup_2. }
    destruct p as [|hl|td c|a rest cb|]; try discriminate Hpr.
    + destruct r as [|err]; simpl.
      * unfold checkDb_then. simpl. destruct (dbFailing st); ping_idle_atom Hp Ht.
      * unfold checkDb_catch. simpl.
        destruct (dbFailureCount st <? dbFailureMax st)%Z; ping_idle_atom Hp Ht.
    + simpl. unfold close_settled.
      destruct r as [|err]; simpl.
      * destruct c; simpl.
        all: destruct (teardowns st !! td) as [t|]; [|ping_idle_atom Hp Ht].
        all: destruct (td_settled t); [ping_idle_atom Hp Ht|].
        all: destruct (pred (td_remaining t) =? 0)%nat; [|ping_idle_atom Hp Ht].
        all: unfold all_closed, exitProcess, process_exit; simpl; rewrite Hex.
        all: ping_idle_atom Hp Ht.
      * destruct (teardowns st !! td) as [t|]; [|ping_idle_atom Hp Ht].
        destruct (td_settled t); ping_idle_atom Hp Ht.
    + set (st0 := set_pending (delete i (pending st)) st).
      destruct (startup_frame_settle_action e a rest cb r st0) as (F1&_).
      split; [|by rewrite F1].
      assert (H0 : Forall (fun p => is_ping p = false) (pending st0)).
      { simpl. by apply Forall_delete. }
      destruct r as [|err].
      * simpl. apply no_ping_seqPromise. by destruct (started_log a).
      * by apply (no_ping_done_catch err).
    + destruct r as [|err]; simpl; [ping_idle_atom Hp Ht|].
      unfold done_catch, exitProcess, process_exit. simpl. rewrite Hex.
      ping_idle_atom Hp Ht.
Qed.

Lemma ping_idle_events e evs : forall st,
  ping_idle st -> ping_idle (run e (List.map Happen evs) st).
Proof.
  induction evs as [|ev evs IH]; intros st H; [done|].
  change (run e (List.map Happen (ev :: evs)) st)
    with (run e (List.map Happen evs) (step e ev st)).
  by apply IH, ping_idle_step.
Qed.

(** X14: the ping monitor gives up one failure later than its ceiling.
    Counting from a fresh streak, each of the first [pingFailureMax] failed
    cycles is retried (the count grows, a new cycle is started, nothing is
    escalated); the failed cycle after those escalates: one fatal log, one
    shutdown with the reason NOHOST, the latch set, no new cycle.  From then
    on no cycle is in flight and no timer will call [pingHosts], whatever
    events follow. *)
Theorem ping_escalates_after_failureMax_retries (e : env) (err : string)
    (hostList : list string) (st : state) :
  pinging hostList st -> waitingForExit st = false -> pingFailureCount st = 0%Z ->
  let m := Z.to_nat (pingFailureMax st) in
  (forall k, k <= m ->
     let stk := Nat.iter k (ping_failure e err) st in
     pinging hostList stk /\
     pingFailureCount stk = Z.of_nat k /\
     ping_cycles stk = k + ping_cycles st /\
     ping_escalations stk = ping_escalations st /\
     teardown_runs stk = teardown_runs st /\
     waitingForExit stk = false) /\
  let st' := Nat.iter (S m) (ping_failure e err) st in
  ping_escalations st' = S (ping_escalations st) /\
  teardown_runs st' = S (teardown_runs st) /\
  (exists n, last (teardowns st') = Some (Teardown "NOHOST" n false)) /\
  waitingForExit st' = true /\
  ping_cycles st' = m + ping_cycles st /\
  ping_idle st' /\
  (forall k, Nat.iter (k + S m) (ping_failure e err) st = st') /\
  (forall evs,
     let st'' := run e (List.map Happen evs) st' in
     ping_idle st'' /\ teardown_runs st'' = S (teardown_runs st)).
Proof.
  intros Hp Hw Hc m.
  assert (Hbelow : forall k, k <= m ->
     let stk := Nat.iter k (ping_failure e err) st in
     pinging hostList stk /\ pingFailureCount stk = Z.of_nat k /\
     pingFailureMax stk = pingFailureMax st /\
     ping_cycles stk = k + ping_cycles st /\
     ping_escalations stk = ping_escalations st /\
     teardown_runs stk = teardown_runs st /\
     waitingForExit stk = false).
  { intros k Hk stk. subst stk.
    destruct (ping_failures_below e err hostList st k Hp Hc) as (B1&B2&B3&B4&B5&B6&B7);
      [subst m; lia|].
    split; [exact B1|]. repeat split; congruence. }
  split.
  { intros k Hk stk. destruct (Hbelow k Hk) as (B1&B2&B3&B4&B5&B6&B7).
    split; [exact B1|]. repeat split; assumption. }
  intros st'. subst st'. simpl Nat.iter.
  destruct (Hbelow m (le_n m)) as (B1&B2&B3&B4&B5&B6&B7).
  set (stm := Nat.iter m (ping_failure e err) st) in *.
  destruct (ping_failure_escalate e err hostList stm B1) as (E1&E2&E3&E4&E5&E6).
  { rewrite B2, B3. subst m. lia. }
  destruct (E6 B7) as [E7 E8].
  set (st' := ping_failure e err stm) in *.
  split; [congruence|]. split; [congruence|]. split; [by eexists|].
  split; [done|]. split; [congruence|]. split; [done|]. split.
  - intros k. induction k as [|k IH]; [done|].
    simpl Nat.iter. simpl in IH. rewrite IH. by apply ping_failure_idle.
  - intros evs st''. subst st''.
    split; [by apply ping_idle_events|].
    destruct (after_latch_run e (List.map Happen evs) st' E2) as (_ & A2 & _).
    congruence.
Qed.

Lemma ping_escalates_after_failureMax_retries_witness :
  let st := pingHosts ["a:1"] serviceLoader in
  teardown_runs (Nat.iter 8 (ping_failure sample_env "a:1") st) = 0 /\
  teardown_runs (Nat.iter 9 (ping_failure sample_env "a:1") st) = 1.
Proof.
  pose proof (ping_escalates_after_failureMax_retries sample_env "a:1" ["a:1"]
                (pingHosts ["a:1"] serviceLoader)) as H.
  destruct H as (H1 & _ & H2 & _).
  - split; [reflexivity|]. split; [|apply Forall_nil; exact I].
    exists [], []. split; [reflexivity|]. split; apply Forall_nil; exact I.
  - reflexivity.
  - reflexivity.
  - split; [|exact H2].
    destruct (H1 8) as (_ & _ & _ & _ & H3 & _); [vm_compute; lia | exact H3].
Defined.

(** ** Recovery of the database monitor *)

Lemma probe_resolved e st l1 l2 :
  exited st = None ->
  pending st = l1 ++ PProbe :: l2 ->
  Forall (fun p => is_probe p = false) l1 ->
  settle_first e is_probe Resolved st = checkDb_then (set_pending (l1 ++ l2) st).
Proof.
  intros Hex Hp H1. unfold settle_first. rewrite Hp.
  rewrite (list_find_middle_fresh _ _ _ _ (not_probe_not _ H1)) by done.
  unfold step. rewrite Hex, Hp.
  rewrite list_lookup_middle by done. by rewrite delete_middle.
Qed.

Lemma db_failure_retry_flags e err st :
  probing st -> (dbFailureCount st < dbFailureMax st)%Z ->
  dbFailing (db_failure e err st) = true /\
  dbFrequency (db_failure e err st) = dbFrequency st.
Proof.
  intros (Hex & Hk & (l1 & l2 & Hp & H1 & H2) & Ht) Hlt.
  unfold db_failure. rewrite (probe_rejected e err st l1 l2 Hex Hp H1).
  unfold checkDb_catch. simpl. apply Z.ltb_lt in Hlt. rewrite Hlt.
  unfold delay_then, setTimeout. simpl.
  unfold fire_first. simpl.
  rewrite (list_find_snoc_fresh _ _ _ (not_db_not _ Ht)) by done.
  unfold step. simpl. rewrite Hex.
  rewrite lookup_app_r by done. rewrite Nat.sub_diag. simpl.
  rewrite delete_snoc. unfold checkDb. simpl. rewrite Hk. simpl. done.
Qed.

Lemma db_success_probing e st :
  probing st ->
  let st1 := settle_first e is_probe Resolved st in
  let st2 := db_success e st in
  trace st1 = (if dbFailing st then [Log Info MRecoveredDb] else []) ++ trace st /\
  last (timers st1) = Some (nextTimer st, CbCheckDb, dbFrequency st) /\
  probing st2 /\
  dbFailureCount st2 = 0%Z /\
  dbFailing st2 = false /\
  dbFailureMax st2 = dbFailureMax st /\
  waitingForExit st2 = waitingForExit st /\
  teardown_runs st2 = teardown_runs st /\
  escalations st2 = escalations st /\
  queries st2 = S (queries st).
Proof.
  intros (Hex & Hk & (l1 & l2 & Hp & H1 & H2) & Ht) st1 st2. subst st1 st2.
  unfold db_success. rewrite (probe_resolved e st l1 l2 Hex Hp H1).
  unfold checkDb_then, setTimeout_as, setTimeout. simpl.
  destruct (dbFailing st) eqn:Hf; simpl.
  all: rewrite last_snoc.
  all: split; [done|]; split; [done|].
  all: unfold fire_first; simpl.
  all: rewrite (list_find_snoc_fresh _ _ _ (not_db_not _ Ht)) by done.
  all: unfold step; simpl; rewrite Hex.
  all: rewrite lookup_app_r by done; rewrite Nat.sub_diag; simpl.
  all: rewrite delete_snoc; unfold checkDb; simpl; rewrite Hk; simpl.
  all: repeat split; try done.
  all: exists (l1 ++ l2), []; repeat split; try done; by apply Forall_app.
Qed.

Lemma kept_refl st : configuration_kept st st.
Proof. by repeat split. Qed.

Lemma kept_settle_first e sel r st : configuration_kept st (settle_first e sel r st).
Proof.
  unfold settle_first. destruct (list_find _ _) as [[i p]|]; [apply kept_step | apply kept_refl].
Qed.

Lemma kept_fire_first e sel st : configuration_kept st (fire_first e sel st).
Proof.
  unfold fire_first. destruct (list_find _ _) as [[i p]|]; [apply kept_step | apply kept_refl].
Qed.

Lemma kept_db_failures e err st k :
  configuration_kept st (Nat.iter k (db_failure e err) st).
Proof.
  induction k as [|k IH]; [apply kept_refl|].
  simpl Nat.iter. eapply kept_trans; [exact IH|].
  unfold db_failure. eapply kept_trans; [apply kept_settle_first | apply kept_fire_first].
Qed.

(** X15: a successful probe after k failures (k at least 1, at most the
    ceiling) logs the recovery, puts the failure count back to 0 and
    schedules the next check after [dbFrequency]; from that check on, a new
    streak of failures is again retried [dbFailureMax] times before anything
    is escalated. *)
Theorem db_recovery_restores_retry_budget (e : env) (err : string) (st : state) (k : nat) :
  probing st -> waitingForExit st = false -> dbFailureCount st = 0%Z ->
  0 < k -> k <= Z.to_nat (dbFailureMax st) ->
  let stk := Nat.iter k (db_failure e err) st in
  let st1 := settle_first e is_probe Resolved stk in
  let st2 := db_success e stk in
  dbFailureCount stk = Z.of_nat k /\
  trace st1 = Log Info MRecoveredDb :: trace stk /\
  (exists id, last (timers st1) = Some (id, CbCheckDb, dbFrequency st)) /\
  probing st2 /\
  dbFailureCount st2 = 0%Z /\
  dbFailing st2 = false /\
  waitingForExit st2 = false /\
  forall j, j <= Z.to_nat (dbFailureMax st) ->
    let stj := Nat.iter j (db_failure e err) st2 in
    probing stj /\
    dbFailureCount stj = Z.of_nat j /\
    escalations stj = escalations st /\
    teardown_runs stj = teardown_runs st.
Proof.
  intros Hp Hw Hc Hk0 Hk stk st1 st2.
  destruct (kept_db_failures e err st k) as (_&_&_&_&_&_&Kf&_). fold stk in Kf.
  destruct k as [|k]; [lia|].
  destruct (db_failures_below e err st k Hp Hc) as (B1&B2&B3&B4&B5&B6&B7); [lia|].
  set (stp := Nat.iter k (db_failure e err) st) in *.
  assert (Hlt : (dbFailureCount stp < dbFailureMax stp)%Z) by lia.
  destruct (db_failure_retry e err stp B1 Hlt) as (R1&R2&R3&R4&R5&R6&R7).
  destruct (db_failure_retry_flags e err stp B1 Hlt) as (G1&_).
  change (db_failure e err stp) with stk in R1, R2, R3, R4, R5, R6, R7, G1.
  destruct (db_success_probing e stk R1) as (S1&S2&S3&S4&S5&S6&S7&S8&S9&S10).
  fold st1 st2 in S1, S2, S3, S4, S5, S6, S7, S8, S9, S10.
  rewrite G1 in S1.
  split; [lia|]. split; [done|]. split; [rewrite Kf in S2; by eexists|].
  split; [done|]. split; [done|]. split; [done|]. split; [congruence|].
  intros j Hj stj. subst stj.
  destruct (db_failures_below e err st2 j S3 S4) as (J1&J2&_&_&J5&J6&_).
  { intros _. rewrite S6, R3, B3. lia. }
  split; [done|]. split; [done|]. split; congruence.
Qed.

Lemma db_recovery_restores_retry_budget_witness :
  dbFailureCount
    (db_success sample_env (Nat.iter 1 (db_failure sample_env "down") db_scenario)) = 0%Z.
Proof.
  pose proof (db_recovery_restores_retry_budget sample_env "down" db_scenario 1) as H.
  cbv zeta in H.
  destruct H as (_ & _ & _ & _ & H & _).
  - split; [reflexivity|]. split; [reflexivity|]. split; [|apply Forall_nil; exact I].
    exists [], []. split; [reflexivity|]. split; apply Forall_nil; exact I.
  - reflexivity.
  - reflexivity.
  - lia.
  - vm_compute; lia.
  - exact H.
Defined.

(** ** The first ping cycle *)

Lemma first_cycle_fires e hl x st :
  exited x = None -> timers x = timers st ->
  step e (EvTimer (length (timers st)))
    (setTimeout_as "initialPingHosts" (CbInitialPingHosts hl) pingReadiness x)
  = fire (CbInitialPingHosts hl)
      (set_timers (timers st)
         (setTimeout_as "initialPingHosts" (CbInitialPingHosts hl) pingReadiness x)).
Proof.
  intros Hx Ht. unfold step, setTimeout_as, setTimeout. simpl. rewrite Hx, Ht.
  rewrite lookup_app_r by done. rewrite Nat.sub_diag. simpl.
  by rewrite delete_snoc.
Qed.

Lemma pings_closeGracefully signal st :
  List.filter is_ping (pending (closeGracefully signal st)) =
  List.filter is_ping (pending st).
Proof.
  destruct (waitingForExit st) eqn:Hw.
  - by rewrite closeGracefully_latched.
  - rewrite closeGracefully_first by done. simpl. rewrite List.filter_app.
    generalize (teardown_actions st). intros l.
    induction l as [|c l IH]; simpl; [by rewrite app_nil_r | exact IH].
Qed.

Lemma first_cycle_outcome e hl x st :
  exited x = None -> timers x = timers st -> trace x = trace st ->
  pending x = pending st -> waitingForExit x = waitingForExit st ->
  let st' := setTimeout_as "initialPingHosts" (CbInitialPingHosts hl) pingReadiness x in
  let st'' := step e (EvTimer (length (timers st))) st' in
  match all_hosts (uniqueValues hl) with
  | Some targets =>
      history st'' = history st ++ Log Debug (MPing targets) :: List.map testHost targets /\
      pending st'' = pending st ++ [PPing targets] /\
      timers st'' = timers st
  | None =>
      st'' = set_waitingForExit true
               (closeGracefully "uncaughtException"
                  (log Error (MErr split_of_null)
                     (null_cycle (uniqueValues hl) (set_timers (timers st) st')))) /\
      waitingForExit st'' = true /\
      exited st'' = None /\
      List.filter is_ping (pending st'') = List.filter is_ping (pending st) /\
      (waitingForExit st = false -> teardown_runs st'' = S (teardown_runs st))
  end.
Proof.
  intros Hx Ht Hr Hp Hw st' st''. subst st'' st'.
  rewrite (first_cycle_fires e hl x st Hx Ht). unfold fire.
  rewrite pingHosts_call_eq. destruct (all_hosts (uniqueValues hl)) as [targets|].
  - rewrite pingHosts_eq. unfold history, setTimeout_as, setTimeout. simpl.
    rewrite Hr, Hp. repeat split.
    rewrite rev_app_distr, rev_involutive. simpl. by rewrite <- app_assoc.
  - unfold on_process_event.
    set (y := log Error (MErr split_of_null) (null_cycle _ _)).
    assert (Ey : exited y = None) by exact Hx.
    assert (Wy : waitingForExit y = waitingForExit st) by exact Hw.
    assert (Ty : teardown_runs y = teardown_runs st).
    { subst y. rewrite (proj1 (null_cycle_logged _ _ _)).
      unfold teardown_runs. simpl. by rewrite Hr. }
    assert (Py : pending y = pending st) by exact Hp.
    clearbody y.
    pose proof (exited_closeGracefully "uncaughtException" y) as Ez.
    pose proof (pings_closeGracefully "uncaughtException" y) as Pz.
    assert (Tz : waitingForExit st = false ->
                 teardown_runs (closeGracefully "uncaughtException" y)
                 = S (teardown_runs st)).
    { intros W. rewrite teardown_runs_closeGracefully by congruence. by rewrite Ty. }
    revert Ez Pz Tz. generalize (closeGracefully "uncaughtException" y).
    intros z Ez Pz Tz.
    split; [reflexivity|]. split; [reflexivity|]. split; [simpl; congruence|].
    split; [simpl; congruence | exact Tz].
Qed.

(** X16: [ping] registers no startup action and opens no connection: it
    parses the truthy entries of the list and schedules the first cycle
    10000 ms later over the hosts [url.parse] gave, null for an entry with
    no host.  The targets are what [utils.uniqueValues] makes of them,
    whichever it keeps and in whatever order.  When that timer fires,
    whether or not [done] was ever called, the cycle is logged.  If every
    target is a string, one connection per target is opened in the order of
    the list and the outcome of the whole cycle is awaited as one promise.
    If a target is null, [testHost] throws on it after the connections to
    the targets before it were opened: the error leaves the timer callback,
    the handler of uncaughtException logs it and starts a shutdown, and no
    cycle is awaited. *)
Theorem ping_first_cycle_after_readiness (e : env) (urlList : jsval)
    (opts : option options) (st st' : state) :
  exited st = None ->
  chain_ping e urlList opts st = Ok st' ->
  exists hosts,
    parse_hosts e (List.filter truthy (array_items urlList)) = inr hosts /\
    promiseOrder st' = promiseOrder st /\
    trace st' = trace st /\
    pending st' = pending st /\
    timers st' =
      timers st ++ [(nextTimer st, CbInitialPingHosts (uniqueValues hosts), 10000%Z)] /\
    let st'' := step e (EvTimer (length (timers st))) st' in
    match all_hosts (uniqueValues (uniqueValues hosts)) with
    | Some targets =>
        history st'' = history st ++ Log Debug (MPing targets) :: List.map testHost targets /\
        pending st'' = pending st ++ [PPing targets] /\
        timers st'' = timers st
    | None =>
        st'' = set_waitingForExit true
                 (closeGracefully "uncaughtException"
                    (log Error (MErr split_of_null)
                       (null_cycle (uniqueValues (uniqueValues hosts))
                          (set_timers (timers st) st')))) /\
        waitingForExit st'' = true /\
        exited st'' = None /\
        List.filter is_ping (pending st'') = List.filter is_ping (pending st) /\
        (waitingForExit st = false -> teardown_runs st'' = S (teardown_runs st))
    end.
Proof.
  intros Hex Hc. unfold chain_ping in Hc.
  destruct (negb (truthy urlList) || negb (isArray urlList)); [done|].
  destruct (parse_hosts e _) as [m|hosts]; [done|].
  injection Hc as <-. exists hosts. split; [reflexivity|].
  assert (H : forall x, exited x = None -> timers x = timers st -> trace x = trace st ->
                pending x = pending st -> nextTimer x = nextTimer st ->
                promiseOrder x = promiseOrder st ->
    promiseOrder (setTimeout_as "initialPingHosts" (CbInitialPingHosts (uniqueValues hosts))
                    pingReadiness x) = promiseOrder st /\
    trace (setTimeout_as "initialPingHosts" (CbInitialPingHosts (uniqueValues hosts))
             pingReadiness x) = trace st /\
    pending (setTimeout_as "initialPingHosts" (CbInitialPingHosts (uniqueValues hosts))
               pingReadiness x) = pending st /\
    timers (setTimeout_as "initialPingHosts" (CbInitialPingHosts (uniqueValues hosts))
              pingReadiness x)
      = timers st ++ [(nextTimer st, CbInitialPingHosts (uniqueValues hosts), 10000%Z)]).
  { intros x Hx Ht Hr Hp Hn Ho. unfold setTimeout_as, setTimeout. simpl.
    by rewrite Ht, Hn, Hr, Hp, Ho. }
  destruct (truthy_num opts failureMax), (truthy_num opts frequency).
  all: match goal with
       | |- context [setTimeout_as _ _ _ ?x] =>
           destruct (H x) as (H1 & H2 & H3 & H4); try done;
           pose proof (first_cycle_outcome e (uniqueValues hosts) x st) as F
       end.
  all: repeat (split; [assumption|]).
  all: apply F; done.
Qed.

Lemma ping_first_cycle_after_readiness_witness :
  (exists st',
     chain_ping sample_env (JArr [JStr "b"]) None serviceLoader = Ok st' /\
     timers st' = [(0, CbInitialPingHosts [None], 10000%Z)] /\
     waitingForExit (step sample_env (EvTimer 0) st') = true) /\
  (exists st',
     chain_ping sample_env (JArr [JStr "http://a:1/"]) None serviceLoader = Ok st' /\
     pending (step sample_env (EvTimer 0) st') = [PPing ["a:1"]]).
Proof.
  split.
  - eexists. split; [reflexivity|].
    destruct (ping_first_cycle_after_readiness sample_env
                (JArr [JStr "b"]) None serviceLoader _ eq_refl eq_refl)
      as (hosts & Hp & _ & _ & _ & Ht & H).
    injection Hp as <-. split; [exact Ht|]. exact (proj1 (proj2 H)).
  - eexists. split; [reflexivity|].
    destruct (ping_first_cycle_after_readiness sample_env
                (JArr [JStr "http://a:1/"]) None serviceLoader _ eq_refl eq_refl)
      as (hosts & Hp & _ & _ & _ & _ & H).
    injection Hp as <-. exact (proj1 (proj2 H)).
Defined.

(** ** A listener that cannot start *)

(** X17: when the turn of a listener comes whose app factory is not a
    function, or whose call or listen throws, the action is announced and
    started, the error is logged and the process exits with status 1 for the
    reason START; the server handle is not set, nothing is left pending, no
    teardown closure is called and no timer is touched; the names after it
    are never reached. *)
Theorem listener_that_cannot_start_fails_startup (e : env) (cb : jsval) (n : string)
    (rest : list string) (app port : jsval) (st : state) :
  exited st = None ->
  promises st !! n = Some (AExpress app port) ->
  starts_ok e (AExpress app port) = false ->
  let st' := seqPromise e (n :: rest) cb st in
  exited st' = Some 1%Z /\
  waitingForExit st' = true /\
  httpServer st' = httpServer st /\
  pending st' = pending st /\
  announced st' = announced st ++ [n] /\
  started st' = started st ++ [AExpress app port] /\
  closer_calls st' = closer_calls st /\
  timers st' = timers st /\
  exists err,
    trace st' = Log Info (MKilled "START") :: Log Error (MErr err) ::
                Start (AExpress app port) :: Log Debug (MRunning n) :: trace st.
Proof.
  intros Hex Hn Hok. cbv zeta.
  assert (H : exists err, (if is_function app then listen e app port
                           else Some "expressApp is not a function") = Some err).
  { unfold starts_ok in Hok. destruct (is_function app); [|by eexists].
    destruct (listen e app port) as [err|]; [by eexists|].
    rewrite bool_decide_true in Hok by done. discriminate Hok. }
  destruct H as [err Herr].
  assert (E : seqPromise e (n :: rest) cb st =
              done_catch err (emit (Start (AExpress app port)) (log Debug (MRunning n) st))).
  { simpl. change (promises (log Debug (MRunning n) st) !! n) with (promises st !! n).
    rewrite Hn. unfold start_action. by rewrite Herr. }
  rewrite E.
  set (y := emit (Start (AExpress app port)) (log Debug (MRunning n) st)).
  destruct (done_catch_obs err y Hex) as (D1 & D2 & D3 & D4 & D5 & D6 & D7 & D8).
  split; [exact D1|]. split; [exact D2|].
  split; [unfold done_catch, exitProcess, process_exit; simpl; by rewrite Hex|].
  split; [unfold done_catch, exitProcess, process_exit; simpl; by rewrite Hex|].
  split; [rewrite D7; unfold y; obs; done|].
  split; [rewrite D8; unfold y; obs; done|].
  split; [rewrite D6; unfold y; obs; done|].
  split; [rewrite D4; reflexivity|].
  exists err. exact D3.
Qed.

Lemma listener_that_cannot_start_fails_startup_witness :
  exited (seqPromise sample_env ["express"] JUndefined
            (run sample_env [Invoke (Express (JStr "not a function") JUndefined)]
               serviceLoader))
  = Some 1%Z.
Proof.
  pose proof (listener_that_cannot_start_fails_startup sample_env JUndefined "express" []
                (JStr "not a function") (JNum 80)
                (run sample_env [Invoke (Express (JStr "not a function") JUndefined)]
                   serviceLoader)) as H.
  cbv zeta in H.
  destruct H as (H & _); [reflexivity | reflexivity | reflexivity | exact H].
Defined.
